(** * Landing overlay controller (public/landing.js)

    A shallow embedding of the overlay / visibility controller of
    [public/landing.js] together with the properties of its specification.

    The script manipulates a browser document.  The embedding keeps the
    parts of the DOM the script can observe or change:

    - an element has an identity (the JS object reference), a tag, its
      attributes, its class list, its inline style and the listeners the
      script registered on it; a node is an element with children or a text
      node;
    - the document is the pair of the children of [<head>] and of [<body>];
      the [html], [head] and [body] elements themselves are taken to carry
      no [id], [class], [role] or [data-testid], so no selector of the
      script matches them;
    - strings are byte strings; [toLowerCase] and [trim] act on ASCII;
    - [el.focus()] gives the focus to any element that is attached (a
      control the browser would refuse to focus, disabled or not
      rendered, is not told apart); when a removal detaches the focused
      element, the focus falls back to the body.

    Module state of the IIFE ([landingRoot], [observer]), [sessionStorage],
    the pending [setTimeout] / [requestAnimationFrame] callbacks and
    [document.activeElement] are fields of one explicit [state] that every
    function threads.

    The page is a transition system: the host application inserts
    subtrees of its own making and removes subtrees anywhere (a node it
    removed is gone for good), pending callbacks run in any order, the
    observer's callback runs whenever it is installed, and user events are
    dispatched along the path of their target. *)

From Stdlib Require Import String Ascii List Bool Arith ZArith Lia.
From stdpp Require Import gmap strings list.
Import ListNotations.
Local Open Scope string_scope.
Local Open Scope list_scope.

(** ** Strings *)

Module Str.

Definition lower_ascii (c : ascii) : ascii :=
  let n := nat_of_ascii c in
  if Nat.leb 65 n && Nat.leb n 90 then ascii_of_nat (n + 32) else c.

(** [String.prototype.toLowerCase], on ASCII letters. *)
Fixpoint toLowerCase (s : string) : string :=
  match s with
  | EmptyString => EmptyString
  | String c t => String (lower_ascii c) (toLowerCase t)
  end.

Definition is_space (c : ascii) : bool :=
  let n := nat_of_ascii c in
  Nat.eqb n 32 || (Nat.leb 9 n && Nat.leb n 13).

Fixpoint drop_spaces (l : list ascii) : list ascii :=
  match l with
  | c :: t => if is_space c then drop_spaces t else l
  | [] => []
  end.

(** [String.prototype.trim], on ASCII white space. *)
Definition trim (s : string) : string :=
  string_of_list_ascii
    (rev (drop_spaces (rev (drop_spaces (list_ascii_of_string s))))).

(** [String.prototype.startsWith]. *)
Definition startsWith (s pre : string) : bool := String.prefix pre s.

(** [String.prototype.includes]. *)
Fixpoint includes (s pat : string) : bool :=
  String.prefix pat s ||
  match s with
  | EmptyString => false
  | String _ t => includes t pat
  end.

End Str.

(** ** Constants of the script *)

Definition STORAGE_KEY : string := "cuLandingDismissed".
Definition LANDING_ID : string := "cu-landing".
Definition BUTTON_ID : string := "cu-landing-return-btn".
Definition BUTTON_CONTAINER_ID : string := "cu-landing-return-container".
Definition KEYFRAME_ID : string := "cu-landing-anim".

(** ** Document model *)

(** Identity of a node.  Nodes made by the script's [createElement] calls
    are [Own k] with [k] drawn from the allocation counter of the state;
    nodes of the host application are [Host k]. *)
Inductive ref : Type :=
| Host (k : nat)
| Own (k : nat).

Definition ref_eqb (a b : ref) : bool :=
  match a, b with
  | Host x, Host y => Nat.eqb x y
  | Own x, Own y => Nat.eqb x y
  | _, _ => false
  end.

Inductive evtype : Type := Click | Keydown | MouseEnter | MouseLeave.

Definition evtype_eqb (a b : evtype) : bool :=
  match a, b with
  | Click, Click | Keydown, Keydown
  | MouseEnter, MouseEnter | MouseLeave, MouseLeave => true
  | _, _ => false
  end.

(** The closures the script passes to [addEventListener]; a closure that
    captures a node carries its reference. *)
Inductive handler : Type :=
| OnStartClick                 (* () => hideLanding(true) *)
| OnRootKeyClose               (* Escape / Enter *)
| OnRootKeyTrap (root : ref)   (* Tab focus trap *)
| OnLinkEnter (a : ref)
| OnLinkLeave (a : ref)
| OnReturnClick.               (* () => showLanding(true) *)

Definition kv : Type := list (string * string).

Fixpoint kv_get (k : string) (l : kv) : option string :=
  match l with
  | [] => None
  | (k', v) :: t => if String.eqb k k' then Some v else kv_get k t
  end.

Fixpoint kv_set (k v : string) (l : kv) : kv :=
  match l with
  | [] => [(k, v)]
  | (k', v') :: t =>
      if String.eqb k k' then (k, v) :: t else (k', v') :: kv_set k v t
  end.

Record elem : Type := mkElem {
  e_ref : ref;
  e_tag : string;
  e_attrs : kv;
  e_classes : list string;
  e_style : kv;
  e_listeners : list (evtype * handler)
}.

#[warnings="-register-all"]
Inductive node : Type :=
| Elem (e : elem) (kids : list node)
| Text (s : string).

Record document : Type := mkDoc {
  doc_head : list node;
  doc_body : list node
}.

Definition getAttribute (name : string) (e : elem) : option string :=
  kv_get name (e_attrs e).

Definition has_id (i : string) (e : elem) : bool :=
  match getAttribute "id" e with
  | Some v => String.eqb v i
  | None => false
  end.

Definition has_class (c : string) (e : elem) : bool :=
  existsb (String.eqb c) (e_classes e).

Definition has_tag (t : string) (e : elem) : bool := String.eqb (e_tag e) t.

Definition set_style (k v : string) (e : elem) : elem :=
  mkElem (e_ref e) (e_tag e) (e_attrs e) (e_classes e)
         (kv_set k v (e_style e)) (e_listeners e).

(** Elements of a subtree in document order. *)
Fixpoint elems (n : node) : list elem :=
  match n with
  | Text _ => []
  | Elem e kids => e :: flat_map elems kids
  end.

Definition forest_elems (l : list node) : list elem := flat_map elems l.

Definition doc_elems (d : document) : list elem :=
  forest_elems (doc_head d) ++ forest_elems (doc_body d).

(** Element subtrees in document order (each element with its children). *)
Fixpoint subnodes (n : node) : list node :=
  match n with
  | Text _ => []
  | Elem e kids => Elem e kids :: flat_map subnodes kids
  end.

Definition doc_nodes (d : document) : list node :=
  flat_map subnodes (doc_head d) ++ flat_map subnodes (doc_body d).

(** [Node.textContent]: the text of all descendants, in order. *)
Fixpoint textContent (n : node) : string :=
  match n with
  | Text s => s
  | Elem _ kids => fold_right (fun k acc => String.append (textContent k) acc) "" kids
  end.

Definition kids_text (kids : list node) : string :=
  fold_right (fun k acc => String.append (textContent k) acc) "" kids.

(** [document.getElementById] and [document.querySelector] for a simple
    selector: the first element in document order. *)
Definition find_elem (p : elem -> bool) (d : document) : option elem :=
  List.find p (doc_elems d).

Definition getElementById (i : string) (d : document) : option elem :=
  find_elem (has_id i) d.

(** *** Tree updates *)

(** Apply [f] to every element; [f] sees the element and its children. *)
Fixpoint map_node (f : elem -> list node -> elem) (n : node) : node :=
  match n with
  | Text s => Text s
  | Elem e kids => Elem (f e kids) (List.map (map_node f) kids)
  end.

Definition map_doc (f : elem -> list node -> elem) (d : document) : document :=
  mkDoc (List.map (map_node f) (doc_head d)) (List.map (map_node f) (doc_body d)).

(** Update the element whose identity is [r] (an assignment through a
    held reference such as [root.style.opacity = ...]). *)
Definition update_ref (r : ref) (g : elem -> elem) (d : document) : document :=
  map_doc (fun e _ => if ref_eqb (e_ref e) r then g e else e) d.

(** Detach the subtrees rooted at elements satisfying [p]. *)
Fixpoint prune (p : elem -> bool) (n : node) : list node :=
  match n with
  | Text s => [Text s]
  | Elem e kids => if p e then [] else [Elem e (flat_map (prune p) kids)]
  end.

Definition prune_forest (p : elem -> bool) (l : list node) : list node :=
  flat_map (prune p) l.

(** [node.remove()] through a held reference. *)
Definition remove_ref (r : ref) (d : document) : document :=
  mkDoc (prune_forest (fun e => ref_eqb (e_ref e) r) (doc_head d))
        (prune_forest (fun e => ref_eqb (e_ref e) r) (doc_body d)).

(** [target.appendChild(c)] where [target] is the first element in
    document order satisfying [p]; [None] when there is no such element. *)
Section Append.
Variable p : elem -> bool.
Variable c : node.

Fixpoint append_node (n : node) : option node :=
  match n with
  | Text _ => None
  | Elem e kids =>
      if p e then Some (Elem e (kids ++ [c]))
      else
        option_map (Elem e)
          ((fix go (l : list node) : option (list node) :=
              match l with
              | [] => None
              | x :: t =>
                  match append_node x with
                  | Some x' => Some (x' :: t)
                  | None => option_map (cons x) (go t)
                  end
              end) kids)
  end.

Fixpoint append_forest (l : list node) : option (list node) :=
  match l with
  | [] => None
  | x :: t =>
      match append_node x with
      | Some x' => Some (x' :: t)
      | None => option_map (cons x) (append_forest t)
      end
  end.
End Append.

Definition append_first (p : elem -> bool) (c : node) (d : document) : document :=
  match append_forest p c (doc_head d) with
  | Some h => mkDoc h (doc_body d)
  | None =>
      match append_forest p c (doc_body d) with
      | Some b => mkDoc (doc_head d) b
      | None => d
      end
  end.

Definition append_to_head (c : node) (d : document) : document :=
  mkDoc (doc_head d ++ [c]) (doc_body d).

Definition append_to_body (c : node) (d : document) : document :=
  mkDoc (doc_head d) (doc_body d ++ [c]).

(** Outcome of looking for the return button below a list of siblings. *)
Inductive removal : Type :=
| NoButton                       (* no element with the button id *)
| ChildGone (rest : list node)   (* the button was one of the siblings *)
| Deeper (l : list node).        (* the button was removed further down *)

Definition removal_cons (x : node) (r : removal) : removal :=
  match r with
  | NoButton => NoButton
  | ChildGone rest => ChildGone (x :: rest)
  | Deeper l => Deeper (x :: l)
  end.

Definition is_button (n : node) : bool :=
  match n with
  | Elem c _ => has_id BUTTON_ID c
  | Text _ => false
  end.

(** [btn.remove()] for the first element with id [BUTTON_ID], followed by
    [parent.remove()] when the parent's id is [BUTTON_CONTAINER_ID]. *)
Fixpoint remove_button_node (n : node) : option (list node) :=
  match n with
  | Text _ => None
  | Elem e kids =>
      match
        (fix go (l : list node) : removal :=
           match l with
           | [] => NoButton
           | x :: t =>
               if is_button x then ChildGone t
               else
                 match remove_button_node x with
                 | Some repl => Deeper (repl ++ t)
                 | None => removal_cons x (go t)
                 end
           end) kids
      with
      | NoButton => None
      | ChildGone rest =>
          if has_id BUTTON_CONTAINER_ID e then Some [] else Some [Elem e rest]
      | Deeper l => Some [Elem e l]
      end
  end.

Fixpoint remove_button_forest (l : list node) : removal :=
  match l with
  | [] => NoButton
  | x :: t =>
      if is_button x then ChildGone t
      else
        match remove_button_node x with
        | Some repl => Deeper (repl ++ t)
        | None => removal_cons x (remove_button_forest t)
        end
  end.

Definition removal_result (orig : list node) (r : removal) : list node :=
  match r with
  | NoButton => orig
  | ChildGone rest => rest
  | Deeper l => l
  end.

Definition remove_button_doc (d : document) : document :=
  match remove_button_forest (doc_head d) with
  | NoButton =>
      mkDoc (doc_head d)
            (removal_result (doc_body d) (remove_button_forest (doc_body d)))
  | r => mkDoc (removal_result (doc_head d) r) (doc_body d)
  end.

(** [document.querySelector(".cl-composer textarea, .cl-composer input,
    textarea.cl-input")]; [inside] records whether an ancestor carries the
    class [cl-composer]. *)
Definition composer_match (inside : bool) (e : elem) : bool :=
  (inside && (has_tag "textarea" e || has_tag "input" e))
  || (has_tag "textarea" e && has_class "cl-input" e).

Fixpoint find_composer (inside : bool) (n : node) : option ref :=
  match n with
  | Text _ => None
  | Elem e kids =>
      if composer_match inside e then Some (e_ref e)
      else
        (fix go (l : list node) : option ref :=
           match l with
           | [] => None
           | x :: t =>
               match find_composer (inside || has_class "cl-composer" e) x with
               | Some r => Some r
               | None => go t
               end
           end) kids
  end.

Fixpoint find_composer_forest (l : list node) : option ref :=
  match l with
  | [] => None
  | x :: t =>
      match find_composer false x with
      | Some r => Some r
      | None => find_composer_forest t
      end
  end.

Definition query_composer (d : document) : option ref :=
  match find_composer_forest (doc_head d) with
  | Some r => Some r
  | None => find_composer_forest (doc_body d)
  end.

(** The subtree rooted at the element of identity [r]. *)
Definition find_node (r : ref) (d : document) : option node :=
  List.find (fun n => match n with
                      | Elem e _ => ref_eqb (e_ref e) r
                      | Text _ => false
                      end) (doc_nodes d).

Definition in_document (r : ref) (d : document) : bool :=
  existsb (fun e => ref_eqb (e_ref e) r) (doc_elems d).

(** Event path of a target: the target and its ancestors, innermost first. *)
Section Path.
Variable r : ref.

Fixpoint path_to (n : node) : option (list elem) :=
  match n with
  | Text _ => None
  | Elem e kids =>
      if ref_eqb (e_ref e) r then Some [e]
      else
        option_map (fun p => p ++ [e])
          ((fix go (l : list node) : option (list elem) :=
              match l with
              | [] => None
              | x :: t =>
                  match path_to x with
                  | Some p => Some p
                  | None => go t
                  end
              end) kids)
  end.

Fixpoint path_in_forest (l : list node) : option (list elem) :=
  match l with
  | [] => None
  | x :: t =>
      match path_to x with
      | Some p => Some p
      | None => path_in_forest t
      end
  end.
End Path.

Definition event_path (r : ref) (d : document) : list elem :=
  match path_in_forest r (doc_head d) with
  | Some p => p
  | None => match path_in_forest r (doc_body d) with
            | Some p => p
            | None => []
            end
  end.

(** *** Host mutations

    The host application redraws its own tree: it inserts subtrees of its
    own making and removes subtrees anywhere.  [path] walks child indices
    from the top of [<head>] or [<body>] to the parent; [pos] is the
    position among that parent's children. *)

Inductive part : Type := InHead | InBody.

Inductive host_mut : Type :=
| HInsert (w : part) (path : list nat) (pos : nat) (n : node)
| HRemove (w : part) (path : list nat) (pos : nat).

Fixpoint insert_at (path : list nat) (pos : nat) (c : node) (l : list node)
  : list node :=
  match path with
  | [] => take pos l ++ c :: drop pos l
  | i :: path' =>
      match l !! i with
      | Some (Elem e kids) => <[i := Elem e (insert_at path' pos c kids)]> l
      | _ => l
      end
  end.

Fixpoint remove_at (path : list nat) (pos : nat) (l : list node) : list node :=
  match path with
  | [] => delete pos l
  | i :: path' =>
      match l !! i with
      | Some (Elem e kids) => <[i := Elem e (remove_at path' pos kids)]> l
      | _ => l
      end
  end.

Definition reserved_id (e : elem) : bool :=
  has_id LANDING_ID e || has_id BUTTON_ID e
  || has_id BUTTON_CONTAINER_ID e || has_id KEYFRAME_ID e.

(** What the host can create: elements that are not the script's. *)
Definition host_elem (e : elem) : bool :=
  match e_ref e with
  | Host _ => negb (reserved_id e) && match e_listeners e with [] => true | _ => false end
  | Own _ => false
  end.

Definition host_owned (n : node) : bool := forallb host_elem (elems n).

Definition on_part (w : part) (f : list node -> list node) (d : document)
  : document :=
  match w with
  | InHead => mkDoc (f (doc_head d)) (doc_body d)
  | InBody => mkDoc (doc_head d) (f (doc_body d))
  end.

Definition host_apply (m : host_mut) (d : document) : document :=
  match m with
  | HInsert w path pos n =>
      if host_owned n then on_part w (insert_at path pos n) d else d
  | HRemove w path pos => on_part w (remove_at path pos) d
  end.

(** ** Controller state *)

(** Callbacks handed to [setTimeout] and [requestAnimationFrame]. *)
Inductive timer : Type :=
| TFocus (btn : ref)     (* setTimeout(() => startBtn.focus(), 50) *)
| TDetach (root : ref)   (* the 260 ms callback of hideLanding *)
| TReveal (root : ref).  (* the requestAnimationFrame callback of showLanding *)

Record state : Type := mkState {
  doc : document;
  sessionStorage : gmap string string;
  landingRoot : option ref;
  observer : bool;              (* a MutationObserver is installed *)
  pending : list timer;
  activeElement : option ref;   (* [None]: the body *)
  next_ref : nat;               (* identities handed out so far *)
  debug_hook : bool;            (* window.CULanding is defined *)
  ready_listener : bool         (* a DOMContentLoaded listener is registered *)
}.

Definition with_doc (d : document) (st : state) : state :=
  mkState d (sessionStorage st) (landingRoot st) (observer st) (pending st)
          (activeElement st) (next_ref st) (debug_hook st) (ready_listener st).

Definition with_storage (m : gmap string string) (st : state) : state :=
  mkState (doc st) m (landingRoot st) (observer st) (pending st)
          (activeElement st) (next_ref st) (debug_hook st) (ready_listener st).

Definition with_landingRoot (r : option ref) (st : state) : state :=
  mkState (doc st) (sessionStorage st) r (observer st) (pending st)
          (activeElement st) (next_ref st) (debug_hook st) (ready_listener st).

Definition with_observer (b : bool) (st : state) : state :=
  mkState (doc st) (sessionStorage st) (landingRoot st) b (pending st)
          (activeElement st) (next_ref st) (debug_hook st) (ready_listener st).

Definition with_pending (l : list timer) (st : state) : state :=
  mkState (doc st) (sessionStorage st) (landingRoot st) (observer st) l
          (activeElement st) (next_ref st) (debug_hook st) (ready_listener st).

Definition with_active (r : option ref) (st : state) : state :=
  mkState (doc st) (sessionStorage st) (landingRoot st) (observer st)
          (pending st) r (next_ref st) (debug_hook st) (ready_listener st).

Definition with_next (n : nat) (st : state) : state :=
  mkState (doc st) (sessionStorage st) (landingRoot st) (observer st)
          (pending st) (activeElement st) n (debug_hook st) (ready_listener st).

Definition with_hook (b : bool) (st : state) : state :=
  mkState (doc st) (sessionStorage st) (landingRoot st) (observer st)
          (pending st) (activeElement st) (next_ref st) b (ready_listener st).

Definition with_ready (b : bool) (st : state) : state :=
  mkState (doc st) (sessionStorage st) (landingRoot st) (observer st)
          (pending st) (activeElement st) (next_ref st) (debug_hook st) b.

Definition schedule (t : timer) (st : state) : state :=
  with_pending (pending st ++ [t]) st.

(** [el.focus()]: only an element of the document takes the focus. *)
Definition focus (r : ref) (st : state) : state :=
  if in_document r (doc st) then with_active (Some r) st else st.

(** The focus fix-up of the DOM: when a removal takes the focused
    element out of the document, [document.activeElement] falls back to
    the body ([None]).  [before] is the document before the removal. *)
Definition blur_removed (before : document) (st : state) : state :=
  with_active
    (match activeElement st with
     | Some r =>
         if in_document r before && negb (in_document r (doc st))
         then None else Some r
     | None => None
     end) st.

(** ** The overlay tree *)

Definition plain (k : nat) (t : string) (st : kv) : elem :=
  mkElem (Own k) t [] [] st [].

Definition root_style : kv :=
  [ ("position", "fixed"); ("inset", "0"); ("zIndex", "9999");
    ("display", "flex"); ("flexDirection", "column");
    ("alignItems", "center"); ("justifyContent", "center");
    ("padding", "2.5rem 1.5rem");
    ("background",
     "radial-gradient(1200px 900px at 15% -10%, var(--cu-blue-50) 0%, transparent 60%),radial-gradient(1400px 1100px at 110% 110%, var(--cu-blue) 0%, transparent 70%),linear-gradient(135deg, var(--cu-blue) 0%, var(--cu-blue-50) 100%)");
    ("backdropFilter", "blur(4px)");
    ("animation", "fadeIn 480ms var(--easing)") ].

Definition card_style : kv :=
  [ ("width", "min(840px, 100%)"); ("background", "var(--glass-strong)");
    ("border", "1px solid var(--divider)"); ("boxShadow", "var(--shadow-lg)");
    ("borderRadius", "28px");
    ("padding", "3rem clamp(1.4rem, 4vw, 3.2rem) 2.6rem");
    ("display", "flex"); ("flexDirection", "column");
    ("alignItems", "flex-start"); ("gap", "1.75rem");
    ("position", "relative"); ("overflow", "hidden") ].

Definition deco_style : kv :=
  [ ("position", "absolute"); ("fontSize", "280px"); ("lineHeight", "1");
    ("opacity", ".05"); ("right", "-40px"); ("top", "-60px");
    ("pointerEvents", "none"); ("fontFamily", "var(--font-serif)") ].

Definition logo_style : kv :=
  [ ("width", "86px"); ("height", "86px"); ("objectFit", "contain");
    ("filter", "drop-shadow(0 6px 14px rgba(0,51,102,.25))");
    ("borderRadius", "50%") ].

Definition title_style : kv :=
  [ ("fontFamily", "var(--font-serif)");
    ("fontSize", "clamp(1.9rem, 5.2vw, 3.1rem)"); ("margin", "0");
    ("color", "var(--cu-navy)");
    ("textShadow", "0 2px 6px rgba(0,51,102,.12)") ].

Definition tagline_style : kv :=
  [ ("fontSize", "clamp(1rem, 1.15rem, 1.2rem)"); ("lineHeight", "1.55");
    ("margin", "0"); ("maxWidth", "60ch"); ("color", "var(--text)") ].

Definition ul_style : kv :=
  [ ("listStyle", "none"); ("margin", "0"); ("padding", "0");
    ("display", "grid"); ("gap", ".65rem"); ("fontSize", ".95rem") ].

Definition start_style : kv :=
  [ ("marginTop", ".35rem"); ("padding", "0 1.25rem"); ("height", "52px");
    ("fontSize", "1.05rem"); ("borderRadius", "18px") ].

Definition links_style : kv :=
  [ ("display", "flex"); ("flexWrap", "wrap"); ("gap", "1rem");
    ("marginTop", ".25rem") ].

Definition link_style : kv :=
  [ ("textDecoration", "none"); ("fontSize", ".85rem"); ("fontWeight", "600");
    ("padding", ".55rem .85rem"); ("border", "1px solid var(--divider)");
    ("borderRadius", "12px"); ("background", "var(--surface)");
    ("color", "var(--cu-deep)"); ("boxShadow", "var(--shadow-xs)") ].

Definition disclaimer_style : kv :=
  [ ("opacity", ".75"); ("fontSize", ".7rem"); ("marginTop", ".5rem") ].

Definition features : list string :=
  [ "Location-aware risk analysis from any NYC address";
    "Natural-language querying powered by GenAI";
    "Automatically unifies scattered geospatial datasets";
    "Clear, actionable risk summaries in seconds" ].

(** One [<li>] of the feature list; its [innerHTML] is two nested spans,
    the inner one holding the check mark. *)
Definition feature_item (k : nat) (f : string) : node :=
  Elem (plain k "li" [])
    [ Elem (plain (k + 1) "span"
              [ ("display", "inline-flex"); ("align-items", "center");
                ("gap", ".55rem") ])
        [ Elem (plain (k + 2) "span"
                  [ ("background", "var(--cu-blue)"); ("color", "var(--cu-navy)");
                    ("width", "22px"); ("height", "22px");
                    ("display", "inline-flex"); ("align-items", "center");
                    ("justify-content", "center"); ("border-radius", "999px");
                    ("font-size", ".75rem"); ("font-weight", "700");
                    ("box-shadow", "0 4px 10px rgba(0,51,102,.25)") ])
            [ Text "✓" ];
          Text f ] ].

Fixpoint feature_items (k : nat) (fs : list string) : list node :=
  match fs with
  | [] => []
  | f :: t => feature_item k f :: feature_items (k + 3) t
  end.

(** [makeLink(text, href)]. *)
Definition makeLink (k : nat) (text href : string) : node :=
  Elem (mkElem (Own k) "a"
          [ ("href", href); ("target", "_blank"); ("rel", "noopener noreferrer") ]
          [] link_style
          [ (MouseEnter, OnLinkEnter (Own k)); (MouseLeave, OnLinkLeave (Own k)) ])
       [ Text text ].

(** Offsets of the nodes of one overlay from its root's identity, in the
    order of the [createElement] calls. *)
Definition START_OFFSET : nat := 19.
Definition OVERLAY_SIZE : nat := 24.

Definition landing_tree (k : nat) : node :=
  Elem (mkElem (Own k) "div"
          [ ("id", LANDING_ID); ("role", "dialog"); ("aria-modal", "true") ]
          [] root_style
          [ (Keydown, OnRootKeyClose); (Keydown, OnRootKeyTrap (Own k)) ])
    [ Elem (plain (k + 1) "div" card_style)
        [ Elem (plain (k + 2) "div" deco_style) [ Text "♕" ];
          Elem (mkElem (Own (k + 3)) "img"
                  [ ("src", "/public/columbia_logo.png");
                    ("alt", "Columbia University Crown Logo") ]
                  [] logo_style []) [];
          Elem (plain (k + 4) "h1" title_style)
            [ Text "NYC Location Aware Risk Chatbot" ];
          Elem (plain (k + 5) "p" tagline_style)
            [ Text "No more digging through spreadsheets or maps—this system converts complex geospatial data into simple, conversational answers tailored to each project site." ];
          Elem (plain (k + 6) "ul" ul_style) (feature_items (k + 7) features);
          Elem (mkElem (Own (k + START_OFFSET)) "button"
                  [ ("type", "button");
                    ("aria-label", "Enter Chat and begin conversation") ]
                  [] start_style [ (Click, OnStartClick) ])
            [ Text "Enter Chat" ];
          Elem (plain (k + 20) "div" links_style)
            [ makeLink (k + 21) "Repository"
                "https://github.com/rishi614kumar/location-aware-risk-chatbot";
              makeLink (k + 22) "NYC Open Data"
                "https://opendata.cityofnewyork.us" ];
          Elem (plain (k + 23) "small" disclaimer_style)
            [ Text "Made in collaboration with Town+Gown: NYC @ DDC. LLM output may contain inaccuracies." ] ] ].

(** ** The functions of the script *)

(** [buildLanding()]: builds the tree, stores its root in [landingRoot],
    appends it to [document.body], schedules the focus of the start button
    and returns the root. *)
Definition buildLanding (st : state) : state * ref :=
  let k := next_ref st in
  let st1 := with_next (k + OVERLAY_SIZE) st in
  let st2 := with_landingRoot (Some (Own k)) st1 in
  let st3 := with_doc (append_to_body (landing_tree k) (doc st2)) st2 in
  (schedule (TFocus (Own (k + START_OFFSET))) st3, Own k).

Definition keyframe_node (k : nat) : node :=
  Elem (mkElem (Own k) "style" [ ("id", KEYFRAME_ID) ] [] [] [])
    [ Text "@keyframes fadeIn { from { opacity:0; transform:translateY(8px) scale(.985);} to { opacity:1; transform:translateY(0) scale(1);} }" ].

(** [ensureKeyframe()]. *)
Definition ensureKeyframe (st : state) : state :=
  match getElementById KEYFRAME_ID (doc st) with
  | Some _ => st
  | None =>
      let k := next_ref st in
      with_doc (append_to_head (keyframe_node k) (doc st)) (with_next (k + 1) st)
  end.

(** The candidates of [hideNativeHeaderButtons]:
    [button, a, [role='button'], [data-testid]]. *)
Definition candidate (e : elem) : bool :=
  has_tag "button" e || has_tag "a" e
  || match getAttribute "role" e with
     | Some v => String.eqb v "button"
     | None => false
     end
  || match getAttribute "data-testid" e with
     | Some _ => true
     | None => false
     end.

Definition attr_or_empty (name : string) (e : elem) : string :=
  match getAttribute name e with
  | Some v => v
  | None => ""
  end.

Definition sig_label (e : elem) : string :=
  Str.toLowerCase (attr_or_empty "aria-label" e).
Definition sig_testid (e : elem) : string :=
  Str.toLowerCase (attr_or_empty "data-testid" e).
Definition sig_text (kids : list node) : string :=
  Str.toLowerCase (Str.trim (kids_text kids)).

Definition looks_like_readme (e : elem) (kids : list node) : bool :=
  String.eqb (sig_text kids) "readme"
  || Str.includes (sig_label e) "readme"
  || Str.includes (sig_testid e) "readme".

Definition looks_like_theme (e : elem) : bool :=
  Str.includes (sig_label e) "theme"
  || Str.includes (sig_label e) "dark mode"
  || Str.includes (sig_label e) "light mode"
  || Str.includes (sig_testid e) "theme"
  || Str.includes (sig_testid e) "color-mode".

Definition denylisted (e : elem) (kids : list node) : bool :=
  looks_like_readme e kids || looks_like_theme e.

(** The body of the [forEach] of [hideNativeHeaderButtons]. *)
Definition hide_if_native (e : elem) (kids : list node) : elem :=
  if candidate e then
    if looks_like_readme e kids then set_style "display" "none" e
    else if looks_like_theme e then set_style "display" "none" e
    else e
  else e.

(** [hideNativeHeaderButtons()].  The [forEach] only assigns
    [style.display], which no candidate test reads, so it is a map over
    the tree. *)
Definition hideNativeHeaderButtons (st : state) : state :=
  with_doc (map_doc hide_if_native (doc st)) st.

Definition return_button (k : nat) (cls : list string) : node :=
  Elem (mkElem (Own k) "button"
          [ ("id", BUTTON_ID); ("type", "button");
            ("aria-label", "Show the introductory landing overlay again") ]
          cls [] [ (Click, OnReturnClick) ])
    [ Text "Homepage" ].

Definition container_node (k : nat) (kids : list node) : node :=
  Elem (mkElem (Own k) "div" [ ("id", BUTTON_CONTAINER_ID) ] [] [] []) kids.

(** [ensureReturnButton()]. *)
Definition ensureReturnButton (st : state) : state :=
  let header := find_elem (has_class "cl-header") (doc st) in
  let st1 := hideNativeHeaderButtons st in
  match getElementById BUTTON_ID (doc st1) with
  | Some _ => st1
  | None =>
      let k := next_ref st1 in
      match header with
      | Some _ =>
          with_doc
            (append_first (has_class "cl-header")
               (return_button k [ "cl-button-ghost"; "cu-landing-return" ])
               (doc st1))
            (with_next (k + 1) st1)
      | None =>
          let btn := return_button k [ "cu-landing-return-floating" ] in
          match getElementById BUTTON_CONTAINER_ID (doc st1) with
          | Some _ =>
              with_doc (append_first (has_id BUTTON_CONTAINER_ID) btn (doc st1))
                       (with_next (k + 1) st1)
          | None =>
              with_doc (append_to_body (container_node (k + 1) [ btn ]) (doc st1))
                       (with_next (k + 2) st1)
          end
      end
  end.

(** [removeReturnButton()]; the focus falls back to the body when the
    button held it. *)
Definition removeReturnButton (st : state) : state :=
  blur_removed (doc st) (with_doc (remove_button_doc (doc st)) st).

(** [hideLanding(storeDismissal)]. *)
Definition hideLanding (storeDismissal : bool) (st : state) : state :=
  match landingRoot st with
  | None => st
  | Some root =>
      let st1 :=
        with_doc
          (update_ref root
             (fun e => set_style "pointerEvents" "none" (set_style "opacity" "0" e))
             (doc st)) st in
      let st2 := schedule (TDetach root) st1 in
      let st3 :=
        if storeDismissal
        then with_storage (<[STORAGE_KEY := "1"]> (sessionStorage st2)) st2
        else st2 in
      match query_composer (doc st3) with
      | Some c => focus c st3
      | None => st3
      end
  end.

(** [showLanding(resetFlag)]; the removal of the old overlay, like that
    of the return button, takes the focus back to the body when the
    removed subtree held it. *)
Definition showLanding (resetFlag : bool) (st : state) : state :=
  let st1 :=
    if resetFlag
    then with_storage (delete STORAGE_KEY (sessionStorage st)) st
    else st in
  let st2 := removeReturnButton st1 in
  let st3 :=
    match landingRoot st2 with
    | Some r =>
        with_landingRoot None
          (blur_removed (doc st2) (with_doc (remove_ref r (doc st2)) st2))
    | None => st2
    end in
  let st4 := ensureKeyframe st3 in
  let '(st5, root) := buildLanding st4 in
  schedule (TReveal root) st5.

(** [setupObservers()]. *)
Definition setupObservers (st : state) : state :=
  if observer st then st
  else hideNativeHeaderButtons (ensureReturnButton (with_observer true st)).

(** The callback of the [MutationObserver]. *)
Definition on_mutations (st : state) : state :=
  hideNativeHeaderButtons (ensureReturnButton st).

(** [!sessionStorage.getItem(STORAGE_KEY)]: absent or empty. *)
Definition flag_unset (st : state) : bool :=
  match sessionStorage st !! STORAGE_KEY with
  | Some v => String.eqb v ""
  | None => true
  end.

(** [init()]. *)
Definition init (st : state) : state :=
  let st1 := hideNativeHeaderButtons (ensureKeyframe st) in
  let st2 := if flag_unset st1 then showLanding false st1
             else ensureReturnButton st1 in
  setupObservers st2.

(** The callbacks of the pending timers. *)
Definition fire (t : timer) (st : state) : state :=
  match t with
  | TFocus b => focus b st
  | TDetach root =>
      let st1 :=
        blur_removed (doc st) (with_doc (remove_ref root (doc st)) st) in
      let st2 :=
        match landingRoot st1 with
        | Some r => if ref_eqb r root then with_landingRoot None st1 else st1
        | None => st1
        end in
      ensureReturnButton st2
  | TReveal root =>
      with_doc
        (update_ref root
           (fun e => set_style "pointerEvents" "auto" (set_style "opacity" "1" e))
           (doc st)) st
  end.

(** *** The focus trap *)

Definition focusable_match (e : elem) : bool :=
  has_tag "button" e
  || match getAttribute "href" e with Some _ => true | None => false end
  || has_tag "input" e || has_tag "select" e || has_tag "textarea" e
  || match getAttribute "tabindex" e with
     | Some v => negb (String.eqb v "-1")
     | None => false
     end.

(** [focusable()]: [root.querySelectorAll(...)], the matching descendants
    of the root in document order. *)
Definition focusable (root : ref) (d : document) : list ref :=
  match find_node root d with
  | Some (Elem _ kids) => List.map e_ref (List.filter focusable_match (forest_elems kids))
  | _ => []
  end.

(** [Array.prototype.indexOf]. *)
Fixpoint indexOf (l : list ref) (r : ref) : Z :=
  match l with
  | [] => (-1)%Z
  | x :: t =>
      if ref_eqb x r then 0%Z
      else let i := indexOf t r in
           if (i <? 0)%Z then (-1)%Z else (i + 1)%Z
  end.

Definition active_index (items : list ref) (a : option ref) : Z :=
  match a with
  | Some r => indexOf items r
  | None => (-1)%Z
  end.

(** The decision of the Tab handler: the element it focuses (and then
    calls [preventDefault]), or [None] when it does nothing. *)
Definition trap_target (items : list ref) (a : option ref) (shiftKey : bool)
  : option ref :=
  match items with
  | [] => None
  | first :: _ =>
      let idx := active_index items a in
      if shiftKey then
        if (idx <=? 0)%Z then nth_error items (length items - 1) else None
      else
        if (idx =? Z.of_nat (length items) - 1)%Z then Some first else None
  end.

(** *** Listeners *)

Definition run_handler (h : handler) (key : string) (shiftKey : bool)
  (st : state) : state :=
  match h with
  | OnStartClick => hideLanding true st
  | OnRootKeyClose =>
      let st1 := if String.eqb key "Escape" then hideLanding true st else st in
      if String.eqb key "Enter" && negb shiftKey then hideLanding true st1 else st1
  | OnRootKeyTrap root =>
      if String.eqb key "Tab" then
        match trap_target (focusable root (doc st)) (activeElement st) shiftKey with
        | Some r => focus r st
        | None => st
        end
      else st
  | OnLinkEnter a =>
      with_doc
        (update_ref a
           (set_style "background"
              "color-mix(in oklab, var(--cu-blue-50) 55%, transparent)")
           (doc st)) st
  | OnLinkLeave a =>
      with_doc
        (update_ref a (set_style "background" "var(--surface)") (doc st)) st
  | OnReturnClick => showLanding true st
  end.

Definition listeners_for (ty : evtype) (e : elem) : list handler :=
  List.map snd (List.filter (fun p => evtype_eqb (fst p) ty) (e_listeners e)).

Definition bubbles (ty : evtype) : bool :=
  match ty with
  | Click | Keydown => true
  | MouseEnter | MouseLeave => false
  end.

(** Dispatch of a user event at the element [target]: the listeners on
    the event path fixed at dispatch time run in order. *)
Definition dispatch (ty : evtype) (target : ref) (key : string)
  (shiftKey : bool) (st : state) : state :=
  let path := event_path target (doc st) in
  let path := if bubbles ty then path else firstn 1 path in
  fold_left (fun s h => run_handler h key shiftKey s)
            (flat_map (listeners_for ty) path) st.

(** ** The page as a transition system *)

(** The entries of [window.CULanding]. *)
Inductive debug_call : Type := DShow | DHide | DReset | DHideHeaderButtons.

Definition run_debug (c : debug_call) (st : state) : state :=
  match c with
  | DShow => showLanding true st
  | DHide => hideLanding false st
  | DReset =>
      showLanding false
        (with_storage (delete STORAGE_KEY (sessionStorage st)) st)
  | DHideHeaderButtons => hideNativeHeaderButtons st
  end.

(** What can happen to a page once the script has been evaluated.  Each
    stimulus reaches the script only through what the script registered. *)
Inductive event : Type :=
| EvHost (m : host_mut)          (* the host redraws part of its tree *)
| EvDomReady                     (* DOMContentLoaded *)
| EvTimer (i : nat)              (* the i-th pending callback runs *)
| EvMutations                    (* a batch of mutation records is delivered *)
| EvUser (ty : evtype) (target : ref) (key : string) (shiftKey : bool)
| EvFocus (r : ref)              (* the browser moves the focus *)
| EvDebug (c : debug_call).      (* a call through window.CULanding *)

Definition step (ev : event) (st : state) : state :=
  match ev with
  | EvHost m => blur_removed (doc st) (with_doc (host_apply m (doc st)) st)
  | EvDomReady =>
      if ready_listener st then init (with_ready false st) else st
  | EvTimer i =>
      match pending st !! i with
      | Some t => fire t (with_pending (delete i (pending st)) st)
      | None => st
      end
  | EvMutations => if observer st then on_mutations st else st
  | EvUser ty target key shiftKey => dispatch ty target key shiftKey st
  | EvFocus r => focus r st
  | EvDebug c => if debug_hook st then run_debug c st else st
  end.

Definition run (evs : list event) (st : state) : state :=
  fold_left (fun s ev => step ev s) evs st.

(** The body of the IIFE, evaluated on a page at [pathname];
    [loading] is [document.readyState === "loading"]. *)
Definition script (pathname : string) (loading : bool) (st : state) : state :=
  if Str.startsWith pathname "/share" then st
  else
    let st1 := if loading then with_ready true st else init st in
    with_hook true st1.

(** Direct calls of the functions of the script, for statements about
    arbitrary call sequences. *)
Inductive call : Type :=
| CEnsureReturnButton
| CHideNativeHeaderButtons
| CShowLanding (resetFlag : bool)
| CHideLanding (storeDismissal : bool)
| CEnsureKeyframe
| CRemoveReturnButton
| CSetupObservers
| CInit.

Definition run_call (c : call) (st : state) : state :=
  match c with
  | CEnsureReturnButton => ensureReturnButton st
  | CHideNativeHeaderButtons => hideNativeHeaderButtons st
  | CShowLanding b => showLanding b st
  | CHideLanding b => hideLanding b st
  | CEnsureKeyframe => ensureKeyframe st
  | CRemoveReturnButton => removeReturnButton st
  | CSetupObservers => setupObservers st
  | CInit => init st
  end.

Inductive action : Type :=
| Call (c : call)
| Ext (ev : event).

Definition act (a : action) (st : state) : state :=
  match a with
  | Call c => run_call c st
  | Ext ev => step ev st
  end.

Definition perform (l : list action) (st : state) : state :=
  fold_left (fun s a => act a s) l st.

(** A page before the script has run: only host content. *)
Definition fresh_page (d : document) (store : gmap string string) : state :=
  mkState d store None false [] None 0 false false.

(** How many elements of the document carry the id [i]. *)
Definition count_id (i : string) (d : document) : nat :=
  length (List.filter (has_id i) (doc_elems d)).

(** * Vocabulary of the properties *)

(** The script's tests on elements (ids, classes, tags, attributes) never
    read the inline style; [strip] forgets it. *)
Definition strip (e : elem) : elem :=
  mkElem (e_ref e) (e_tag e) (e_attrs e) (e_classes e) [] (e_listeners e).

(** A test that does not read the inline style. *)
Definition style_blind (p : elem -> bool) : Prop :=
  forall e, p (strip e) = p e.

(** The elements of a document in document order, without their style. *)
Definition skeleton (d : document) : list elem := List.map strip (doc_elems d).

(** How many elements of [l] satisfy [p]. *)
Definition count (p : elem -> bool) (l : list elem) : nat :=
  length (List.filter p l).

(** The elements a host mutation brings into the document. *)
Definition host_added (m : host_mut) : list elem :=
  match m with
  | HInsert _ _ _ n => if host_owned n then elems n else []
  | HRemove _ _ _ => []
  end.

(** [evolves added d d']: up to inline style, the elements of [d'] are
    among those of [d] and the elements [added]. *)
Definition evolves (added : list elem) (d d' : document) : Prop :=
  skeleton d' ⊆+ skeleton d ++ List.map strip added.

(** [grows added d d']: up to style and order, [d'] is [d] plus [added]. *)
Definition grows (added : list elem) (d d' : document) : Prop :=
  skeleton d' ≡ₚ skeleton d ++ List.map strip added.

(** The elements [ensureKeyframe] creates. *)
Definition keyframe_added (st : state) : list elem :=
  match getElementById KEYFRAME_ID (doc st) with
  | Some _ => []
  | None => elems (keyframe_node (next_ref st))
  end.

(** The elements [ensureReturnButton] creates. *)
Definition return_added (st : state) : list elem :=
  match getElementById BUTTON_ID (doc st) with
  | Some _ => []
  | None =>
      let k := next_ref st in
      match find_elem (has_class "cl-header") (doc st) with
      | Some _ =>
          elems (return_button k [ "cl-button-ghost"; "cu-landing-return" ])
      | None =>
          let btn := return_button k [ "cu-landing-return-floating" ] in
          match getElementById BUTTON_CONTAINER_ID (doc st) with
          | Some _ => elems btn
          | None => elems (container_node (k + 1) [ btn ])
          end
      end
  end.

(** The cardinality invariant: at most one return button, one floating
    container, one keyframe definition and one overlay root are attached,
    and an attached overlay root is the node [landingRoot] refers to. *)
Record Inv (st : state) : Prop := mkInv {
  inv_button : count_id BUTTON_ID (doc st) <= 1;
  inv_container : count_id BUTTON_CONTAINER_ID (doc st) <= 1;
  inv_keyframe : count_id KEYFRAME_ID (doc st) <= 1;
  inv_overlay : count_id LANDING_ID (doc st) <= 1;
  inv_root : forall s, In s (skeleton (doc st)) ->
                       has_id LANDING_ID s = true ->
                       landingRoot st = Some (e_ref s)
}.

(** A document made of host content only. *)
Definition host_document (d : document) : bool :=
  forallb host_elem (doc_elems d).

(** A page of the host application used in the examples: a header with a
    theme toggle and a readme link, and the message composer. *)
Definition demo_page : document :=
  mkDoc []
    [ Elem (mkElem (Host 1) "header" [] [ "cl-header" ] [] [])
        [ Elem (mkElem (Host 2) "button"
                  [ ("aria-label", "Dark Mode Toggle") ] [] [] [])
            [ Text "x" ];
          Elem (mkElem (Host 3) "a" [] [] [] []) [ Text "  Readme " ] ];
      Elem (mkElem (Host 4) "div" [] [ "cl-composer" ] [] [])
        [ Elem (mkElem (Host 5) "textarea" [] [] [] []) [] ] ].

(** The document after the host mutations of a trace alone. *)
Definition host_run (evs : list event) (d : document) : document :=
  fold_left (fun d ev => match ev with
                         | EvHost m => host_apply m d
                         | _ => d
                         end) evs d.

(** Nothing of the script is registered and the document is the host's. *)
Definition untouched (st : state) : Prop :=
  observer st = false /\ debug_hook st = false /\ ready_listener st = false
  /\ pending st = [] /\ landingRoot st = None /\ next_ref st = 0
  /\ host_document (doc st) = true.

(** The calls that may write the key. *)
Definition writes_flag (c : call) : bool :=
  match c with
  | CShowLanding true | CHideLanding true => true
  | _ => false
  end.

(** The listeners that call [hideLanding(true)] or [showLanding(true)]. *)
Definition handler_writes (h : handler) : bool :=
  match h with
  | OnStartClick | OnRootKeyClose | OnReturnClick => true
  | _ => false
  end.

(** The events that can reach such a call: user events, and the debug
    entries [show] and [reset]. *)
Definition event_writes (ev : event) : bool :=
  match ev with
  | EvUser _ _ _ _ | EvDebug DShow | EvDebug DReset => true
  | _ => false
  end.

(** The demo page once the script has run: the overlay is open. *)
Definition demo_open : state := script "/" false (fresh_page demo_page ∅).

(** Renumbering of the identities of an overlay tree. *)
Definition rebase_ref (k : nat) (r : ref) : ref :=
  match r with
  | Own j => Own (k + j)
  | Host j => Host j
  end.

(** Renumbering inside the closures that capture a node. *)
Definition rebase_handler (k : nat) (h : handler) : handler :=
  match h with
  | OnRootKeyTrap r => OnRootKeyTrap (rebase_ref k r)
  | OnLinkEnter a => OnLinkEnter (rebase_ref k a)
  | OnLinkLeave a => OnLinkLeave (rebase_ref k a)
  | other => other
  end.

(** Renumbering of an element and of its listeners. *)
Definition rebase_elem (k : nat) (e : elem) : elem :=
  mkElem (rebase_ref k (e_ref e)) (e_tag e) (e_attrs e) (e_classes e)
         (e_style e)
         (List.map (fun p => (fst p, rebase_handler k (snd p))) (e_listeners e)).


(** Every candidate of the document that matches the script's deny list
    has [display: none]. *)
Definition all_hidden (d : document) : Prop :=
  forall e kids,
    In (Elem e kids) (doc_nodes d) ->
    candidate e = true -> denylisted e kids = true ->
    kv_get "display" (e_style e) = Some "none".

(** The deny list as the specification words it: "readme" as the whole
    text or inside the label or the test identifier, or one of "theme",
    "dark mode", "light mode" inside the label or the test identifier. *)
Definition stated_denylist (e : elem) (kids : list node) : bool :=
  String.eqb (sig_text kids) "readme"
  || Str.includes (sig_label e) "readme"
  || Str.includes (sig_testid e) "readme"
  || Str.includes (sig_label e) "theme"
  || Str.includes (sig_label e) "dark mode"
  || Str.includes (sig_label e) "light mode"
  || Str.includes (sig_testid e) "theme"
  || Str.includes (sig_testid e) "dark mode"
  || Str.includes (sig_testid e) "light mode".

(** The characters of a string. *)
Definition chars (s : string) : list ascii := list_ascii_of_string s.

(** A node of the tree after [appendChild]: an old node, a node of the
    new child, or an old element whose text now contains the child's. *)
Definition after_append (c : node) (old : list node) (e : elem)
  (kids' : list node) : Prop :=
  In (Elem e kids') old
  \/ In (Elem e kids') (subnodes c)
  \/ (exists kids, In (Elem e kids) old)
     /\ forall ch, In ch (chars (textContent c)) -> In ch (chars (kids_text kids')).

(** What [appendChild(c)] below [n] yields: the text of [n'] has the
    text of [c], and the nodes of [n'] are as [after_append] says. *)
Definition append_ok (c : node) (n n' : node) : Prop :=
  (forall ch, In ch (chars (textContent c)) -> In ch (chars (textContent n')))
  /\ forall e kids', In (Elem e kids') (subnodes n') ->
                     after_append c (subnodes n) e kids'.

(** The same for a list of siblings. *)
Definition append_forest_ok (c : node) (l l' : list node) : Prop :=
  (forall ch, In ch (chars (textContent c)) -> In ch (chars (kids_text l')))
  /\ forall e kids', In (Elem e kids') (flat_map subnodes l') ->
                     after_append c (flat_map subnodes l) e kids'.

(** The theme toggle the host draws again after removing it, and the demo
    page after a pass, the removal, the insertion and before the next
    pass. *)
Definition toggle_again : node :=
  Elem (mkElem (Host 7) "button" [ ("aria-label", "Dark Mode Toggle") ] [] [] [])
    [ Text "x" ].

Definition demo_redrawn : state :=
  run [ EvHost (HRemove InBody [0] 0);
        EvHost (HInsert InBody [0] 0 toggle_again) ]
    (on_mutations (fresh_page demo_page ∅)).

(** A host page whose only control carries the test identifier
    "dark mode". *)
Definition testid_page : document :=
  mkDoc []
    [ Elem (mkElem (Host 1) "button" [ ("data-testid", "dark mode") ] [] [] [])
        [ Text "x" ] ].

(** Where [document.getElementById(BUTTON_ID)] sits: nowhere, directly
    under [<head>] or [<body>], or under the element [p]
    ([btn.parentElement]). *)
Inductive place : Type :=
| Absent
| TopLevel
| Under (p : elem).

Fixpoint button_parent_node (n : node) : option elem :=
  match n with
  | Text _ => None
  | Elem e kids =>
      match
        (fix go (l : list node) : place :=
           match l with
           | [] => Absent
           | x :: t =>
               if is_button x then TopLevel
               else match button_parent_node x with
                    | Some p => Under p
                    | None => go t
                    end
           end) kids
      with
      | Absent => None
      | TopLevel => Some e
      | Under p => Some p
      end
  end.

Fixpoint button_place_forest (l : list node) : place :=
  match l with
  | [] => Absent
  | x :: t =>
      if is_button x then TopLevel
      else match button_parent_node x with
           | Some p => Under p
           | None => button_place_forest t
           end
  end.

Definition button_place (d : document) : place :=
  match button_place_forest (doc_head d) with
  | Absent => button_place_forest (doc_body d)
  | w => w
  end.

(** The element is a return button. *)
Definition is_btn : elem -> bool := has_id BUTTON_ID.

(** What a removal took away, given where the button was. *)
Definition taken (b : elem) (p : elem) (rest whole : list elem) : Prop :=
  if has_id BUTTON_CONTAINER_ID p
  then p :: b :: rest ⊆+ whole
  else b :: rest ⊆+ whole /\ In p rest.

(** The outcome of the removal matches the place of the button. *)
Definition agrees (pl : place) (r : removal) (l : list node) : Prop :=
  match pl, r with
  | Absent, NoButton => count is_btn (forest_elems l) = 0
  | TopLevel, ChildGone rest =>
      exists b, is_btn b = true /\ b :: forest_elems rest ⊆+ forest_elems l
  | Under p, Deeper l' =>
      exists b, is_btn b = true
                /\ taken b p (forest_elems l') (forest_elems l)
  | _, _ => False
  end.

(** The same below one node. *)
Definition agrees_node (n : node) : Prop :=
  match button_parent_node n, remove_button_node n with
  | None, None =>
      match n with
      | Elem _ kids => count is_btn (forest_elems kids) = 0
      | Text _ => True
      end
  | Some p, Some repl =>
      exists b, is_btn b = true /\ taken b p (forest_elems repl) (elems n)
  | _, _ => False
  end.

(** The same for a document. *)
Definition agrees_doc (d : document) : Prop :=
  match button_place d with
  | Absent => remove_button_doc d = d /\ count_id BUTTON_ID d = 0
  | TopLevel =>
      exists b, is_btn b = true
                /\ b :: doc_elems (remove_button_doc d) ⊆+ doc_elems d
  | Under p =>
      exists b, is_btn b = true
                /\ taken b p (doc_elems (remove_button_doc d)) (doc_elems d)
  end.

(** A page with no header once the script has run: the return button
    sits in the floating container. *)
Definition demo_floating : state :=
  script "/" false (fresh_page testid_page ∅).

(** The element is a keyframe definition. *)
Definition is_kf : elem -> bool := has_id KEYFRAME_ID.

(** Keyframe definitions anywhere in a forest. *)
Definition kf_count (l : list node) : nat := count is_kf (forest_elems l).

(** The children of a node. *)
Definition below (n : node) : list node :=
  match n with
  | Elem _ kids => kids
  | Text _ => []
  end.

(** No keyframe definition strictly inside [n]. *)
Definition kf_shallow (n : node) : Prop := kf_count (below n) = 0.

(** The node is a keyframe definition. *)
Definition is_kf_node (n : node) : bool :=
  match n with
  | Elem e _ => is_kf e
  | Text _ => false
  end.

(** Keyframe definitions among the children of [<head>]. *)
Definition top_kf (l : list node) : nat := length (List.filter is_kf_node l).

(** Every keyframe definition of the document is a child of [<head>]. *)
Definition kf_placed (d : document) : Prop :=
  kf_count (doc_body d) = 0 /\ Forall kf_shallow (doc_head d).

(** [d'] keeps the keyframe definitions of [d] in place. *)
Definition kf_safe (d d' : document) : Prop :=
  kf_placed d' /\ top_kf (doc_head d) <= top_kf (doc_head d').

(** Host removals are the mutations that can take the definition away. *)
Definition host_keeps (m : host_mut) : bool :=
  match m with
  | HInsert _ _ _ _ => true
  | HRemove _ _ _ => false
  end.

(** The roots the script may still detach: the current one and those of
    the pending detach callbacks. *)
(** The roots of the pending detach callbacks. *)
Definition detach_refs (l : list timer) : list ref :=
  flat_map (fun t => match t with TDetach r => [r] | _ => [] end) l.

Definition roots (st : state) : list ref :=
  match landingRoot st with Some r => [r] | None => [] end
  ++ detach_refs (pending st).

(** An identity already handed out (host identities always are). *)
Definition ref_below (n : nat) (r : ref) : Prop :=
  match r with
  | Own k => k < n
  | Host _ => True
  end.

(** An identity of the script already handed out. *)
Definition owned_below (n : nat) (r : ref) : Prop :=
  match r with
  | Own k => k < n
  | Host _ => False
  end.

(** The placement invariant: every keyframe definition is a child of
    [<head>], none has the identity of a root the script may detach, and
    the identities in use are below the allocation counter. *)
Record KInv (st : state) : Prop := mkKInv {
  k_placed : kf_placed (doc st);
  k_roots : forall s, In s (skeleton (doc st)) ->
                      In (e_ref s) (roots st) -> is_kf s = false;
  k_fresh : forall s, In s (skeleton (doc st)) ->
                      ref_below (next_ref st) (e_ref s);
  k_roots_fresh : forall r, In r (roots st) -> owned_below (next_ref st) r
}.

(** One step that keeps the invariant and the definitions in place. *)
Definition KStep (st st' : state) : Prop :=
  KInv st' /\ top_kf (doc_head (doc st)) <= top_kf (doc_head (doc st')).

(** The actions other than a removal by the host. *)
Definition keeps (a : action) : bool :=
  match a with
  | Ext (EvHost m) => host_keeps m
  | _ => true
  end.

(** The element is a floating container of the return button. *)
Definition is_cont : elem -> bool := has_id BUTTON_CONTAINER_ID.

(** A state the page can be in: the script was evaluated on a page of
    host content and any calls, timers, user events and host mutations
    followed. *)
Definition reachable (st : state) : Prop :=
  exists d store pathname loading l,
    host_document d = true
    /\ st = perform l (script pathname loading (fresh_page d store)).

(** The event path of the [j]-th node of an overlay, computed on the
    overlay numbered from 0, and the listeners an event of type [ty]
    targeted there reaches. *)
Definition overlay_path (j : nat) : list elem :=
  match path_to (Own j) (landing_tree 0) with
  | Some p => p
  | None => []
  end.

Definition overlay_listeners (ty : evtype) (j : nat) : list handler :=
  flat_map (listeners_for ty)
    (if bubbles ty then overlay_path j else firstn 1 (overlay_path j)).

(** A page load: the script is evaluated on a page of host content with
    the stored session; when the document is still loading, [init] runs
    at [DOMContentLoaded]. *)
Definition page_load (pathname : string) (loading : bool) (d : document)
  (store : gmap string string) : state :=
  let s := script pathname loading (fresh_page d store) in
  if loading then step EvDomReady s else s.

(** The text of the animation rule the script registers. *)
Definition fadeIn_rule : string :=
  "@keyframes fadeIn { from { opacity:0; transform:translateY(8px) scale(.985);} to { opacity:1; transform:translateY(0) scale(1);} }".

(** The node is a [<style>] element that holds the rule. *)
Definition holds_rule (n : node) : Prop :=
  match n with
  | Elem e kids => e_tag e = "style" /\ In (Text fadeIn_rule) kids
  | Text _ => False
  end.

(** A node that carries the keyframe id holds the rule. *)
Definition ruled (n : node) : Prop := is_kf_node n = true -> holds_rule n.

(** Every keyframe definition among the children of [<head>] holds the
    rule. *)
Definition kf_ruled (d : document) : Prop := Forall ruled (doc_head d).

(** The text children of [l] are still in [l']. *)
Definition keeps_texts (l l' : list node) : Prop :=
  forall s, In (Text s) l -> In (Text s) l'.

(** What [ensureKeyframe] creates: a child of [<head>] is a [<style>]
    element whose only attribute is the keyframe id and whose content is
    the rule and nothing else. *)
Definition fadeIn_created (d : document) : Prop :=
  exists e,
    In (Elem e [ Text fadeIn_rule ]) (doc_head d)
    /\ e_tag e = "style"
    /\ e_attrs e = [ ("id", KEYFRAME_ID) ].

(** The animation [fadeIn] is defined: a child of [<head>] is a [<style>]
    element with the keyframe id that holds the rule. *)
Definition fadeIn_registered (d : document) : Prop :=
  exists e kids,
    In (Elem e kids) (doc_head d)
    /\ has_id KEYFRAME_ID e = true
    /\ e_tag e = "style"
    /\ In (Text fadeIn_rule) kids.




(** * Properties *)

(** ** Induction on trees *)

Section NodeInduction.
Variable P : node -> Prop.
Hypothesis HText : forall s, P (Text s).
Hypothesis HElem : forall e kids, Forall P kids -> P (Elem e kids).

Fixpoint node_induction (n : node) : P n :=
  match n with
  | Text s => HText s
  | Elem e kids =>
      HElem e kids
        ((fix go (l : list node) : Forall P l :=
            match l with
            | [] => List.Forall_nil P
            | x :: t => List.Forall_cons P x t (node_induction x) (go t)
            end) kids)
  end.
End NodeInduction.

(** ** Elements up to inline style *)

Lemma has_id_blind i : style_blind (has_id i).
Proof. intros e. reflexivity. Qed.

Lemma has_class_blind c : style_blind (has_class c).
Proof. intros e. reflexivity. Qed.



Lemma count_strip p l :
  style_blind p -> count p (List.map strip l) = count p l.
Proof.
  intros Hp. unfold count. induction l as [|e l IH]; simpl; [reflexivity|].
  rewrite Hp. destruct (p e); simpl; congruence.
Qed.

Lemma count_app p l1 l2 : count p (l1 ++ l2) = count p l1 + count p l2.
Proof. unfold count. rewrite List.filter_app, length_app. reflexivity. Qed.

Lemma count_id_skeleton i d :
  count_id i d = count (has_id i) (skeleton d).
Proof. unfold count_id, skeleton. symmetry. apply count_strip, has_id_blind. Qed.

Lemma count_submseteq p (l1 l2 : list elem) :
  l1 ⊆+ l2 -> count p l1 <= count p l2.
Proof.
  unfold count. induction 1 as [| x l1 l2 _ IH | x y l | x l1 l2 _ IH | l1 l2 l3 _ IH1 _ IH2];
    simpl; try lia.
  - destruct (p x); simpl; lia.
  - destruct (p x), (p y); simpl; lia.
  - destruct (p x); simpl; lia.
Qed.

Lemma count_perm p (l1 l2 : list elem) :
  l1 ≡ₚ l2 -> count p l1 = count p l2.
Proof.
  intros H. apply Nat.le_antisymm; apply count_submseteq, Permutation_submseteq;
    [exact H|symmetry; exact H].
Qed.

Lemma In_submseteq (l1 l2 : list elem) e :
  l1 ⊆+ l2 -> In e l1 -> In e l2.
Proof.
  intros H Hin. apply list_elem_of_In. apply list_elem_of_In in Hin.
  eapply elem_of_submseteq; eauto.
Qed.

Lemma count_zero_iff p (l : list elem) :
  count p l = 0 <-> forall e, In e l -> p e = false.
Proof.
  unfold count. induction l as [|x l IH]; simpl.
  - split; [intros _ e []|reflexivity].
  - destruct (p x) eqn:Hx; simpl.
    + split; [lia|]. intros H. specialize (H x (or_introl eq_refl)). congruence.
    + rewrite IH. split.
      * intros H e [<-|Hin]; auto.
      * intros H e Hin. apply H. right. exact Hin.
Qed.

Lemma find_none_count p (l : list elem) :
  List.find p l = None <-> count p l = 0.
Proof.
  rewrite count_zero_iff. split.
  - intros H e Hin. eapply find_none in H; eauto.
  - intros H. destruct (List.find p l) eqn:Hf; [|reflexivity].
    apply find_some in Hf as [Hin Hp]. rewrite (H _ Hin) in Hp. discriminate.
Qed.


(** *** Style updates keep the skeleton *)

Section MapNode.
Variable f : elem -> list node -> elem.
Hypothesis f_strip : forall e kids, strip (f e kids) = strip e.

Lemma map_node_skeleton n :
  List.map strip (elems (map_node f n)) = List.map strip (elems n).
Proof.
  induction n as [s|e kids IH] using node_induction; simpl; [reflexivity|].
  rewrite f_strip. f_equal.
  induction IH as [|x t Hx _ IHt]; simpl; [reflexivity|].
  rewrite !List.map_app, Hx, IHt. reflexivity.
Qed.

Lemma map_forest_skeleton l :
  List.map strip (forest_elems (List.map (map_node f) l))
  = List.map strip (forest_elems l).
Proof.
  unfold forest_elems. induction l as [|x t IH]; simpl; [reflexivity|].
  rewrite !List.map_app, map_node_skeleton, IH. reflexivity.
Qed.

Lemma map_doc_skeleton d : skeleton (map_doc f d) = skeleton d.
Proof.
  unfold skeleton, doc_elems, map_doc. simpl.
  rewrite !List.map_app, !map_forest_skeleton. reflexivity.
Qed.

Lemma map_node_text n : textContent (map_node f n) = textContent n.
Proof.
  induction n as [s|e kids IH] using node_induction; simpl; [reflexivity|].
  induction IH as [|x t Hx _ IHt]; simpl; [reflexivity|].
  rewrite Hx, IHt. reflexivity.
Qed.

Lemma map_kids_text kids :
  kids_text (List.map (map_node f) kids) = kids_text kids.
Proof.
  unfold kids_text. induction kids as [|x t IH]; simpl; [reflexivity|].
  rewrite map_node_text, IH. reflexivity.
Qed.
End MapNode.

Lemma update_ref_skeleton r g d :
  (forall e, strip (g e) = strip e) -> skeleton (update_ref r g d) = skeleton d.
Proof.
  intros Hg. apply map_doc_skeleton. intros e _.
  destruct (ref_eqb (e_ref e) r); auto.
Qed.

Lemma hide_if_native_strip e kids : strip (hide_if_native e kids) = strip e.
Proof.
  unfold hide_if_native.
  destruct (candidate e), (looks_like_readme e kids), (looks_like_theme e);
    reflexivity.
Qed.

(** *** Removals shrink the element list *)

Lemma prune_sublist p n :
  flat_map elems (prune p n) `sublist_of` elems n.
Proof.
  induction n as [s|e kids IH] using node_induction; simpl; [constructor|].
  destruct (p e); simpl.
  - apply sublist_nil_l.
  - rewrite app_nil_r. apply sublist_skip.
    induction IH as [|x t Hx _ IHt]; simpl; [constructor|].
    rewrite flat_map_app. apply sublist_app; assumption.
Qed.

Lemma prune_forest_sublist p l :
  forest_elems (prune_forest p l) `sublist_of` forest_elems l.
Proof.
  unfold forest_elems, prune_forest.
  induction l as [|x t IH]; simpl; [constructor|].
  rewrite flat_map_app. apply sublist_app; [apply prune_sublist|exact IH].
Qed.

Lemma prune_clears p n :
  Forall (fun e => p e = false) (flat_map elems (prune p n)).
Proof.
  induction n as [s|e kids IH] using node_induction; simpl; [constructor|].
  destruct (p e) eqn:He; simpl; [constructor|].
  rewrite app_nil_r. constructor; [exact He|].
  induction IH as [|x t Hx _ IHt]; simpl; [constructor|].
  rewrite flat_map_app. apply Forall_app. split; assumption.
Qed.

Lemma prune_forest_clears p l :
  Forall (fun e => p e = false) (forest_elems (prune_forest p l)).
Proof.
  unfold forest_elems, prune_forest.
  induction l as [|x t IH]; simpl; [constructor|].
  rewrite flat_map_app. apply Forall_app. split; [apply prune_clears|exact IH].
Qed.

Lemma remove_ref_sublist r d :
  doc_elems (remove_ref r d) `sublist_of` doc_elems d.
Proof.
  unfold doc_elems, remove_ref. simpl.
  apply sublist_app; apply prune_forest_sublist.
Qed.

Lemma remove_ref_clears r d :
  Forall (fun e => ref_eqb (e_ref e) r = false) (doc_elems (remove_ref r d)).
Proof.
  unfold doc_elems, remove_ref. simpl.
  apply Forall_app. split; apply prune_forest_clears.
Qed.

(** *** Removing the return button *)

Lemma remove_button_node_unfold e kids :
  remove_button_node (Elem e kids) =
  match remove_button_forest kids with
  | NoButton => None
  | ChildGone rest =>
      if has_id BUTTON_CONTAINER_ID e then Some [] else Some [Elem e rest]
  | Deeper l => Some [Elem e l]
  end.
Proof. reflexivity. Qed.

Lemma removal_result_cons x l r :
  forest_elems (removal_result (x :: l) (removal_cons x r))
  = elems x ++ forest_elems (removal_result l r).
Proof. destruct r; reflexivity. Qed.

Lemma remove_button_forest_sublist_aux l :
  Forall (fun n => forall repl, remove_button_node n = Some repl ->
                   forest_elems repl `sublist_of` elems n) l ->
  forest_elems (removal_result l (remove_button_forest l))
    `sublist_of` forest_elems l.
Proof.
  induction 1 as [|x t Hx _ IH]; simpl; [constructor|].
  destruct (is_button x).
  - simpl. apply sublist_inserts_l. reflexivity.
  - destruct (remove_button_node x) as [repl|] eqn:Hr.
    + simpl. unfold forest_elems. rewrite flat_map_app.
      apply sublist_app; [apply Hx; reflexivity|reflexivity].
    + rewrite removal_result_cons. apply sublist_app; [reflexivity|exact IH].
Qed.

Lemma remove_button_node_sublist n repl :
  remove_button_node n = Some repl -> forest_elems repl `sublist_of` elems n.
Proof.
  revert repl. induction n as [s|e kids IH] using node_induction; intros repl.
  - discriminate.
  - rewrite remove_button_node_unfold.
    pose proof (remove_button_forest_sublist_aux kids IH) as Hk.
    destruct (remove_button_forest kids) as [|rest|l'] eqn:Hf; simpl in Hk.
    + discriminate.
    + destruct (has_id BUTTON_CONTAINER_ID e); intros [= <-]; simpl.
      * apply sublist_nil_l.
      * rewrite app_nil_r. apply sublist_skip. exact Hk.
    + intros [= <-]. simpl. rewrite app_nil_r. apply sublist_skip. exact Hk.
Qed.

Lemma remove_button_forest_sublist l :
  forest_elems (removal_result l (remove_button_forest l))
    `sublist_of` forest_elems l.
Proof.
  apply remove_button_forest_sublist_aux, Forall_forall.
  intros n _ repl. apply remove_button_node_sublist.
Qed.

Lemma remove_button_doc_sublist d :
  doc_elems (remove_button_doc d) `sublist_of` doc_elems d.
Proof.
  unfold remove_button_doc, doc_elems.
  pose proof (remove_button_forest_sublist (doc_head d)) as Hh.
  pose proof (remove_button_forest_sublist (doc_body d)) as Hb.
  destruct (remove_button_forest (doc_head d)); simpl in *.
  - apply sublist_app; [reflexivity|exact Hb].
  - apply sublist_app; [exact Hh|reflexivity].
  - apply sublist_app; [exact Hh|reflexivity].
Qed.

(** *** Appending a child adds exactly its elements *)

Lemma append_node_unfold p c e kids :
  append_node p c (Elem e kids) =
  if p e then Some (Elem e (kids ++ [c]))
  else option_map (Elem e) (append_forest p c kids).
Proof. reflexivity. Qed.

Lemma append_forest_perm_aux p c l l' :
  Forall (fun n => forall n', append_node p c n = Some n' ->
                   elems n' ≡ₚ elems n ++ elems c) l ->
  append_forest p c l = Some l' ->
  forest_elems l' ≡ₚ forest_elems l ++ elems c.
Proof.
  intros H. revert l'. induction H as [|x t Hx _ IH]; intros l'; simpl.
  - discriminate.
  - destruct (append_node p c x) as [x'|] eqn:Hx'.
    + intros [= <-]. simpl. rewrite (Hx _ eq_refl).
      rewrite <- !app_assoc. apply Permutation_app_head, Permutation_app_comm.
    + destruct (append_forest p c t) as [t'|]; simpl; [|discriminate].
      intros [= <-]. simpl. rewrite (IH _ eq_refl), app_assoc. reflexivity.
Qed.

Lemma append_node_perm p c n n' :
  append_node p c n = Some n' -> elems n' ≡ₚ elems n ++ elems c.
Proof.
  revert n'. induction n as [s|e kids IH] using node_induction; intros n'.
  - discriminate.
  - rewrite append_node_unfold. destruct (p e).
    + intros [= <-]. simpl. unfold forest_elems.
      rewrite flat_map_app. simpl. rewrite app_nil_r. reflexivity.
    + destruct (append_forest p c kids) as [k'|] eqn:Hk; simpl; [|discriminate].
      intros [= <-]. simpl. apply Permutation_skip.
      eapply append_forest_perm_aux; eauto.
Qed.

Lemma append_forest_perm p c l l' :
  append_forest p c l = Some l' ->
  forest_elems l' ≡ₚ forest_elems l ++ elems c.
Proof.
  apply append_forest_perm_aux, Forall_forall.
  intros n _ n'. apply append_node_perm.
Qed.

Lemma append_forest_none p c l :
  append_forest p c l = None <-> count p (forest_elems l) = 0.
Proof.
  assert (Hn : forall n, append_node p c n = None <-> count p (elems n) = 0).
  { induction n as [s|e kids IH] using node_induction.
    - simpl. split; reflexivity.
    - rewrite append_node_unfold. unfold count. simpl.
      destruct (p e); simpl; [split; [discriminate|lia]|].
      fold (count p (flat_map elems kids)).
      assert (Hk : append_forest p c kids = None
                   <-> count p (flat_map elems kids) = 0).
      { induction IH as [|x t Hx _ IHt]; simpl; [split; reflexivity|].
        rewrite count_app.
        destruct (append_node p c x) eqn:Hax.
        - split; [discriminate|]. intros Hc.
          assert (Hz : count p (elems x) = 0) by lia.
          apply Hx in Hz. discriminate.
        - destruct (append_forest p c t); simpl.
          + split; [discriminate|]. intros Hc.
            assert (Hz : count p (flat_map elems t) = 0) by lia.
            apply IHt in Hz. discriminate.
          + split; [|reflexivity]. intros _.
            assert (Hz1 : count p (elems x) = 0) by (apply Hx; reflexivity).
            assert (Hz2 : count p (flat_map elems t) = 0) by (apply IHt; reflexivity).
            lia. }
      destruct (append_forest p c kids); simpl.
      + split; [discriminate|]. intros Hc. apply Hk in Hc. discriminate.
      + split; [|reflexivity]. intros _. apply Hk. reflexivity. }
  unfold forest_elems. induction l as [|x t IH]; simpl; [split; reflexivity|].
  rewrite count_app. destruct (append_node p c x) eqn:Hax.
  - split; [discriminate|]. intros Hc.
    assert (Hz : count p (elems x) = 0) by lia. apply Hn in Hz. congruence.
  - destruct (append_forest p c t); simpl.
    + split; [discriminate|]. intros Hc.
      assert (Hz : count p (flat_map elems t) = 0) by lia.
      apply IH in Hz. discriminate.
    + split; [|reflexivity]. intros _.
      assert (Hz1 : count p (elems x) = 0) by (apply Hn; exact Hax).
      assert (Hz2 : count p (flat_map elems t) = 0) by (apply IH; reflexivity).
      lia.
Qed.

Lemma append_first_elems p c d :
  doc_elems (append_first p c d) ⊆+ doc_elems d ++ elems c.
Proof.
  unfold append_first, doc_elems.
  destruct (append_forest p c (doc_head d)) as [h|] eqn:Hh; simpl.
  - apply Permutation_submseteq. rewrite (append_forest_perm _ _ _ _ Hh).
    rewrite <- !app_assoc. apply Permutation_app_head, Permutation_app_comm.
  - destruct (append_forest p c (doc_body d)) as [b|] eqn:Hb; simpl.
    + apply Permutation_submseteq. rewrite (append_forest_perm _ _ _ _ Hb).
      rewrite app_assoc. reflexivity.
    + apply submseteq_inserts_r. reflexivity.
Qed.

Lemma append_first_found p c d :
  count p (doc_elems d) <> 0 ->
  doc_elems (append_first p c d) ≡ₚ doc_elems d ++ elems c.
Proof.
  unfold append_first, doc_elems. rewrite count_app. intros Hc.
  destruct (append_forest p c (doc_head d)) as [h|] eqn:Hh; simpl.
  - rewrite (append_forest_perm _ _ _ _ Hh).
    rewrite <- !app_assoc. apply Permutation_app_head, Permutation_app_comm.
  - destruct (append_forest p c (doc_body d)) as [b|] eqn:Hb; simpl.
    + rewrite (append_forest_perm _ _ _ _ Hb), app_assoc. reflexivity.
    + apply append_forest_none in Hh. apply append_forest_none in Hb. lia.
Qed.

Lemma append_to_head_elems c d :
  doc_elems (append_to_head c d) ≡ₚ doc_elems d ++ elems c.
Proof.
  unfold append_to_head, doc_elems, forest_elems. simpl.
  rewrite flat_map_app. simpl. rewrite app_nil_r, <- !app_assoc.
  apply Permutation_app_head, Permutation_app_comm.
Qed.

Lemma append_to_body_elems c d :
  doc_elems (append_to_body c d) = doc_elems d ++ elems c.
Proof.
  unfold append_to_body, doc_elems, forest_elems. simpl.
  rewrite flat_map_app. simpl. rewrite app_nil_r, app_assoc. reflexivity.
Qed.

(** *** Host mutations *)

Lemma forest_elems_app l1 l2 :
  forest_elems (l1 ++ l2) = forest_elems l1 ++ forest_elems l2.
Proof. apply flat_map_app. Qed.

Lemma forest_elems_sublist l1 l2 :
  l1 `sublist_of` l2 -> forest_elems l1 `sublist_of` forest_elems l2.
Proof.
  induction 1; simpl; [constructor| |].
  - apply sublist_app; [reflexivity|assumption].
  - apply sublist_inserts_l. assumption.
Qed.

Lemma split_at (l : list node) i x :
  l !! i = Some x -> l = take i l ++ x :: drop (S i) l.
Proof. intros H. symmetry. apply take_drop_middle. exact H. Qed.

Lemma insert_split (l : list node) i x y :
  l !! i = Some x -> <[i := y]> l = take i l ++ y :: drop (S i) l.
Proof.
  intros H. apply insert_take_drop. eapply lookup_lt_Some. exact H.
Qed.

Lemma insert_at_elems path pos c l :
  forest_elems (insert_at path pos c l) ⊆+ forest_elems l ++ elems c.
Proof.
  revert l. induction path as [|i path IH]; intros l; simpl.
  - rewrite <- (take_drop pos l) at 3.
    rewrite !forest_elems_app. simpl.
    apply Permutation_submseteq.
    rewrite <- !app_assoc. apply Permutation_app_head, Permutation_app_comm.
  - destruct (l !! i) as [[e kids|s]|] eqn:Hi;
      try (apply submseteq_inserts_r; reflexivity).
    rewrite (insert_split _ _ _ _ Hi).
    rewrite (split_at _ _ _ Hi) at 3.
    rewrite !forest_elems_app. simpl. rewrite <- !app_assoc. simpl.
    apply submseteq_skips_l. apply submseteq_skip.
    transitivity ((flat_map elems kids ++ elems c)
                    ++ forest_elems (drop (S i) l)).
    + apply submseteq_skips_r. apply IH.
    + apply Permutation_submseteq. rewrite <- !app_assoc.
      apply Permutation_app_head, Permutation_app_comm.
Qed.

Lemma remove_at_sublist path pos l :
  forest_elems (remove_at path pos l) `sublist_of` forest_elems l.
Proof.
  revert l. induction path as [|i path IH]; intros l; simpl.
  - apply forest_elems_sublist, sublist_delete.
  - destruct (l !! i) as [[e kids|s]|] eqn:Hi; try reflexivity.
    rewrite (insert_split _ _ _ _ Hi).
    rewrite (split_at _ _ _ Hi) at 3.
    rewrite !forest_elems_app. simpl.
    apply sublist_app; [reflexivity|]. apply sublist_skip.
    apply sublist_app; [apply IH|reflexivity].
Qed.

Lemma host_added_owned m : Forall (fun e => host_elem e = true) (host_added m).
Proof.
  destruct m as [w path pos n|w path pos]; simpl; [|constructor].
  destruct (host_owned n) eqn:Hn; [|constructor].
  apply Forall_forall. intros e He. unfold host_owned in Hn.
  rewrite forallb_forall in Hn. apply Hn. apply list_elem_of_In. exact He.
Qed.

Lemma host_apply_elems m d :
  doc_elems (host_apply m d) ⊆+ doc_elems d ++ host_added m.
Proof.
  destruct m as [w path pos n|w path pos]; simpl.
  - destruct (host_owned n); [|rewrite app_nil_r; reflexivity].
    destruct w; unfold doc_elems; simpl.
    + transitivity ((forest_elems (doc_head d) ++ elems n)
                      ++ forest_elems (doc_body d)).
      * apply submseteq_skips_r, insert_at_elems.
      * apply Permutation_submseteq. rewrite <- !app_assoc.
        apply Permutation_app_head, Permutation_app_comm.
    + rewrite <- app_assoc. apply submseteq_skips_l, insert_at_elems.
  - rewrite app_nil_r. apply sublist_submseteq.
    destruct w; unfold doc_elems; simpl.
    + apply sublist_app; [apply remove_at_sublist|reflexivity].
    + apply sublist_app; [reflexivity|apply remove_at_sublist].
Qed.

(** ** How a document evolves

    [evolves added d d']: up to inline style, the elements of [d'] are
    among those of [d] and the elements [added]. *)

Lemma evolves_refl d : evolves [] d d.
Proof. unfold evolves. simpl. rewrite app_nil_r. reflexivity. Qed.


Lemma evolves_skeleton d d' : skeleton d' = skeleton d -> evolves [] d d'.
Proof. unfold evolves. intros ->. simpl. rewrite app_nil_r. reflexivity. Qed.

Lemma evolves_elems added d d' :
  doc_elems d' ⊆+ doc_elems d ++ added -> evolves added d d'.
Proof.
  unfold evolves, skeleton. intros H. rewrite <- List.map_app.
  apply (fmap_submseteq strip) in H. exact H.
Qed.

Lemma evolves_sublist d d' :
  doc_elems d' `sublist_of` doc_elems d -> evolves [] d d'.
Proof.
  intros H. apply evolves_elems. rewrite app_nil_r.
  apply sublist_submseteq. exact H.
Qed.

Lemma evolves_count i added d d' :
  evolves added d d' ->
  count_id i d' <= count_id i d + count (has_id i) added.
Proof.
  unfold evolves. intros H. rewrite !count_id_skeleton.
  apply (count_submseteq (has_id i)) in H.
  rewrite count_app, (count_strip _ added) in H by apply has_id_blind.
  exact H.
Qed.

Lemma evolves_In added d d' s :
  evolves added d d' -> In s (skeleton d') ->
  In s (skeleton d) \/ In s (List.map strip added).
Proof.
  intros H Hin. apply in_app_or. eapply In_submseteq; eauto.
Qed.

Lemma grows_evolves added d d' : grows added d d' -> evolves added d d'.
Proof. unfold grows, evolves. intros ->. reflexivity. Qed.

Lemma grows_skeleton d d' : skeleton d' = skeleton d -> grows [] d d'.
Proof. unfold grows. intros ->. simpl. rewrite app_nil_r. reflexivity. Qed.

Lemma grows_elems added d d' :
  doc_elems d' ≡ₚ doc_elems d ++ added -> grows added d d'.
Proof.
  unfold grows, skeleton. intros H. rewrite <- List.map_app.
  apply (fmap_Permutation strip) in H. exact H.
Qed.

Lemma grows_trans a1 a2 d1 d2 d3 :
  grows a1 d1 d2 -> grows a2 d2 d3 -> grows (a1 ++ a2) d1 d3.
Proof.
  unfold grows. intros H1 H2. rewrite H2, H1, List.map_app, app_assoc.
  reflexivity.
Qed.

Lemma grows_count i added d d' :
  grows added d d' ->
  count_id i d' = count_id i d + count (has_id i) added.
Proof.
  unfold grows. intros H. rewrite !count_id_skeleton.
  rewrite (count_perm _ _ _ H).
  rewrite count_app, (count_strip _ added) by apply has_id_blind.
  reflexivity.
Qed.

(** ** What each function does to the document *)

Lemma getElementById_none i d : getElementById i d = None <-> count_id i d = 0.
Proof. apply find_none_count. Qed.

Lemma hideNative_skeleton st :
  skeleton (doc (hideNativeHeaderButtons st)) = skeleton (doc st).
Proof. apply map_doc_skeleton, hide_if_native_strip. Qed.

Lemma hideNative_count i st :
  count_id i (doc (hideNativeHeaderButtons st)) = count_id i (doc st).
Proof. rewrite !count_id_skeleton, hideNative_skeleton. reflexivity. Qed.

Lemma find_elem_skeleton p d d' :
  style_blind p -> skeleton d' = skeleton d ->
  find_elem p d' = None <-> find_elem p d = None.
Proof.
  intros Hp Hs. unfold find_elem.
  rewrite !find_none_count.
  rewrite <- (count_strip p (doc_elems d')), <- (count_strip p (doc_elems d))
    by exact Hp.
  unfold skeleton in Hs. rewrite Hs. reflexivity.
Qed.

Lemma ensureKeyframe_grows st :
  grows (keyframe_added st) (doc st) (doc (ensureKeyframe st)).
Proof.
  unfold ensureKeyframe, keyframe_added.
  destruct (getElementById KEYFRAME_ID (doc st)).
  - apply grows_skeleton. reflexivity.
  - apply grows_elems. simpl doc. apply append_to_head_elems.
Qed.

Lemma ensureKeyframe_frame st :
  landingRoot (ensureKeyframe st) = landingRoot st
  /\ pending (ensureKeyframe st) = pending st
  /\ sessionStorage (ensureKeyframe st) = sessionStorage st
  /\ observer (ensureKeyframe st) = observer st
  /\ activeElement (ensureKeyframe st) = activeElement st
  /\ next_ref st <= next_ref (ensureKeyframe st).
Proof.
  unfold ensureKeyframe.
  destruct (getElementById KEYFRAME_ID (doc st)); simpl; repeat split; lia.
Qed.


Lemma getElementById_hidden i st :
  getElementById i (doc (hideNativeHeaderButtons st)) = None
  <-> getElementById i (doc st) = None.
Proof. rewrite !getElementById_none, hideNative_count. reflexivity. Qed.

Lemma ensureReturnButton_grows st :
  grows (return_added st) (doc st) (doc (ensureReturnButton st)).
Proof.
  unfold ensureReturnButton, return_added.
  pose proof (getElementById_hidden BUTTON_ID st) as Hb.
  pose proof (getElementById_hidden BUTTON_CONTAINER_ID st) as Hc.
  pose proof (hideNative_skeleton st) as Hs.
  set (st1 := hideNativeHeaderButtons st) in *.
  assert (Hn : next_ref st1 = next_ref st) by reflexivity.
  destruct (getElementById BUTTON_ID (doc st1)) eqn:Hb1.
  - destruct (getElementById BUTTON_ID (doc st)).
    + apply grows_skeleton. exact Hs.
    + destruct Hb as [_ Hb]. discriminate (Hb eq_refl).
  - destruct (getElementById BUTTON_ID (doc st)).
    { destruct Hb as [Hb _]. discriminate (Hb eq_refl). }
    rewrite Hn. clear Hb.
    destruct (find_elem (has_class "cl-header") (doc st)) eqn:Hh.
    + simpl doc. rewrite <- (app_nil_l (elems _)).
      eapply grows_trans; [apply grows_skeleton; exact Hs|].
      apply grows_elems, append_first_found.
      intros Hz. apply find_none_count in Hz.
      apply (find_elem_skeleton _ _ _ (has_class_blind "cl-header") Hs) in Hz.
      congruence.
    + destruct (getElementById BUTTON_CONTAINER_ID (doc st1)) eqn:Hc1.
      * destruct (getElementById BUTTON_CONTAINER_ID (doc st)).
        2:{ destruct Hc as [_ Hc]. discriminate (Hc eq_refl). }
        simpl doc. rewrite <- (app_nil_l (elems _)).
        eapply grows_trans; [apply grows_skeleton; exact Hs|].
        apply grows_elems, append_first_found.
        intros Hz. apply find_none_count in Hz.
        unfold getElementById, find_elem in Hc1. congruence.
      * destruct (getElementById BUTTON_CONTAINER_ID (doc st)).
        { destruct Hc as [Hc _]. discriminate (Hc eq_refl). }
        simpl doc. rewrite <- (app_nil_l (elems _)).
        eapply grows_trans; [apply grows_skeleton; exact Hs|].
        apply grows_elems. rewrite append_to_body_elems. reflexivity.
Qed.

Lemma ensureReturnButton_frame st :
  landingRoot (ensureReturnButton st) = landingRoot st
  /\ pending (ensureReturnButton st) = pending st
  /\ sessionStorage (ensureReturnButton st) = sessionStorage st
  /\ observer (ensureReturnButton st) = observer st
  /\ activeElement (ensureReturnButton st) = activeElement st
  /\ next_ref st <= next_ref (ensureReturnButton st).
Proof.
  unfold ensureReturnButton.
  destruct (getElementById BUTTON_ID (doc (hideNativeHeaderButtons st)));
    [simpl; repeat split; lia|].
  destruct (find_elem (has_class "cl-header") (doc st));
    [simpl; repeat split; lia|].
  destruct (getElementById BUTTON_CONTAINER_ID (doc (hideNativeHeaderButtons st)));
    simpl; repeat split; lia.
Qed.

Lemma removeReturnButton_evolves st :
  evolves [] (doc st) (doc (removeReturnButton st)).
Proof. apply evolves_sublist, remove_button_doc_sublist. Qed.

(** ** The cardinality invariant

    At most one return button, one floating container, one keyframe
    definition and one overlay root are attached, and an attached overlay
    root is the node [landingRoot] refers to. *)

Lemma ref_eqb_eq a b : ref_eqb a b = true <-> a = b.
Proof.
  destruct a, b; simpl; rewrite ?Nat.eqb_eq;
    split; intros H; try discriminate; congruence.
Qed.

Lemma ref_eqb_refl a : ref_eqb a a = true.
Proof. apply ref_eqb_eq. reflexivity. Qed.

Lemma count_id_zero i d :
  count_id i d = 0 <-> forall s, In s (skeleton d) -> has_id i s = false.
Proof. rewrite count_id_skeleton. apply count_zero_iff. Qed.

Lemma Inv_evolves st st' added :
  Inv st ->
  evolves added (doc st) (doc st') ->
  landingRoot st' = landingRoot st ->
  count_id BUTTON_ID (doc st) + count (has_id BUTTON_ID) added <= 1 ->
  count_id BUTTON_CONTAINER_ID (doc st)
    + count (has_id BUTTON_CONTAINER_ID) added <= 1 ->
  count_id KEYFRAME_ID (doc st) + count (has_id KEYFRAME_ID) added <= 1 ->
  count (has_id LANDING_ID) added = 0 ->
  Inv st'.
Proof.
  intros [Hb Hc Hk Ho Hr] Hev Hl Hb' Hc' Hk' Ho'.
  split.
  - pose proof (evolves_count BUTTON_ID _ _ _ Hev). lia.
  - pose proof (evolves_count BUTTON_CONTAINER_ID _ _ _ Hev). lia.
  - pose proof (evolves_count KEYFRAME_ID _ _ _ Hev). lia.
  - pose proof (evolves_count LANDING_ID _ _ _ Hev). lia.
  - intros s Hs Hid. rewrite Hl.
    destruct (evolves_In _ _ _ _ Hev Hs) as [Hin|Hin]; [auto|].
    rewrite <- (count_strip _ added) in Ho' by apply has_id_blind.
    rewrite count_zero_iff in Ho'. rewrite (Ho' _ Hin) in Hid. discriminate.
Qed.

Lemma Inv_shrink st st' :
  Inv st -> evolves [] (doc st) (doc st') ->
  landingRoot st' = landingRoot st -> Inv st'.
Proof.
  intros HI Hev Hl. destruct HI as [Hb Hc Hk Ho Hr] eqn:E. clear E.
  apply (Inv_evolves st st' []); auto; unfold count; simpl; lia.
Qed.

Lemma Inv_same st st' :
  Inv st -> skeleton (doc st') = skeleton (doc st) ->
  landingRoot st' = landingRoot st -> Inv st'.
Proof. intros HI Hs. apply Inv_shrink; [exact HI|apply evolves_skeleton, Hs]. Qed.

Lemma blur_removed_same st : blur_removed (doc st) st = st.
Proof.
  unfold blur_removed. destruct st as [d s l o p [r|] n h rl]; simpl;
    [|reflexivity].
  destruct (in_document r d); reflexivity.
Qed.

Lemma Inv_blur d st : Inv st -> Inv (blur_removed d st).
Proof. intros HI. eapply Inv_same; [exact HI|reflexivity|reflexivity]. Qed.

Lemma Inv_hideNative st : Inv st -> Inv (hideNativeHeaderButtons st).
Proof.
  intros HI. eapply Inv_same; [exact HI|apply hideNative_skeleton|reflexivity].
Qed.

Lemma keyframe_added_counts st :
  count (has_id BUTTON_ID) (keyframe_added st) = 0
  /\ count (has_id BUTTON_CONTAINER_ID) (keyframe_added st) = 0
  /\ count (has_id LANDING_ID) (keyframe_added st) = 0
  /\ count_id KEYFRAME_ID (doc st) + count (has_id KEYFRAME_ID) (keyframe_added st)
     = Nat.max 1 (count_id KEYFRAME_ID (doc st)).
Proof.
  unfold keyframe_added.
  destruct (getElementById KEYFRAME_ID (doc st)) eqn:Hg.
  - repeat split; try reflexivity.
    assert (count_id KEYFRAME_ID (doc st) <> 0).
    { intros Hz. apply getElementById_none in Hz. congruence. }
    unfold count. simpl. lia.
  - apply getElementById_none in Hg. rewrite Hg. repeat split; reflexivity.
Qed.

Lemma Inv_ensureKeyframe st : Inv st -> Inv (ensureKeyframe st).
Proof.
  intros HI.
  destruct (keyframe_added_counts st) as (Hb & Hc & Hl & Hk).
  destruct (ensureKeyframe_frame st) as (Hr & _).
  pose proof (inv_button _ HI). pose proof (inv_container _ HI).
  pose proof (inv_keyframe _ HI).
  eapply Inv_evolves;
    [exact HI|apply grows_evolves, ensureKeyframe_grows|exact Hr|..];
    lia.
Qed.

Lemma return_added_counts st :
  count (has_id LANDING_ID) (return_added st) = 0
  /\ count (has_id KEYFRAME_ID) (return_added st) = 0
  /\ count_id BUTTON_ID (doc st) + count (has_id BUTTON_ID) (return_added st)
     = Nat.max 1 (count_id BUTTON_ID (doc st))
  /\ count_id BUTTON_CONTAINER_ID (doc st)
       + count (has_id BUTTON_CONTAINER_ID) (return_added st)
     <= Nat.max 1 (count_id BUTTON_CONTAINER_ID (doc st)).
Proof.
  unfold return_added.
  destruct (getElementById BUTTON_ID (doc st)) eqn:Hg.
  - assert (count_id BUTTON_ID (doc st) <> 0).
    { intros Hz. apply getElementById_none in Hz. congruence. }
    unfold count. simpl. repeat split; lia.
  - apply getElementById_none in Hg. rewrite Hg.
    destruct (find_elem (has_class "cl-header") (doc st)).
    + unfold count. simpl. repeat split; lia.
    + destruct (getElementById BUTTON_CONTAINER_ID (doc st)) eqn:Hc.
      * unfold count. simpl. repeat split; lia.
      * apply getElementById_none in Hc. rewrite Hc.
        unfold count. simpl. repeat split; lia.
Qed.

Lemma Inv_ensureReturnButton st : Inv st -> Inv (ensureReturnButton st).
Proof.
  intros HI.
  destruct (return_added_counts st) as (Hl & Hk & Hb & Hc).
  destruct (ensureReturnButton_frame st) as (Hr & _).
  pose proof (inv_button _ HI). pose proof (inv_container _ HI).
  pose proof (inv_keyframe _ HI).
  eapply Inv_evolves;
    [exact HI|apply grows_evolves, ensureReturnButton_grows|exact Hr|..];
    lia.
Qed.

Lemma Inv_removeReturnButton st : Inv st -> Inv (removeReturnButton st).
Proof.
  intros HI. eapply Inv_shrink;
    [exact HI|apply removeReturnButton_evolves|reflexivity].
Qed.

Lemma focus_doc r st :
  doc (focus r st) = doc st /\ landingRoot (focus r st) = landingRoot st
  /\ pending (focus r st) = pending st
  /\ sessionStorage (focus r st) = sessionStorage st
  /\ next_ref (focus r st) = next_ref st
  /\ observer (focus r st) = observer st.
Proof. unfold focus. destruct (in_document r (doc st)); repeat split. Qed.

Lemma Inv_focus r st : Inv st -> Inv (focus r st).
Proof.
  intros HI. destruct (focus_doc r st) as (Hd & Hl & _).
  eapply Inv_same; [exact HI|rewrite Hd; reflexivity|exact Hl].
Qed.

Lemma hideLanding_frame b st :
  skeleton (doc (hideLanding b st)) = skeleton (doc st)
  /\ landingRoot (hideLanding b st) = landingRoot st
  /\ next_ref (hideLanding b st) = next_ref st
  /\ observer (hideLanding b st) = observer st.
Proof.
  unfold hideLanding. destruct (landingRoot st) as [root|] eqn:Hr; [|auto].
  match goal with |- context [query_composer ?d] => destruct (query_composer d) end.
  - match goal with |- context [focus ?c ?s] =>
      destruct (focus_doc c s) as (-> & -> & _ & _ & -> & ->) end.
    destruct b; simpl; (split; [|auto]);
      apply update_ref_skeleton; reflexivity.
  - destruct b; simpl; (split; [|auto]);
      apply update_ref_skeleton; reflexivity.
Qed.

Lemma Inv_hideLanding b st : Inv st -> Inv (hideLanding b st).
Proof.
  intros HI. destruct (hideLanding_frame b st) as (Hs & Hl & _).
  eapply Inv_same; eauto.
Qed.

Lemma in_skeleton s d :
  In s (skeleton d) <-> exists e, s = strip e /\ In e (doc_elems d).
Proof.
  unfold skeleton. rewrite in_map_iff. split; intros (e & H1 & H2); eauto.
Qed.

Lemma overlay_count_no_root st :
  Inv st -> landingRoot st = None -> count_id LANDING_ID (doc st) = 0.
Proof.
  intros HI Hn. apply count_id_zero. intros s Hs.
  destruct (has_id LANDING_ID s) eqn:Hid; [|reflexivity].
  pose proof (inv_root _ HI s Hs Hid). congruence.
Qed.

Lemma overlay_count_after_remove st r :
  Inv st -> landingRoot st = Some r ->
  count_id LANDING_ID (remove_ref r (doc st)) = 0.
Proof.
  intros HI Hr. apply count_id_zero. intros s Hs.
  destruct (has_id LANDING_ID s) eqn:Hid; [|reflexivity].
  assert (Hin : In s (skeleton (doc st))).
  { destruct (evolves_In [] _ _ s
                (evolves_sublist _ _ (remove_ref_sublist r (doc st))) Hs)
      as [H|[]]. exact H. }
  pose proof (inv_root _ HI s Hin Hid) as Href.
  apply in_skeleton in Hs as (e & -> & He).
  pose proof (remove_ref_clears r (doc st)) as Hc.
  rewrite Forall_forall in Hc. apply list_elem_of_In in He.
  specialize (Hc e He). simpl in Href.
  assert (e_ref e = r) by congruence. subst r.
  rewrite ref_eqb_refl in Hc. discriminate.
Qed.

(** The [if (landingRoot) { landingRoot.remove(); landingRoot = null; }]
    of [showLanding]. *)
Lemma Inv_drop_overlay st :
  Inv st ->
  let st' := match landingRoot st with
             | Some r =>
                 with_landingRoot None
                   (blur_removed (doc st) (with_doc (remove_ref r (doc st)) st))
             | None => st
             end in
  Inv st' /\ count_id LANDING_ID (doc st') = 0 /\ landingRoot st' = None
  /\ evolves [] (doc st) (doc st').
Proof.
  intros HI. destruct (landingRoot st) as [r|] eqn:Hr; simpl.
  - assert (Hz := overlay_count_after_remove st r HI Hr).
    assert (Hev := evolves_sublist _ _ (remove_ref_sublist r (doc st))).
    repeat split; auto; simpl.
    + pose proof (evolves_count BUTTON_ID _ _ _ Hev).
      pose proof (inv_button _ HI). unfold count in *; simpl in *; lia.
    + pose proof (evolves_count BUTTON_CONTAINER_ID _ _ _ Hev).
      pose proof (inv_container _ HI). unfold count in *; simpl in *; lia.
    + pose proof (evolves_count KEYFRAME_ID _ _ _ Hev).
      pose proof (inv_keyframe _ HI). unfold count in *; simpl in *; lia.
    + lia.
    + intros s Hs Hid. rewrite count_id_zero in Hz.
      rewrite (Hz s Hs) in Hid. discriminate.
  - repeat split; try apply HI; auto.
    + apply overlay_count_no_root; assumption.
    + apply evolves_refl.
Qed.

Lemma landing_tree_counts k :
  count (has_id LANDING_ID) (elems (landing_tree k)) = 1
  /\ count (has_id BUTTON_ID) (elems (landing_tree k)) = 0
  /\ count (has_id BUTTON_CONTAINER_ID) (elems (landing_tree k)) = 0
  /\ count (has_id KEYFRAME_ID) (elems (landing_tree k)) = 0.
Proof. repeat split. Qed.

Lemma landing_tree_root k s :
  In s (List.map strip (elems (landing_tree k))) ->
  has_id LANDING_ID s = true -> e_ref s = Own k.
Proof.
  simpl. intros H Hid.
  repeat (destruct H as [<-|H]; [first [reflexivity|discriminate Hid]|]).
  destruct H.
Qed.

Lemma buildLanding_doc st :
  doc (fst (buildLanding st))
  = append_to_body (landing_tree (next_ref st)) (doc st)
  /\ landingRoot (fst (buildLanding st)) = Some (Own (next_ref st))
  /\ snd (buildLanding st) = Own (next_ref st).
Proof. repeat split. Qed.

Lemma Inv_buildLanding st :
  Inv st -> count_id LANDING_ID (doc st) = 0 ->
  Inv (fst (buildLanding st))
  /\ count_id LANDING_ID (doc (fst (buildLanding st))) = 1.
Proof.
  intros HI Hz.
  destruct (buildLanding_doc st) as (Hd & Hl & _).
  destruct (landing_tree_counts (next_ref st)) as (C1 & C2 & C3 & C4).
  assert (Hg : grows (elems (landing_tree (next_ref st))) (doc st)
                     (doc (fst (buildLanding st)))).
  { apply grows_elems. rewrite Hd, append_to_body_elems. reflexivity. }
  assert (Hone : count_id LANDING_ID (doc (fst (buildLanding st))) = 1).
  { rewrite (grows_count _ _ _ _ Hg). lia. }
  split; [|exact Hone]. split.
  - rewrite (grows_count _ _ _ _ Hg). pose proof (inv_button _ HI). lia.
  - rewrite (grows_count _ _ _ _ Hg). pose proof (inv_container _ HI). lia.
  - rewrite (grows_count _ _ _ _ Hg). pose proof (inv_keyframe _ HI). lia.
  - lia.
  - intros s Hs Hid. rewrite Hl. f_equal.
    destruct (evolves_In _ _ _ _ (grows_evolves _ _ _ Hg) Hs) as [Hin|Hin].
    + rewrite count_id_zero in Hz. rewrite (Hz s Hin) in Hid. discriminate.
    + symmetry. eapply landing_tree_root; eauto.
Qed.

Lemma Inv_pending l st : Inv st -> Inv (with_pending l st).
Proof. intros HI. eapply Inv_same; [exact HI|reflexivity|reflexivity]. Qed.

Lemma Inv_storage m st : Inv st -> Inv (with_storage m st).
Proof. intros HI. eapply Inv_same; [exact HI|reflexivity|reflexivity]. Qed.

Lemma showLanding_unfold b st :
  showLanding b st =
  let st1 := if b then with_storage (delete STORAGE_KEY (sessionStorage st)) st
             else st in
  let st2 := removeReturnButton st1 in
  let st3 := match landingRoot st2 with
             | Some r =>
                 with_landingRoot None
                   (blur_removed (doc st2) (with_doc (remove_ref r (doc st2)) st2))
             | None => st2
             end in
  let st4 := ensureKeyframe st3 in
  schedule (TReveal (snd (buildLanding st4))) (fst (buildLanding st4)).
Proof. reflexivity. Qed.

Lemma Inv_showLanding b st :
  Inv st ->
  Inv (showLanding b st) /\ count_id LANDING_ID (doc (showLanding b st)) = 1.
Proof.
  intros HI. rewrite showLanding_unfold. cbv zeta.
  set (st1 := if b then _ else st).
  assert (H1 : Inv st1) by (destruct b; [apply Inv_storage|]; exact HI).
  set (st2 := removeReturnButton st1).
  assert (H2 : Inv st2) by (apply Inv_removeReturnButton, H1).
  destruct (Inv_drop_overlay st2 H2) as (H3 & Hz & _ & _).
  set (st3 := match landingRoot st2 with Some _ => _ | None => _ end) in *.
  assert (H4 : Inv (ensureKeyframe st3)) by (apply Inv_ensureKeyframe, H3).
  assert (Hz4 : count_id LANDING_ID (doc (ensureKeyframe st3)) = 0).
  { rewrite (grows_count _ _ _ _ (ensureKeyframe_grows st3)).
    destruct (keyframe_added_counts st3) as (_ & _ & -> & _). lia. }
  destruct (Inv_buildLanding _ H4 Hz4) as [H5 Hone].
  split; [apply Inv_pending, H5|exact Hone].
Qed.

Lemma Inv_fire t st : Inv st -> Inv (fire t st).
Proof.
  intros HI. destruct t as [b|root|root]; simpl.
  - apply Inv_focus, HI.
  - apply Inv_ensureReturnButton.
    assert (Hev := evolves_sublist _ _ (remove_ref_sublist root (doc st))).
    destruct (landingRoot st) as [r|] eqn:Hr.
    + destruct (ref_eqb r root) eqn:E.
      * apply ref_eqb_eq in E. subst r.
        pose proof (Inv_drop_overlay st HI) as HD. rewrite Hr in HD.
        apply HD.
      * eapply Inv_shrink; [exact HI|exact Hev|reflexivity].
    + eapply Inv_shrink; [exact HI|exact Hev|reflexivity].
  - eapply Inv_same; [exact HI| |reflexivity].
    apply update_ref_skeleton. reflexivity.
Qed.

Lemma host_elem_no_id e :
  host_elem e = true ->
  has_id LANDING_ID e = false /\ has_id BUTTON_ID e = false
  /\ has_id BUTTON_CONTAINER_ID e = false /\ has_id KEYFRAME_ID e = false.
Proof.
  unfold host_elem, reserved_id. destruct (e_ref e); [|discriminate].
  destruct (has_id LANDING_ID e), (has_id BUTTON_ID e),
    (has_id BUTTON_CONTAINER_ID e), (has_id KEYFRAME_ID e);
    simpl; intros H; try discriminate; auto.
Qed.

Lemma host_added_count i m :
  In i [LANDING_ID; BUTTON_ID; BUTTON_CONTAINER_ID; KEYFRAME_ID] ->
  count (has_id i) (host_added m) = 0.
Proof.
  intros Hi. apply count_zero_iff. intros e He.
  pose proof (host_added_owned m) as Ho. rewrite Forall_forall in Ho.
  apply list_elem_of_In in He. specialize (Ho e He).
  destruct (host_elem_no_id e Ho) as (A & B & C & D).
  simpl in Hi. destruct Hi as [<-|[<-|[<-|[<-|[]]]]]; assumption.
Qed.

Lemma Inv_host m st : Inv st -> Inv (with_doc (host_apply m (doc st)) st).
Proof.
  intros HI.
  pose proof (inv_button _ HI). pose proof (inv_container _ HI).
  pose proof (inv_keyframe _ HI).
  eapply (Inv_evolves st _ (host_added m));
    [exact HI|apply evolves_elems, host_apply_elems|reflexivity|..];
    rewrite ?host_added_count by (simpl; auto); try lia.
Qed.

Lemma Inv_run_handler h key shiftKey st :
  Inv st -> Inv (run_handler h key shiftKey st).
Proof.
  intros HI. destruct h; simpl.
  - apply Inv_hideLanding, HI.
  - destruct (String.eqb key "Escape"), (String.eqb key "Enter" && negb shiftKey);
      repeat apply Inv_hideLanding; exact HI.
  - destruct (String.eqb key "Tab"); [|exact HI].
    destruct (trap_target _ _ _); [apply Inv_focus|]; exact HI.
  - eapply Inv_same; [exact HI|apply update_ref_skeleton; reflexivity|reflexivity].
  - eapply Inv_same; [exact HI|apply update_ref_skeleton; reflexivity|reflexivity].
  - apply Inv_showLanding, HI.
Qed.

Lemma Inv_dispatch ty target key shiftKey st :
  Inv st -> Inv (dispatch ty target key shiftKey st).
Proof.
  unfold dispatch. generalize (flat_map (listeners_for ty)
    (if bubbles ty then event_path target (doc st)
     else firstn 1 (event_path target (doc st)))).
  intros hs. revert st. induction hs as [|h hs IH]; intros st HI; simpl.
  - exact HI.
  - apply IH, Inv_run_handler, HI.
Qed.

Lemma Inv_setupObservers st : Inv st -> Inv (setupObservers st).
Proof.
  intros HI. unfold setupObservers. destruct (observer st); [exact HI|].
  apply Inv_hideNative, Inv_ensureReturnButton.
  eapply Inv_same; [exact HI|reflexivity|reflexivity].
Qed.

Lemma Inv_init st : Inv st -> Inv (init st).
Proof.
  intros HI. unfold init. apply Inv_setupObservers.
  assert (H1 : Inv (hideNativeHeaderButtons (ensureKeyframe st)))
    by (apply Inv_hideNative, Inv_ensureKeyframe, HI).
  destruct (flag_unset _).
  - apply Inv_showLanding, H1.
  - apply Inv_ensureReturnButton, H1.
Qed.

Lemma Inv_run_debug c st : Inv st -> Inv (run_debug c st).
Proof.
  intros HI. destruct c; simpl.
  - apply Inv_showLanding, HI.
  - apply Inv_hideLanding, HI.
  - apply Inv_showLanding, Inv_storage, HI.
  - apply Inv_hideNative, HI.
Qed.

Lemma Inv_step ev st : Inv st -> Inv (step ev st).
Proof.
  intros HI. destruct ev; simpl.
  - apply Inv_blur, Inv_host, HI.
  - destruct (ready_listener st); [|exact HI].
    apply Inv_init. eapply Inv_same; [exact HI|reflexivity|reflexivity].
  - destruct (pending st !! i); [|exact HI].
    apply Inv_fire, Inv_pending, HI.
  - destruct (observer st); [|exact HI].
    apply Inv_hideNative, Inv_ensureReturnButton, HI.
  - apply Inv_dispatch, HI.
  - apply Inv_focus, HI.
  - destruct (debug_hook st); [apply Inv_run_debug|]; exact HI.
Qed.

Lemma Inv_act a st : Inv st -> Inv (act a st).
Proof.
  intros HI. destruct a as [c|ev]; simpl; [|apply Inv_step, HI].
  destruct c; simpl.
  - apply Inv_ensureReturnButton, HI.
  - apply Inv_hideNative, HI.
  - apply Inv_showLanding, HI.
  - apply Inv_hideLanding, HI.
  - apply Inv_ensureKeyframe, HI.
  - apply Inv_removeReturnButton, HI.
  - apply Inv_setupObservers, HI.
  - apply Inv_init, HI.
Qed.

Lemma Inv_perform l st : Inv st -> Inv (perform l st).
Proof.
  revert st. induction l as [|a l IH]; intros st HI; simpl; [exact HI|].
  apply IH, Inv_act, HI.
Qed.

(** ** Pages *)

Lemma host_document_count i d :
  host_document d = true ->
  In i [LANDING_ID; BUTTON_ID; BUTTON_CONTAINER_ID; KEYFRAME_ID] ->
  count_id i d = 0.
Proof.
  intros Hd Hi. apply count_zero_iff. intros e He.
  unfold host_document in Hd. rewrite forallb_forall in Hd.
  specialize (Hd e He).
  destruct (host_elem_no_id e Hd) as (A & B & C & D).
  simpl in Hi. destruct Hi as [<-|[<-|[<-|[<-|[]]]]]; assumption.
Qed.

Lemma Inv_fresh_page d store :
  host_document d = true -> Inv (fresh_page d store).
Proof.
  intros Hd. split; simpl.
  - rewrite (host_document_count BUTTON_ID d Hd); simpl; auto.
  - rewrite (host_document_count BUTTON_CONTAINER_ID d Hd); simpl; auto.
  - rewrite (host_document_count KEYFRAME_ID d Hd); simpl; auto.
  - rewrite (host_document_count LANDING_ID d Hd); simpl; auto.
  - intros s Hs Hid.
    pose proof (host_document_count LANDING_ID d Hd (or_introl eq_refl)) as Hz.
    rewrite count_id_zero in Hz. rewrite (Hz s Hs) in Hid. discriminate.
Qed.

Lemma Inv_script pathname loading st :
  Inv st -> Inv (script pathname loading st).
Proof.
  intros HI. unfold script. destruct (Str.startsWith pathname "/share"); [exact HI|].
  destruct loading.
  - eapply Inv_same; [exact HI|reflexivity|reflexivity].
  - eapply Inv_same; [apply Inv_init, HI|reflexivity|reflexivity].
Qed.

Lemma ensureReturnButton_count st :
  count_id BUTTON_ID (doc (ensureReturnButton st))
  = Nat.max 1 (count_id BUTTON_ID (doc st)).
Proof.
  rewrite (grows_count _ _ _ _ (ensureReturnButton_grows st)).
  destruct (return_added_counts st) as (_ & _ & H & _). exact H.
Qed.

Lemma ensureReturnButton_existing st :
  count_id BUTTON_ID (doc st) <> 0 ->
  skeleton (doc (ensureReturnButton st)) = skeleton (doc st)
  /\ next_ref (ensureReturnButton st) = next_ref st.
Proof.
  intros Hc. unfold ensureReturnButton.
  destruct (getElementById BUTTON_ID (doc (hideNativeHeaderButtons st))) eqn:Hg.
  - split; [apply hideNative_skeleton|reflexivity].
  - apply getElementById_none in Hg. rewrite hideNative_count in Hg.
    contradiction.
Qed.

(** C1.  On a page that starts with host content, after the script has
    been evaluated and after any sequence of calls of its functions
    (reconciliation passes, present, dismiss), timers, user events and host
    mutations (insertions of host-made subtrees, removals of any subtree),
    the document holds at most one element with the return button's id.
    [ensureReturnButton] adds one exactly when the document holds none:
    the count after a pass is the maximum of 1 and the count before, and a
    pass that finds a button allocates nothing and leaves the tree as it
    is up to inline style. *)
Theorem return_control_at_most_one
  (d : document) (store : gmap string string) (pathname : string)
  (loading : bool) (l : list action) :
  host_document d = true ->
  let st := perform l (script pathname loading (fresh_page d store)) in
  count_id BUTTON_ID (doc st) <= 1
  /\ count_id BUTTON_ID (doc (ensureReturnButton st)) = 1
  /\ (forall s, count_id BUTTON_ID (doc (ensureReturnButton s))
                = Nat.max 1 (count_id BUTTON_ID (doc s)))
  /\ (forall s, count_id BUTTON_ID (doc s) <> 0 ->
                skeleton (doc (ensureReturnButton s)) = skeleton (doc s)
                /\ next_ref (ensureReturnButton s) = next_ref s).
Proof.
  intros Hd st.
  assert (HI : Inv st).
  { apply Inv_perform, Inv_script, Inv_fresh_page, Hd. }
  pose proof (inv_button _ HI) as Hb.
  repeat split.
  - exact Hb.
  - rewrite ensureReturnButton_count. lia.
  - apply ensureReturnButton_count.
  - apply ensureReturnButton_existing; assumption.
  - apply ensureReturnButton_existing; assumption.
Qed.

Lemma return_control_at_most_one_witness :
  host_document demo_page = true
  /\ count_id BUTTON_ID
       (doc (perform [ Ext EvMutations; Call CEnsureReturnButton;
                       Ext (EvHost (HRemove InBody [] 0)); Ext EvMutations ]
               (script "/" false (fresh_page demo_page ∅)))) <= 1.
Proof.
  split; [reflexivity|].
  apply (return_control_at_most_one demo_page ∅ "/" false
           [ Ext EvMutations; Call CEnsureReturnButton;
             Ext (EvHost (HRemove InBody [] 0)); Ext EvMutations ]).
  reflexivity.
Defined.



(** ** The /share guard *)

Lemma host_apply_host_document m d :
  host_document d = true -> host_document (host_apply m d) = true.
Proof.
  unfold host_document. rewrite !forallb_forall. intros Hd e He.
  pose proof (In_submseteq _ _ e (host_apply_elems m d) He) as Hin.
  apply in_app_or in Hin as [Hin|Hin]; [auto|].
  pose proof (host_added_owned m) as Ho. rewrite Forall_forall in Ho.
  apply Ho, list_elem_of_In, Hin.
Qed.

Lemma path_to_elems r n p :
  path_to r n = Some p -> forall e, In e p -> In e (elems n).
Proof.
  revert p. induction n as [s|e kids IH] using node_induction; intros p; simpl.
  - discriminate.
  - destruct (ref_eqb (e_ref e) r).
    + intros [= <-] x [<-|[]]. left. reflexivity.
    + match goal with |- context [option_map _ ?g] => destruct g as [q|] eqn:Hq end;
        simpl; [|discriminate].
      intros [= <-] x Hx. apply in_app_or in Hx as [Hx|[<-|[]]]; [|left; reflexivity].
      right. clear -IH Hq Hx. revert Hq.
      induction IH as [|y t Hy _ IHt]; simpl; [discriminate|].
      destruct (path_to r y) as [py|] eqn:Hpy.
      * intros [= ->]. apply in_or_app. left. eapply Hy; eauto.
      * intros Hq. apply in_or_app. right. apply IHt, Hq.
Qed.

Lemma path_in_forest_elems r l p :
  path_in_forest r l = Some p -> forall e, In e p -> In e (forest_elems l).
Proof.
  unfold forest_elems. induction l as [|x t IH]; simpl; [discriminate|].
  destruct (path_to r x) as [px|] eqn:Hx.
  - intros [= ->] e He. apply in_or_app. left. eapply path_to_elems; eauto.
  - intros Hp e He. apply in_or_app. right. eapply IH; eauto.
Qed.

Lemma event_path_elems r d e :
  In e (event_path r d) -> In e (doc_elems d).
Proof.
  unfold event_path, doc_elems.
  destruct (path_in_forest r (doc_head d)) as [p|] eqn:Hh.
  - intros He. apply in_or_app. left. eapply path_in_forest_elems; eauto.
  - destruct (path_in_forest r (doc_body d)) as [p|] eqn:Hb; [|intros []].
    intros He. apply in_or_app. right. eapply path_in_forest_elems; eauto.
Qed.

Lemma host_elem_listeners ty e : host_elem e = true -> listeners_for ty e = [].
Proof.
  unfold host_elem, listeners_for. destruct (e_ref e); [|discriminate].
  destruct (e_listeners e); [reflexivity|].
  rewrite andb_false_r. discriminate.
Qed.

Lemma dispatch_host_document ty target key shiftKey st :
  host_document (doc st) = true -> dispatch ty target key shiftKey st = st.
Proof.
  intros Hd. unfold dispatch.
  set (path := if bubbles ty then _ else _).
  assert (Hp : forall e, In e path -> In e (doc_elems (doc st))).
  { intros e He. apply (event_path_elems target). subst path.
    destruct (bubbles ty); [exact He|].
    destruct (event_path target (doc st)); simpl in *; [destruct He|].
    destruct He as [<-|[]]. left. reflexivity. }
  assert (Hl : flat_map (listeners_for ty) path = []).
  { unfold host_document in Hd. rewrite forallb_forall in Hd.
    clear -Hp Hd. induction path as [|e path IH]; simpl; [reflexivity|].
    rewrite host_elem_listeners by (apply Hd, Hp; left; reflexivity).
    apply IH. intros x Hx. apply Hp. right. exact Hx. }
  rewrite Hl. reflexivity.
Qed.

Lemma untouched_step ev st :
  untouched st ->
  untouched (step ev st)
  /\ doc (step ev st) = host_run [ev] (doc st)
  /\ sessionStorage (step ev st) = sessionStorage st.
Proof.
  intros (Ho & Hh & Hr & Hp & Hl & Hn & Hd). unfold untouched.
  destruct ev; simpl.
  - rewrite host_apply_host_document by exact Hd. tauto.
  - rewrite Hr. tauto.
  - rewrite Hp. simpl. tauto.
  - rewrite Ho. tauto.
  - rewrite dispatch_host_document by exact Hd. tauto.
  - destruct (focus_doc r st) as (E1 & E2 & E3 & E4 & E5 & E6).
    rewrite E1, E2, E3, E4, E5, E6.
    unfold focus. destruct (in_document r (doc st)); simpl; tauto.
  - rewrite Hh. tauto.
Qed.

Lemma untouched_run evs st :
  untouched st ->
  untouched (run evs st)
  /\ doc (run evs st) = host_run evs (doc st)
  /\ sessionStorage (run evs st) = sessionStorage st.
Proof.
  revert st. induction evs as [|ev evs IH]; intros st Hu; simpl; [tauto|].
  destruct (untouched_step ev st Hu) as (Hu1 & Hd1 & Hs1).
  destruct (IH _ Hu1) as (Hu2 & Hd2 & Hs2).
  split; [exact Hu2|]. split.
  - rewrite Hd2, Hd1. reflexivity.
  - rewrite Hs2, Hs1. reflexivity.
Qed.

(** C4.  When the path starts with "/share" evaluating the script changes
    nothing: no listener, observer, timer or debug hook is registered.
    Whatever then happens to a page of host content, the document is what
    the host's own mutations make of it: no overlay root and no return
    button is ever attached, no element is restyled, no observer is
    installed and the session storage is left as it was, whatever it
    holds. *)
Theorem share_route_inert
  (pathname : string) (loading : bool) (d : document)
  (store : gmap string string) (evs : list event) :
  Str.startsWith pathname "/share" = true ->
  host_document d = true ->
  (forall st, script pathname loading st = st)
  /\ let st := run evs (script pathname loading (fresh_page d store)) in
     doc st = host_run evs d
     /\ count_id LANDING_ID (doc st) = 0
     /\ count_id BUTTON_ID (doc st) = 0
     /\ observer st = false
     /\ pending st = []
     /\ landingRoot st = None
     /\ debug_hook st = false
     /\ sessionStorage st = store.
Proof.
  intros Hp Hd.
  assert (Hs : forall st, script pathname loading st = st).
  { intros st. unfold script. rewrite Hp. reflexivity. }
  split; [exact Hs|]. rewrite Hs.
  assert (Hu : untouched (fresh_page d store)).
  { unfold untouched. simpl. tauto. }
  destruct (untouched_run evs _ Hu) as ((Ho & Hh & Hr & Hpd & Hl & Hn & Hdoc) & Hdd & Hst).
  cbv zeta. simpl in Hdd, Hst.
  repeat split; auto.
  - apply host_document_count; [exact Hdoc|simpl; auto].
  - apply host_document_count; [exact Hdoc|simpl; auto].
Qed.

Lemma share_route_inert_witness :
  Str.startsWith "/share/abc123" "/share" = true
  /\ host_document demo_page = true
  /\ count_id LANDING_ID
       (doc (run [ EvDomReady; EvMutations; EvDebug DShow; EvTimer 0 ]
               (script "/share/abc123" false
                  (fresh_page demo_page {[ STORAGE_KEY := "1" ]})))) = 0.
Proof.
  split; [reflexivity|]. split; [reflexivity|].
  apply (share_route_inert "/share/abc123" false demo_page
           {[ STORAGE_KEY := "1" ]}
           [ EvDomReady; EvMutations; EvDebug DShow; EvTimer 0 ]);
    reflexivity.
Defined.

(** ** The dismissal flag *)


Lemma showLanding_storage b st :
  sessionStorage (showLanding b st)
  = if b then delete STORAGE_KEY (sessionStorage st) else sessionStorage st.
Proof.
  rewrite showLanding_unfold. cbv zeta.
  unfold schedule. simpl sessionStorage.
  match goal with |- sessionStorage (ensureKeyframe ?s) = _ =>
    destruct (ensureKeyframe_frame s) as (_ & _ & -> & _) end.
  match goal with |- context [match ?o with Some _ => _ | None => _ end] =>
    destruct o end; destruct b; reflexivity.
Qed.

Lemma hideLanding_storage b st :
  sessionStorage (hideLanding b st)
  = match landingRoot st with
    | Some _ => if b then <[STORAGE_KEY := "1"]> (sessionStorage st)
                else sessionStorage st
    | None => sessionStorage st
    end.
Proof.
  unfold hideLanding. destruct (landingRoot st); [|reflexivity].
  match goal with |- context [query_composer ?d] => destruct (query_composer d) end.
  - match goal with |- context [focus ?c ?s] =>
      destruct (focus_doc c s) as (_ & _ & _ & -> & _) end.
    destruct b; reflexivity.
  - destruct b; reflexivity.
Qed.

Lemma ensureReturnButton_storage st :
  sessionStorage (ensureReturnButton st) = sessionStorage st.
Proof. apply ensureReturnButton_frame. Qed.

Lemma ensureKeyframe_storage st :
  sessionStorage (ensureKeyframe st) = sessionStorage st.
Proof. apply ensureKeyframe_frame. Qed.

Lemma setupObservers_storage st :
  sessionStorage (setupObservers st) = sessionStorage st.
Proof.
  unfold setupObservers. destruct (observer st); [reflexivity|].
  simpl. rewrite ensureReturnButton_storage. reflexivity.
Qed.

Lemma init_storage st : sessionStorage (init st) = sessionStorage st.
Proof.
  unfold init. rewrite setupObservers_storage.
  destruct (flag_unset _).
  - rewrite showLanding_storage. simpl. apply ensureKeyframe_storage.
  - rewrite ensureReturnButton_storage. simpl. apply ensureKeyframe_storage.
Qed.

Lemma fire_storage t st : sessionStorage (fire t st) = sessionStorage st.
Proof.
  destruct t; simpl.
  - apply focus_doc.
  - rewrite ensureReturnButton_storage.
    destruct (landingRoot st) as [r|]; simpl; [|reflexivity].
    destruct (ref_eqb r root); reflexivity.
  - reflexivity.
Qed.

(** C5.  [hideLanding true] on a live overlay stores "1" under the
    dismissal key; [hideLanding false] leaves the storage as it is;
    [showLanding true] removes the key whatever it held.  No other
    function of the script, no timer callback, no listener other than
    those that make these two calls and no event other than a user event
    or the debug entries [show] and [reset] changes the storage; the debug
    entry [reset] is [showLanding true]. *)
Theorem dismissal_flag_semantics (st : state) :
  (landingRoot st <> None ->
   sessionStorage (hideLanding true st) !! STORAGE_KEY = Some "1")
  /\ sessionStorage (hideLanding false st) = sessionStorage st
  /\ sessionStorage (showLanding true st) !! STORAGE_KEY = None
  /\ (forall c, writes_flag c = false ->
                sessionStorage (run_call c st) = sessionStorage st)
  /\ (forall t, sessionStorage (fire t st) = sessionStorage st)
  /\ sessionStorage (on_mutations st) = sessionStorage st
  /\ run_debug DReset st = showLanding true st
  /\ (forall h key shiftKey, handler_writes h = false ->
        sessionStorage (run_handler h key shiftKey st) = sessionStorage st)
  /\ (forall ev, event_writes ev = false ->
        sessionStorage (step ev st) = sessionStorage st).
Proof.
  split; [|split; [|split; [|split; [|split; [|split; [|split; [|split]]]]]]];
    [| | | | | |reflexivity| |].
  - intros Hl. rewrite hideLanding_storage.
    destruct (landingRoot st); [|congruence]. apply lookup_insert_eq.
  - rewrite hideLanding_storage. destruct (landingRoot st); reflexivity.
  - rewrite showLanding_storage. apply lookup_delete_eq.
  - intros c Hc.
    destruct c as [| |[]|[]| | | |]; simpl in Hc; try discriminate Hc;
      unfold run_call.
    + apply ensureReturnButton_storage.
    + reflexivity.
    + apply showLanding_storage.
    + rewrite hideLanding_storage. destruct (landingRoot st); reflexivity.
    + apply ensureKeyframe_storage.
    + reflexivity.
    + apply setupObservers_storage.
    + apply init_storage.
  - intros t. apply fire_storage.
  - unfold on_mutations. simpl. apply ensureReturnButton_storage.
  - intros h key shiftKey Hh. destruct h; try discriminate Hh; simpl.
    + destruct (String.eqb key "Tab"); [|reflexivity].
      destruct (trap_target _ _ _); [apply focus_doc|reflexivity].
    + reflexivity.
    + reflexivity.
  - intros ev Hev. destruct ev as [m| |i| | |r|[]]; try discriminate Hev; simpl.
    + reflexivity.
    + destruct (ready_listener st); [|reflexivity].
      rewrite init_storage. reflexivity.
    + destruct (pending st !! i); [|reflexivity].
      rewrite fire_storage. reflexivity.
    + destruct (observer st); [|reflexivity]. simpl.
      apply ensureReturnButton_storage.
    + apply focus_doc.
    + destruct (debug_hook st); [|reflexivity]. simpl.
      rewrite hideLanding_storage. destruct (landingRoot st); reflexivity.
    + destruct (debug_hook st); reflexivity.
Qed.

Lemma dismissal_flag_semantics_witness :
  landingRoot (script "/" false (fresh_page demo_page ∅)) <> None
  /\ sessionStorage (hideLanding true (script "/" false (fresh_page demo_page ∅)))
       !! STORAGE_KEY = Some "1".
Proof.
  assert (H : landingRoot (script "/" false (fresh_page demo_page ∅)) <> None)
    by (vm_compute; discriminate).
  split; [exact H|].
  exact (proj1 (dismissal_flag_semantics
                  (script "/" false (fresh_page demo_page ∅))) H).
Defined.

(** ** Dismissing twice *)

Lemma kv_get_set_eq k v l : kv_get k (kv_set k v l) = Some v.
Proof.
  induction l as [|[k' v'] l IH]; simpl.
  - rewrite String.eqb_refl. reflexivity.
  - destruct (String.eqb k k') eqn:E; simpl; rewrite ?String.eqb_refl, ?E; auto.
Qed.


Lemma kv_set_same k v l : kv_get k l = Some v -> kv_set k v l = l.
Proof.
  induction l as [|[k' v'] l IH]; simpl; [discriminate|].
  destruct (String.eqb k k') eqn:E.
  - apply String.eqb_eq in E. subst k'. intros [= ->]. reflexivity.
  - intros H. rewrite IH by exact H. reflexivity.
Qed.




Lemma prune_absent p n :
  (forall e, In e (elems n) -> p e = false) -> prune p n = [n].
Proof.
  induction n as [s|e kids IH] using node_induction; simpl; [reflexivity|].
  intros H. rewrite (H e (or_introl eq_refl)). do 2 f_equal.
  assert (Hk : forall x, In x (flat_map elems kids) -> p x = false)
    by (intros x Hx; apply H; right; exact Hx).
  clear H. induction IH as [|x t Hx _ IHt]; simpl; [reflexivity|].
  rewrite Hx, IHt; [reflexivity| |];
    intros y Hy; apply Hk; simpl; apply in_or_app; [right|left]; exact Hy.
Qed.

Lemma prune_forest_absent p l :
  (forall e, In e (forest_elems l) -> p e = false) -> prune_forest p l = l.
Proof.
  unfold prune_forest, forest_elems.
  induction l as [|x t IH]; simpl; [reflexivity|]. intros H.
  rewrite prune_absent, IH; [reflexivity| |];
    intros y Hy; apply H; apply in_or_app; [right|left]; exact Hy.
Qed.

Lemma in_document_false r d :
  in_document r d = false <->
  forall e, In e (doc_elems d) -> ref_eqb (e_ref e) r = false.
Proof.
  unfold in_document. split.
  - intros H e He. destruct (ref_eqb (e_ref e) r) eqn:E; [|reflexivity].
    assert (existsb (fun e => ref_eqb (e_ref e) r) (doc_elems d) = true)
      by (apply existsb_exists; eauto).
    congruence.
  - intros H. destruct (existsb _ _) eqn:E; [|reflexivity].
    apply existsb_exists in E as (e & He & Hr). rewrite (H e He) in Hr.
    discriminate.
Qed.

Lemma remove_ref_absent r d : in_document r d = false -> remove_ref r d = d.
Proof.
  rewrite in_document_false. intros H. unfold remove_ref. destruct d as [h b].
  simpl in *. unfold doc_elems in H. simpl in H.
  rewrite !prune_forest_absent; [reflexivity| |];
    intros e He; apply H, in_or_app; [right|left]; exact He.
Qed.

Lemma with_doc_same st : with_doc (doc st) st = st.
Proof. destruct st. reflexivity. Qed.

Lemma hideLanding_live b st root :
  landingRoot st = Some root ->
  landingRoot (hideLanding b st) = Some root
  /\ pending (hideLanding b st) = pending st ++ [TDetach root]
  /\ doc (hideLanding b st)
     = update_ref root
         (fun e => set_style "pointerEvents" "none" (set_style "opacity" "0" e))
         (doc st).
Proof.
  intros Hr. unfold hideLanding. rewrite Hr.
  match goal with |- context [query_composer ?d] => destruct (query_composer d) end.
  - match goal with |- context [focus ?c ?s] =>
      destruct (focus_doc c s) as (-> & -> & -> & _) end.
    destruct b; simpl; auto.
  - destruct b; simpl; auto.
Qed.




(** ** The overlay builder *)

Lemma landing_tree_rebase k :
  landing_tree k = map_node (fun e _ => rebase_elem k e) (landing_tree 0).
Proof.
  unfold landing_tree, rebase_elem, makeLink, plain, START_OFFSET. simpl.
  rewrite Nat.add_0_r. unfold feature_item, plain. simpl.
  repeat (f_equal; try lia).
Qed.

Lemma in_document_true r d :
  in_document r d = true <-> exists e, In e (doc_elems d) /\ e_ref e = r.
Proof.
  unfold in_document. rewrite existsb_exists. split; intros (e & He & Hr);
    exists e; (split; [exact He|]); apply ref_eqb_eq; exact Hr.
Qed.

(** C3, as the code has it.  [buildLanding] reads only the allocation of
    node identities: the tree it builds is the same tree at every call up
    to those identities.  It is not free of effects: it stores the new
    root in [landingRoot], appends it as the last child of the body (so
    the root it returns is attached), and schedules the focus of the
    start button.  It leaves the session storage, the observer and the
    focus alone. *)
Theorem buildLanding_effects (st : state) :
  let k := next_ref st in
  let st' := fst (buildLanding st) in
  snd (buildLanding st) = Own k
  /\ landing_tree k = map_node (fun e _ => rebase_elem k e) (landing_tree 0)
  /\ doc st' = append_to_body (landing_tree k) (doc st)
  /\ in_document (Own k) (doc st') = true
  /\ landingRoot st' = Some (Own k)
  /\ pending st' = pending st ++ [TFocus (Own (k + START_OFFSET))]
  /\ next_ref st' = k + OVERLAY_SIZE
  /\ sessionStorage st' = sessionStorage st
  /\ observer st' = observer st
  /\ activeElement st' = activeElement st.
Proof.
  cbv zeta. repeat split.
  - apply landing_tree_rebase.
  - apply in_document_true. simpl doc. rewrite append_to_body_elems.
    eexists. split; [apply in_or_app; right; left; reflexivity|reflexivity].
Qed.

(** C3 as stated fails: on a page that has just been loaded the call
    attaches the root it returns and changes the controller's state. *)
Lemma buildLanding_is_not_pure :
  let st := fresh_page demo_page ∅ in
  let st' := fst (buildLanding st) in
  in_document (snd (buildLanding st)) (doc st') = true
  /\ in_document (snd (buildLanding st)) (doc st) = false
  /\ landingRoot st = None
  /\ landingRoot st' = Some (Own 0)
  /\ pending st = []
  /\ pending st' = [TFocus (Own 19)]
  /\ st' <> st.
Proof.
  cbv zeta. repeat split; try (vm_compute; reflexivity).
  intros E. apply (f_equal landingRoot) in E. vm_compute in E. discriminate.
Qed.

(** ** The focus trap *)

Lemma subnodes_elems n e kids :
  In (Elem e kids) (subnodes n) ->
  forall x, In x (forest_elems kids) -> In x (elems n).
Proof.
  induction n as [s|e0 kids0 IH] using node_induction; simpl; [intros []|].
  intros [[= -> ->]|Hin] x Hx; [right; exact Hx|].
  right. clear -IH Hin Hx.
  induction IH as [|y t Hy _ IHt]; simpl in *; [destruct Hin|].
  apply in_app_or in Hin as [Hin|Hin]; apply in_or_app.
  - left. eapply Hy; eauto.
  - right. apply IHt, Hin.
Qed.

Lemma doc_nodes_elems d e kids :
  In (Elem e kids) (doc_nodes d) ->
  forall x, In x (forest_elems kids) -> In x (doc_elems d).
Proof.
  unfold doc_nodes, doc_elems, forest_elems. intros Hin x Hx.
  assert (Hf : forall l, In (Elem e kids) (flat_map subnodes l) ->
                         In x (flat_map elems l)).
  { induction l as [|y t IH]; simpl; [intros []|].
    intros H. apply in_app_or in H as [H|H]; apply in_or_app.
    - left. eapply subnodes_elems; eauto.
    - right. apply IH, H. }
  apply in_app_or in Hin as [Hin|Hin]; apply in_or_app; [left|right];
    apply Hf, Hin.
Qed.

Lemma focusable_in_document root d r :
  In r (focusable root d) -> in_document r d = true.
Proof.
  unfold focusable. destruct (find_node root d) as [[e kids|s]|] eqn:Hf;
    try (intros []).
  intros Hr. apply in_map_iff in Hr as (x & <- & Hx).
  apply List.filter_In in Hx as [Hx _].
  apply find_some in Hf as [Hin _].
  apply in_document_true. exists x. split; [|reflexivity].
  eapply doc_nodes_elems; eauto.
Qed.

Lemma indexOf_nth (l : list ref) i a :
  List.NoDup l -> nth_error l i = Some a -> indexOf l a = Z.of_nat i.
Proof.
  intros Hnd. revert i. induction Hnd as [|x l Hx Hnd IH]; intros i.
  - destruct i; discriminate.
  - destruct i as [|i]; simpl.
    + intros [= ->]. rewrite ref_eqb_refl. reflexivity.
    + intros Hn. destruct (ref_eqb x a) eqn:E.
      * apply ref_eqb_eq in E. subst x. apply nth_error_In in Hn. contradiction.
      * rewrite (IH i Hn).
        destruct (Z.of_nat i <? 0)%Z eqn:Hlt; [apply Z.ltb_lt in Hlt|]; lia.
Qed.

Lemma nth_error_last (l : list ref) d :
  l <> [] -> nth_error l (length l - 1) = Some (List.last l d).
Proof.
  induction l as [|x l IH]; [congruence|]. intros _.
  destruct l as [|y l]; [reflexivity|].
  specialize (IH ltac:(discriminate)). simpl in *.
  rewrite Nat.sub_0_r in IH. exact IH.
Qed.

Lemma focus_sets_active r st :
  in_document r (doc st) = true -> activeElement (focus r st) = Some r.
Proof. intros H. unfold focus. rewrite H. reflexivity. Qed.



(** ** Hiding the native controls *)

Lemma candidate_blind : style_blind candidate.
Proof. intros e. reflexivity. Qed.

Lemma denylisted_blind e kids : denylisted (strip e) kids = denylisted e kids.
Proof. reflexivity. Qed.

Lemma hide_if_native_hidden e kids :
  candidate e = true -> denylisted e kids = true ->
  kv_get "display" (e_style (hide_if_native e kids)) = Some "none".
Proof.
  unfold hide_if_native, denylisted. intros -> Hd.
  destruct (looks_like_readme e kids); [apply kv_get_set_eq|].
  simpl in Hd. rewrite Hd. apply kv_get_set_eq.
Qed.

Section MapNodes.
Variable f : elem -> list node -> elem.

Lemma map_node_nodes n e' kids' :
  In (Elem e' kids') (subnodes (map_node f n)) ->
  exists e kids, In (Elem e kids) (subnodes n)
                 /\ e' = f e kids /\ kids' = List.map (map_node f) kids.
Proof.
  induction n as [s|e0 kids0 IH] using node_induction; simpl; [intros []|].
  intros [[= <- <-]|Hin].
  - exists e0, kids0. auto.
  - assert (H : exists e kids, In (Elem e kids) (flat_map subnodes kids0)
                  /\ e' = f e kids /\ kids' = List.map (map_node f) kids).
    { clear -IH Hin. induction IH as [|y t Hy _ IHt]; simpl in *; [destruct Hin|].
      apply in_app_or in Hin as [Hin|Hin].
      - destruct (Hy Hin) as (e & kids & H1 & H2).
        exists e, kids. split; [apply in_or_app; left; exact H1|exact H2].
      - destruct (IHt Hin) as (e & kids & H1 & H2).
        exists e, kids. split; [apply in_or_app; right; exact H1|exact H2]. }
    destruct H as (e & kids & H1 & H2). exists e, kids. auto.
Qed.

Lemma map_forest_nodes l e' kids' :
  In (Elem e' kids') (flat_map subnodes (List.map (map_node f) l)) ->
  exists e kids, In (Elem e kids) (flat_map subnodes l)
                 /\ e' = f e kids /\ kids' = List.map (map_node f) kids.
Proof.
  induction l as [|y t IH]; simpl; [intros []|]. intros Hin.
  apply in_app_or in Hin as [Hin|Hin].
  - destruct (map_node_nodes _ _ _ Hin) as (e & kids & H1 & H2).
    exists e, kids. split; [apply in_or_app; left; exact H1|exact H2].
  - destruct (IH Hin) as (e & kids & H1 & H2).
    exists e, kids. split; [apply in_or_app; right; exact H1|exact H2].
Qed.

Lemma map_doc_nodes d e' kids' :
  In (Elem e' kids') (doc_nodes (map_doc f d)) ->
  exists e kids, In (Elem e kids) (doc_nodes d)
                 /\ e' = f e kids /\ kids' = List.map (map_node f) kids.
Proof.
  unfold doc_nodes, map_doc. simpl. intros Hin.
  apply in_app_or in Hin as [Hin|Hin];
    destruct (map_forest_nodes _ _ _ Hin) as (e & kids & H1 & H2);
    exists e, kids; (split; [apply in_or_app; auto|exact H2]).
Qed.
End MapNodes.

Lemma sig_text_map f kids :
  (forall e k, strip (f e k) = strip e) ->
  sig_text (List.map (map_node f) kids) = sig_text kids.
Proof. intros Hf. unfold sig_text. rewrite map_kids_text; auto. Qed.

Lemma hideNative_all_hidden st : all_hidden (doc (hideNativeHeaderButtons st)).
Proof.
  intros e' kids' Hin Hc Hd. simpl in Hin.
  apply map_doc_nodes in Hin as (e & kids & _ & -> & ->).
  assert (Hs := hide_if_native_strip e kids).
  rewrite <- candidate_blind, Hs, candidate_blind in Hc.
  rewrite <- denylisted_blind, Hs, denylisted_blind in Hd.
  unfold denylisted, looks_like_readme in Hd.
  rewrite (sig_text_map _ _ hide_if_native_strip) in Hd.
  apply hide_if_native_hidden; assumption.
Qed.

(** *** Appending the button does not expose a deny-listed control *)

Lemma chars_append s1 s2 : chars (String.append s1 s2) = chars s1 ++ chars s2.
Proof. induction s1 as [|c s1 IH]; simpl; [reflexivity|]. f_equal. exact IH. Qed.

Lemma chars_kids_text_cons x t :
  chars (kids_text (x :: t)) = chars (textContent x) ++ chars (kids_text t).
Proof. unfold kids_text. simpl. apply chars_append. Qed.

Lemma chars_kids_text_app l1 l2 :
  chars (kids_text (l1 ++ l2)) = chars (kids_text l1) ++ chars (kids_text l2).
Proof.
  induction l1 as [|x t IH]; [reflexivity|].
  rewrite <- app_comm_cons, !chars_kids_text_cons, IH, app_assoc. reflexivity.
Qed.

Lemma drop_spaces_keeps c l :
  Str.is_space c = false -> In c l -> In c (Str.drop_spaces l).
Proof.
  intros Hc. induction l as [|x l IH]; simpl; [auto|].
  destruct (Str.is_space x) eqn:Hx.
  - intros [->|Hin]; [congruence|auto].
  - auto.
Qed.

Lemma trim_keeps c s :
  Str.is_space c = false -> In c (chars s) -> In c (chars (Str.trim s)).
Proof.
  intros Hc Hin. unfold Str.trim, chars.
  rewrite list_ascii_of_string_of_list_ascii.
  apply in_rev. rewrite rev_involutive.
  apply drop_spaces_keeps; [exact Hc|]. apply -> in_rev.
  apply drop_spaces_keeps; [exact Hc|exact Hin].
Qed.

Lemma toLowerCase_keeps c s :
  In c (chars s) -> In (Str.lower_ascii c) (chars (Str.toLowerCase s)).
Proof.
  induction s as [|x s IH]; simpl; [auto|].
  intros [->|Hin]; [left; reflexivity|right; auto].
Qed.

(** The text of the return button has an "H"; "readme" has no "h". *)
Lemma text_with_H_is_not_readme kids :
  In "H"%char (chars (kids_text kids)) ->
  String.eqb (sig_text kids) "readme" = false.
Proof.
  intros Hin. destruct (String.eqb (sig_text kids) "readme") eqn:E; [|reflexivity].
  apply String.eqb_eq in E.
  apply (trim_keeps "H"%char) in Hin; [|reflexivity].
  apply toLowerCase_keeps in Hin. fold (sig_text kids) in Hin.
  rewrite E in Hin. simpl in Hin.
  repeat (destruct Hin as [Hin|Hin]; [discriminate Hin|]). destruct Hin.
Qed.

Lemma after_append_mono c old old' e kids' :
  (forall x, In x old -> In x old') ->
  after_append c old e kids' -> after_append c old' e kids'.
Proof.
  intros Hs [H|[H|[(k & H) Ht]]]; [left; auto|right; left; auto|].
  right; right. split; [exists k; auto|exact Ht].
Qed.

Section AppendNodes.
Variable p : elem -> bool.
Variable c : node.

Lemma append_forest_nodes_aux l l' :
  Forall (fun n => forall n', append_node p c n = Some n' -> append_ok c n n') l ->
  append_forest p c l = Some l' -> append_forest_ok c l l'.
Proof.
  intros H. revert l'. induction H as [|x t Hx _ IH]; intros l'; simpl.
  - discriminate.
  - destruct (append_node p c x) as [x'|] eqn:Hx'.
    + intros [= <-]. destruct (Hx _ eq_refl) as [Ht Hn]. split.
      * intros ch Hch. rewrite chars_kids_text_cons. apply in_or_app.
        left. auto.
      * intros e kids' Hin. simpl in Hin. apply in_app_or in Hin as [Hin|Hin].
        -- eapply after_append_mono; [|apply Hn, Hin].
           intros y Hy. apply in_or_app. left. exact Hy.
        -- left. apply in_or_app. right. exact Hin.
    + destruct (append_forest p c t) as [t'|]; simpl; [|discriminate].
      intros [= <-]. destruct (IH _ eq_refl) as [Ht Hn]. split.
      * intros ch Hch. rewrite chars_kids_text_cons. apply in_or_app.
        right. auto.
      * intros e kids' Hin. simpl in Hin. apply in_app_or in Hin as [Hin|Hin].
        -- left. apply in_or_app. left. exact Hin.
        -- eapply after_append_mono; [|apply Hn, Hin].
           intros y Hy. apply in_or_app. right. exact Hy.
Qed.

Lemma append_node_nodes n n' : append_node p c n = Some n' -> append_ok c n n'.
Proof.
  revert n'. induction n as [s|e0 kids0 IH] using node_induction; intros n'.
  - discriminate.
  - rewrite append_node_unfold. destruct (p e0).
    + intros [= <-]. split.
      * intros ch Hch. change (textContent (Elem e0 (kids0 ++ [c])))
          with (kids_text (kids0 ++ [c])).
        rewrite chars_kids_text_app. apply in_or_app. right.
        rewrite chars_kids_text_cons. apply in_or_app. left. exact Hch.
      * intros e kids' Hin. simpl in Hin. destruct Hin as [[= <- <-]|Hin].
        -- right; right. split; [exists kids0; left; reflexivity|].
           intros ch Hch. rewrite chars_kids_text_app. apply in_or_app. right.
           rewrite chars_kids_text_cons. apply in_or_app. left. exact Hch.
        -- rewrite flat_map_app in Hin. simpl in Hin. rewrite app_nil_r in Hin.
           apply in_app_or in Hin as [Hin|Hin].
           ++ left. right. exact Hin.
           ++ right; left. exact Hin.
    + destruct (append_forest p c kids0) as [k'|] eqn:Hk; simpl; [|discriminate].
      intros [= <-].
      destruct (append_forest_nodes_aux _ _ IH Hk) as [Ht Hn]. split.
      * exact Ht.
      * intros e kids' Hin. simpl in Hin. destruct Hin as [[= <- <-]|Hin].
        -- right; right. split; [exists kids0; left; reflexivity|exact Ht].
        -- eapply after_append_mono; [|apply Hn, Hin].
           intros y Hy. right. exact Hy.
Qed.

Lemma append_forest_nodes l l' :
  append_forest p c l = Some l' -> append_forest_ok c l l'.
Proof.
  apply append_forest_nodes_aux, Forall_forall.
  intros n _ n'. apply append_node_nodes.
Qed.

Lemma append_first_nodes d e kids' :
  In (Elem e kids') (doc_nodes (append_first p c d)) ->
  after_append c (doc_nodes d) e kids'.
Proof.
  unfold append_first, doc_nodes.
  destruct (append_forest p c (doc_head d)) as [h|] eqn:Hh; simpl.
  - intros Hin. apply in_app_or in Hin as [Hin|Hin].
    + eapply after_append_mono;
        [|apply (proj2 (append_forest_nodes _ _ Hh)), Hin].
      intros y Hy. apply in_or_app. left. exact Hy.
    + left. apply in_or_app. right. exact Hin.
  - destruct (append_forest p c (doc_body d)) as [b|] eqn:Hb; simpl.
    + intros Hin. apply in_app_or in Hin as [Hin|Hin].
      * left. apply in_or_app. left. exact Hin.
      * eapply after_append_mono;
          [|apply (proj2 (append_forest_nodes _ _ Hb)), Hin].
        intros y Hy. apply in_or_app. right. exact Hy.
    + intros Hin. left. exact Hin.
Qed.
End AppendNodes.

Lemma append_to_body_nodes c d e kids' :
  In (Elem e kids') (doc_nodes (append_to_body c d)) ->
  after_append c (doc_nodes d) e kids'.
Proof.
  unfold append_to_body, doc_nodes. simpl. rewrite flat_map_app. simpl.
  rewrite app_nil_r, app_assoc. intros Hin.
  apply in_app_or in Hin as [Hin|Hin]; [left; exact Hin|right; left; exact Hin].
Qed.

(** Appending a child whose text has an "H" and whose own nodes are not
    deny-listed candidates keeps [all_hidden]. *)
Lemma all_hidden_append c d d' :
  In "H"%char (chars (textContent c)) ->
  (forall e kids, In (Elem e kids) (subnodes c) ->
                  candidate e && denylisted e kids = false) ->
  (forall e kids', In (Elem e kids') (doc_nodes d') ->
                   after_append c (doc_nodes d) e kids') ->
  all_hidden d -> all_hidden d'.
Proof.
  intros HH Hc Hn Hd e kids' Hin Hcand Hdeny.
  destruct (Hn e kids' Hin) as [Hold|[Hnew|[(kids & Hold) Ht]]].
  - apply (Hd e kids'); assumption.
  - specialize (Hc e kids' Hnew). rewrite Hcand, Hdeny in Hc. discriminate.
  - apply (Hd e kids); [exact Hold|exact Hcand|].
    unfold denylisted, looks_like_readme in *.
    rewrite (text_with_H_is_not_readme kids') in Hdeny by (apply Ht, HH).
    simpl in Hdeny.
    destruct (String.eqb (sig_text kids) "readme"); [reflexivity|exact Hdeny].
Qed.

Lemma ensureReturnButton_all_hidden st : all_hidden (doc (ensureReturnButton st)).
Proof.
  pose proof (hideNative_all_hidden st) as Hh. unfold ensureReturnButton.
  destruct (getElementById BUTTON_ID (doc (hideNativeHeaderButtons st)));
    [exact Hh|].
  assert (Hbtn : forall k cls e kids,
             In (Elem e kids) (subnodes (return_button k cls)) ->
             candidate e && denylisted e kids = false).
  { intros k cls e kids [[= <- <-]|[]]. vm_compute. reflexivity. }
  destruct (find_elem (has_class "cl-header") (doc st)).
  - eapply all_hidden_append; [| |intros x kx; apply append_first_nodes|exact Hh].
    + simpl. auto.
    + apply Hbtn.
  - destruct (getElementById BUTTON_CONTAINER_ID (doc (hideNativeHeaderButtons st))).
    + eapply all_hidden_append; [| |intros x kx; apply append_first_nodes|exact Hh].
      * simpl. auto.
      * apply Hbtn.
    + eapply all_hidden_append; [| |intros x kx; apply append_to_body_nodes|exact Hh].
      * simpl. auto.
      * intros e kids [[= <- <-]|[[= <- <-]|[]]]; vm_compute; reflexivity.
Qed.

(** C7, as the code has it.  After [hideNativeHeaderButtons], after
    [ensureReturnButton] and after the observer's callback, every
    candidate ([button], [a], [role=button] or any element with a test
    identifier) that the script's deny list matches has [display: none]:
    text equal to "readme" once trimmed and lower-cased, "readme" inside
    the label or the test identifier, "theme", "dark mode" or "light
    mode" inside the label, "theme" or "color-mode" inside the test
    identifier.  Hiding removes nothing: the elements are the same up to
    inline style.  A matching element the host inserts later is hidden by
    the next pass. *)
Theorem denylisted_hidden_after_pass (st : state) :
  all_hidden (doc (hideNativeHeaderButtons st))
  /\ all_hidden (doc (ensureReturnButton st))
  /\ all_hidden (doc (on_mutations st))
  /\ skeleton (doc (hideNativeHeaderButtons st)) = skeleton (doc st)
  /\ skeleton (doc st) ⊆+ skeleton (doc (on_mutations st))
  /\ (forall m, all_hidden
                  (doc (on_mutations (step (EvHost m) (on_mutations st)))))
  /\ (forall e kids,
        denylisted e kids
        = (String.eqb (sig_text kids) "readme"
           || Str.includes (sig_label e) "readme"
           || Str.includes (sig_testid e) "readme"
           || (Str.includes (sig_label e) "theme"
               || Str.includes (sig_label e) "dark mode"
               || Str.includes (sig_label e) "light mode"
               || Str.includes (sig_testid e) "theme"
               || Str.includes (sig_testid e) "color-mode"))).
Proof.
  repeat split.
  - apply hideNative_all_hidden.
  - apply ensureReturnButton_all_hidden.
  - apply hideNative_all_hidden.
  - apply hideNative_skeleton.
  - unfold on_mutations. rewrite hideNative_skeleton.
    pose proof (ensureReturnButton_grows st) as Hg. unfold grows in Hg.
    rewrite Hg. apply submseteq_inserts_r. reflexivity.
  - intros m. apply hideNative_all_hidden.
Qed.

Lemma denylisted_hidden_after_pass_witness :
  let e := mkElem (Host 7) "button" [ ("aria-label", "Dark Mode Toggle") ] []
             [ ("display", "none") ] [] in
  In toggle_again (doc_nodes (doc demo_redrawn))
  /\ In (Elem e [ Text "x" ]) (doc_nodes (doc (on_mutations demo_redrawn)))
  /\ kv_get "display" (e_style e) = Some "none".
Proof.
  cbv zeta.
  assert (Hin : In (Elem (mkElem (Host 7) "button"
                            [ ("aria-label", "Dark Mode Toggle") ] []
                            [ ("display", "none") ] []) [ Text "x" ])
                   (doc_nodes (doc (on_mutations demo_redrawn))))
    by (vm_compute; tauto).
  split; [vm_compute; tauto|]. split; [exact Hin|].
  exact (proj1 (proj2 (proj2 (denylisted_hidden_after_pass demo_redrawn)))
           _ _ Hin eq_refl eq_refl).
Defined.

(** C7 as stated fails for a control whose test identifier contains
    "dark mode": the stated deny list matches it, the script's does not,
    and a reconciliation pass leaves it displayed. *)
Lemma testid_dark_mode_stays_visible :
  let st := on_mutations (fresh_page testid_page ∅) in
  exists e kids,
    In (Elem e kids) (doc_nodes (doc st))
    /\ candidate e = true
    /\ stated_denylist e kids = true
    /\ denylisted e kids = false
    /\ kv_get "display" (e_style e) = None.
Proof.
  exists (mkElem (Host 1) "button" [ ("data-testid", "dark mode") ] [] [] []),
         [ Text "x" ].
  split; [vm_compute; left; reflexivity|].
  repeat split; vm_compute; reflexivity.
Qed.

(** ** Removing the return button *)

Lemma button_parent_node_unfold e kids :
  button_parent_node (Elem e kids) =
  match button_place_forest kids with
  | Absent => None
  | TopLevel => Some e
  | Under p => Some p
  end.
Proof. reflexivity. Qed.

Lemma taken_weaken b p rest whole pre post :
  taken b p rest whole -> taken b p (pre ++ rest ++ post) (pre ++ whole ++ post).
Proof.
  unfold taken. destruct (has_id BUTTON_CONTAINER_ID p).
  - intros H.
    transitivity (pre ++ (p :: b :: rest) ++ post).
    + apply Permutation_submseteq.
      change (p :: b :: pre ++ rest ++ post)
        with ([p; b] ++ pre ++ rest ++ post).
      change ((p :: b :: rest) ++ post) with ([p; b] ++ rest ++ post).
      rewrite !app_assoc. do 2 apply Permutation_app_tail.
      apply Permutation_app_comm.
    + apply submseteq_skips_l, submseteq_skips_r, H.
  - intros [H Hin]. split.
    + transitivity (pre ++ (b :: rest) ++ post).
      * apply Permutation_submseteq.
        change (b :: pre ++ rest ++ post) with ([b] ++ pre ++ rest ++ post).
        change ((b :: rest) ++ post) with ([b] ++ rest ++ post).
        rewrite !app_assoc. do 2 apply Permutation_app_tail.
        apply Permutation_app_comm.
      * apply submseteq_skips_l, submseteq_skips_r, H.
    + apply in_or_app. right. apply in_or_app. left. exact Hin.
Qed.

Lemma agrees_forest_aux l :
  Forall agrees_node l ->
  agrees (button_place_forest l) (remove_button_forest l) l.
Proof.
  induction 1 as [|x t Hx _ IH]; simpl; [reflexivity|].
  destruct (is_button x) eqn:Hb.
  - destruct x as [e kids|s]; [|discriminate]. simpl in Hb.
    exists e. split; [exact Hb|]. simpl.
    apply submseteq_skip, submseteq_inserts_l. reflexivity.
  - unfold agrees_node in Hx.
    destruct (button_parent_node x) as [p|], (remove_button_node x) as [repl|];
      try contradiction.
    + destruct Hx as (b & Hbb & Ht). exists b. split; [exact Hbb|].
      rewrite forest_elems_app.
      apply (taken_weaken b p _ _ [] (forest_elems t)) in Ht. exact Ht.
    + assert (Hzx : count is_btn (elems x) = 0).
      { destruct x as [e kids|s]; [|reflexivity]. simpl in Hb.
        unfold count in *. simpl. unfold is_btn at 1. rewrite Hb. exact Hx. }
      destruct (button_place_forest t), (remove_button_forest t);
        simpl in *; try contradiction.
      * rewrite count_app. lia.
      * destruct IH as (b & Hbb & Hs). exists b. split; [exact Hbb|].
        transitivity (elems x ++ b :: forest_elems rest).
        -- apply Permutation_submseteq, Permutation_middle.
        -- apply submseteq_skips_l, Hs.
      * destruct IH as (b & Hbb & Ht). exists b. split; [exact Hbb|].
        apply (taken_weaken b p _ _ (elems x) []) in Ht.
        rewrite !app_nil_r in Ht. exact Ht.
Qed.

Lemma agrees_node_all n : agrees_node n.
Proof.
  induction n as [s|e kids IH] using node_induction; [exact I|].
  unfold agrees_node.
  rewrite button_parent_node_unfold, remove_button_node_unfold.
  pose proof (agrees_forest_aux kids IH) as Hk.
  destruct (button_place_forest kids) as [| |p],
           (remove_button_forest kids) as [|rest|l'];
    simpl in Hk; try contradiction.
  - exact Hk.
  - destruct Hk as (b & Hbb & Hs).
    destruct (has_id BUTTON_CONTAINER_ID e) eqn:Hc; exists b;
      (split; [exact Hbb|]); unfold taken; rewrite Hc; simpl.
    + apply submseteq_skip.
      transitivity (b :: forest_elems rest); [|exact Hs].
      apply submseteq_skip, submseteq_nil_l.
    + rewrite app_nil_r. split; [|left; reflexivity].
      transitivity (e :: b :: forest_elems rest).
      * apply Permutation_submseteq, perm_swap.
      * apply submseteq_skip, Hs.
  - destruct Hk as (b & Hbb & Ht). exists b. split; [exact Hbb|].
    simpl. rewrite app_nil_r.
    apply (taken_weaken b p _ _ [e] []) in Ht.
    rewrite !app_nil_r in Ht. exact Ht.
Qed.

Lemma agrees_forest l :
  agrees (button_place_forest l) (remove_button_forest l) l.
Proof.
  apply agrees_forest_aux, Forall_forall. intros n _. apply agrees_node_all.
Qed.

Lemma agrees_doc_all d : agrees_doc d.
Proof.
  unfold agrees_doc, button_place, remove_button_doc, doc_elems.
  pose proof (agrees_forest (doc_head d)) as Hh.
  pose proof (agrees_forest (doc_body d)) as Hb.
  destruct (button_place_forest (doc_head d)) as [| |p],
           (remove_button_forest (doc_head d)) as [|rest|l'];
    simpl in Hh; try contradiction.
  - destruct (button_place_forest (doc_body d)) as [| |p],
             (remove_button_forest (doc_body d)) as [|rest|l'];
      simpl in Hb; try contradiction; simpl.
    + split; [destruct d; reflexivity|].
      unfold count_id, doc_elems. fold (count (has_id BUTTON_ID)
        (forest_elems (doc_head d) ++ forest_elems (doc_body d))).
      rewrite count_app. unfold is_btn in *. lia.
    + destruct Hb as (b & Hbb & Hs). exists b. split; [exact Hbb|].
      transitivity (forest_elems (doc_head d) ++ b :: forest_elems rest).
      * apply Permutation_submseteq, Permutation_middle.
      * apply submseteq_skips_l, Hs.
    + destruct Hb as (b & Hbb & Ht). exists b. split; [exact Hbb|].
      apply (taken_weaken b p _ _ (forest_elems (doc_head d)) []) in Ht.
      rewrite !app_nil_r in Ht. exact Ht.
  - destruct Hh as (b & Hbb & Hs). exists b. split; [exact Hbb|]. simpl.
    apply (submseteq_skips_r (forest_elems (doc_body d))) in Hs. exact Hs.
  - destruct Hh as (b & Hbb & Ht). exists b. split; [exact Hbb|]. simpl.
    apply (taken_weaken b p _ _ [] (forest_elems (doc_body d))) in Ht.
    exact Ht.
Qed.

Lemma count_id_elems i d : count_id i d = count (has_id i) (doc_elems d).
Proof. reflexivity. Qed.

Lemma count_cons p (x : elem) l :
  count p (x :: l) = (if p x then 1 else 0) + count p l.
Proof. unfold count. simpl. destruct (p x); reflexivity. Qed.

Lemma has_id_unique i j e : has_id i e = true -> has_id j e = true -> i = j.
Proof.
  unfold has_id. destruct (getAttribute "id" e); [|discriminate].
  rewrite !String.eqb_eq. congruence.
Qed.

Lemma removeReturnButton_button_drop st :
  button_place (doc st) <> Absent ->
  count_id BUTTON_ID (doc (removeReturnButton st)) + 1
  <= count_id BUTTON_ID (doc st).
Proof.
  intros Hp. pose proof (agrees_doc_all (doc st)) as Ha.
  unfold agrees_doc in Ha. simpl doc. rewrite !count_id_elems.
  destruct (button_place (doc st)) as [| |p]; [congruence| |].
  - destruct Ha as (b & Hbb & Hs).
    apply (count_submseteq (has_id BUTTON_ID)) in Hs.
    rewrite count_cons in Hs. unfold is_btn in Hbb. rewrite Hbb in Hs. lia.
  - destruct Ha as (b & Hbb & Ht). unfold taken in Ht.
    unfold is_btn in Hbb.
    destruct (has_id BUTTON_CONTAINER_ID p).
    + apply (count_submseteq (has_id BUTTON_ID)) in Ht.
      rewrite !count_cons, Hbb in Ht. lia.
    + destruct Ht as [Hs _].
      apply (count_submseteq (has_id BUTTON_ID)) in Hs.
      rewrite count_cons, Hbb in Hs. lia.
Qed.

Lemma removeReturnButton_clears st :
  count_id BUTTON_ID (doc st) <= 1 ->
  count_id BUTTON_ID (doc (removeReturnButton st)) = 0.
Proof.
  intros Hle. destruct (button_place (doc st)) eqn:Hp.
  - pose proof (agrees_doc_all (doc st)) as Ha. unfold agrees_doc in Ha.
    rewrite Hp in Ha. destruct Ha as [Hd Hz]. simpl doc. rewrite Hd. exact Hz.
  - assert (H := removeReturnButton_button_drop st). rewrite Hp in H.
    specialize (H ltac:(discriminate)). lia.
  - assert (H := removeReturnButton_button_drop st). rewrite Hp in H.
    specialize (H ltac:(discriminate)). lia.
Qed.

Lemma showLanding_button_count b st :
  Inv st -> count_id BUTTON_ID (doc (showLanding b st)) = 0.
Proof.
  intros HI. rewrite showLanding_unfold. cbv zeta.
  set (st1 := if b then _ else st).
  assert (H1 : Inv st1) by (destruct b; [apply Inv_storage|]; exact HI).
  set (st2 := removeReturnButton st1).
  assert (H2 : Inv st2) by (apply Inv_removeReturnButton, H1).
  assert (Hz2 : count_id BUTTON_ID (doc st2) = 0)
    by (apply removeReturnButton_clears, (inv_button _ H1)).
  destruct (Inv_drop_overlay st2 H2) as (H3 & _ & _ & Hev).
  set (st3 := match landingRoot st2 with Some _ => _ | None => _ end) in *.
  assert (Hz3 : count_id BUTTON_ID (doc st3) = 0).
  { pose proof (evolves_count BUTTON_ID _ _ _ Hev) as Hc.
    change (count (has_id BUTTON_ID) []) with 0 in Hc. lia. }
  assert (Hz4 : count_id BUTTON_ID (doc (ensureKeyframe st3)) = 0).
  { rewrite (grows_count _ _ _ _ (ensureKeyframe_grows st3)).
    destruct (keyframe_added_counts st3) as (-> & _). lia. }
  simpl doc. rewrite count_id_elems, append_to_body_elems, count_app.
  rewrite <- count_id_elems, Hz4.
  destruct (landing_tree_counts (next_ref (ensureKeyframe st3))) as (_ & -> & _).
  reflexivity.
Qed.

(** C10.  [removeReturnButton] does nothing when the document holds no
    return button.  When the button's parent is the floating container,
    the container goes with it: the document loses an element with the
    container's id and one with the button's id, and on any page where
    the cardinality invariant holds none of either is left.  When the
    parent is another element (the host header) that element stays.
    Every [showLanding] leaves no return button. *)
Theorem return_button_removal (st : state) :
  (getElementById BUTTON_ID (doc st) = None -> removeReturnButton st = st)
  /\ (button_place (doc st) = Absent
      <-> getElementById BUTTON_ID (doc st) = None)
  /\ (forall p, button_place (doc st) = Under p ->
                has_id BUTTON_CONTAINER_ID p = true ->
                count_id BUTTON_CONTAINER_ID (doc (removeReturnButton st)) + 1
                <= count_id BUTTON_CONTAINER_ID (doc st)
                /\ count_id BUTTON_ID (doc (removeReturnButton st)) + 1
                   <= count_id BUTTON_ID (doc st))
  /\ (forall p, button_place (doc st) = Under p ->
                has_id BUTTON_CONTAINER_ID p = false ->
                In p (doc_elems (doc (removeReturnButton st)))
                /\ count_id BUTTON_ID (doc (removeReturnButton st)) + 1
                   <= count_id BUTTON_ID (doc st))
  /\ (Inv st ->
      count_id BUTTON_ID (doc (removeReturnButton st)) = 0
      /\ (forall p, button_place (doc st) = Under p ->
                    has_id BUTTON_CONTAINER_ID p = true ->
                    count_id BUTTON_CONTAINER_ID (doc (removeReturnButton st)) = 0)
      /\ (forall b, count_id BUTTON_ID (doc (showLanding b st)) = 0)).
Proof.
  pose proof (agrees_doc_all (doc st)) as Ha. unfold agrees_doc in Ha.
  assert (Habs : button_place (doc st) = Absent
                 <-> getElementById BUTTON_ID (doc st) = None).
  { rewrite getElementById_none. split.
    - intros Hp. rewrite Hp in Ha. exact (proj2 Ha).
    - intros Hz. destruct (button_place (doc st)) eqn:Hp; [reflexivity| |];
        assert (H := removeReturnButton_button_drop st); rewrite Hp in H;
        specialize (H ltac:(discriminate)); lia. }
  assert (Hcont : forall p, button_place (doc st) = Under p ->
            has_id BUTTON_CONTAINER_ID p = true ->
            count_id BUTTON_CONTAINER_ID (doc (removeReturnButton st)) + 1
            <= count_id BUTTON_CONTAINER_ID (doc st)).
  { intros p Hp Hc. rewrite Hp in Ha. destruct Ha as (b & Hbb & Ht).
    unfold taken in Ht. rewrite Hc in Ht. simpl doc. rewrite !count_id_elems.
    apply (count_submseteq (has_id BUTTON_CONTAINER_ID)) in Ht.
    rewrite !count_cons, Hc in Ht. lia. }
  split; [|split; [exact Habs|split; [|split]]].
  - intros Hn. apply Habs in Hn. rewrite Hn in Ha. destruct Ha as [Hd _].
    unfold removeReturnButton. rewrite Hd, with_doc_same.
    apply blur_removed_same.
  - intros p Hp Hc. split; [apply (Hcont p); assumption|].
    apply removeReturnButton_button_drop. congruence.
  - intros p Hp Hc. split.
    + rewrite Hp in Ha. destruct Ha as (b & _ & Ht). unfold taken in Ht.
      rewrite Hc in Ht. apply Ht.
    + apply removeReturnButton_button_drop. congruence.
  - intros HI. split; [apply removeReturnButton_clears, (inv_button _ HI)|].
    split.
    + intros p Hp Hc. pose proof (Hcont p Hp Hc). pose proof (inv_container _ HI).
      lia.
    + intros b. apply showLanding_button_count, HI.
Qed.

Lemma return_button_removal_witness :
  (exists p, button_place (doc demo_floating) = Under p
             /\ has_id BUTTON_CONTAINER_ID p = true)
  /\ count_id BUTTON_CONTAINER_ID (doc (removeReturnButton demo_floating)) + 1
     <= count_id BUTTON_CONTAINER_ID (doc demo_floating).
Proof.
  assert (Hp : button_place (doc demo_floating)
               = Under (mkElem (Own 26) "div" [ ("id", BUTTON_CONTAINER_ID) ]
                          [] [] []))
    by (vm_compute; reflexivity).
  split; [eexists; split; [exact Hp|reflexivity]|].
  exact (proj1 (proj1 (proj2 (proj2 (return_button_removal demo_floating)))
                  _ Hp eq_refl)).
Defined.

(** ** The keyframe definition stays where it was put

    [ensureKeyframe] appends the [<style>] element to [<head>].  Nothing
    the script removes (an overlay root, the return button, its floating
    container) is or contains that element, so only the host can take it
    away. *)

Lemma top_kf_app l1 l2 : top_kf (l1 ++ l2) = top_kf l1 + top_kf l2.
Proof. unfold top_kf. rewrite List.filter_app, length_app. reflexivity. Qed.

Lemma top_kf_cons x l :
  top_kf (x :: l) = (if is_kf_node x then 1 else 0) + top_kf l.
Proof. unfold top_kf. simpl. destruct (is_kf_node x); reflexivity. Qed.

Lemma kf_count_app l1 l2 : kf_count (l1 ++ l2) = kf_count l1 + kf_count l2.
Proof. unfold kf_count. rewrite forest_elems_app, count_app. reflexivity. Qed.

Lemma kf_count_cons x l :
  kf_count (x :: l) = count is_kf (elems x) + kf_count l.
Proof. unfold kf_count. simpl. apply count_app. Qed.

Lemma kf_count_elem e kids :
  count is_kf (elems (Elem e kids)) = (if is_kf e then 1 else 0) + kf_count kids.
Proof. simpl. apply count_cons. Qed.

Lemma kf_count_sublist l l' :
  forest_elems l' `sublist_of` forest_elems l -> kf_count l' <= kf_count l.
Proof. intros H. apply count_submseteq, sublist_submseteq, H. Qed.

(** With every keyframe definition a child of [<head>], counting them in
    the document is counting them among those children. *)
Lemma shallow_count l : Forall kf_shallow l -> kf_count l = top_kf l.
Proof.
  induction 1 as [|x t Hx _ IH]; [reflexivity|].
  rewrite kf_count_cons, top_kf_cons, IH.
  destruct x as [e kids|s]; [|reflexivity].
  rewrite kf_count_elem. unfold kf_shallow in Hx. simpl in *. lia.
Qed.

Lemma is_kf_blind : style_blind is_kf.
Proof. intros e. reflexivity. Qed.

Section KfMap.
Variable f : elem -> list node -> elem.
Hypothesis f_strip : forall e kids, strip (f e kids) = strip e.

Lemma is_kf_map e kids : is_kf (f e kids) = is_kf e.
Proof. rewrite <- is_kf_blind, f_strip. apply is_kf_blind. Qed.

Lemma kf_count_map l : kf_count (List.map (map_node f) l) = kf_count l.
Proof.
  unfold kf_count.
  rewrite <- (count_strip is_kf (forest_elems (List.map _ l))) by apply is_kf_blind.
  rewrite (map_forest_skeleton f f_strip). apply count_strip, is_kf_blind.
Qed.

Lemma top_kf_map l : top_kf (List.map (map_node f) l) = top_kf l.
Proof.
  induction l as [|x t IH]; [reflexivity|]. simpl List.map.
  rewrite !top_kf_cons, IH. destruct x; simpl; [rewrite is_kf_map|]; reflexivity.
Qed.

Lemma shallow_map l :
  Forall kf_shallow l -> Forall kf_shallow (List.map (map_node f) l).
Proof.
  induction 1 as [|x t Hx _ IH]; simpl; constructor; [|exact IH].
  destruct x as [e kids|s]; [|exact Hx].
  unfold kf_shallow in *. simpl in *. rewrite kf_count_map. exact Hx.
Qed.
End KfMap.

Lemma shallow_prune p l :
  Forall kf_shallow l -> Forall kf_shallow (prune_forest p l).
Proof.
  unfold prune_forest. induction 1 as [|x t Hx _ IH]; simpl; [constructor|].
  apply Forall_app. split; [|exact IH].
  destruct x as [e kids|s]; simpl; [|repeat constructor].
  destruct (p e); [constructor|]. repeat constructor.
  unfold kf_shallow in *. simpl in *.
  pose proof (kf_count_sublist kids _ (prune_forest_sublist p kids)) as H.
  unfold prune_forest in H. lia.
Qed.

Lemma top_kf_prune p l :
  (forall e kids, In (Elem e kids) l -> is_kf e = true -> p e = false) ->
  top_kf (prune_forest p l) = top_kf l.
Proof.
  unfold prune_forest. induction l as [|x t IH]; intros H; [reflexivity|].
  simpl. rewrite top_kf_app, top_kf_cons, IH
    by (intros e kids Hin; apply (H e kids); right; exact Hin).
  f_equal. destruct x as [e kids|s]; simpl; [|reflexivity].
  destruct (p e) eqn:Hp.
  - destruct (is_kf e) eqn:Hk; [|reflexivity].
    rewrite (H e kids (or_introl eq_refl) Hk) in Hp. discriminate.
  - rewrite top_kf_cons. simpl. unfold top_kf. simpl. lia.
Qed.

Lemma is_kf_not_button e : has_id BUTTON_ID e = true -> is_kf e = false.
Proof.
  intros Hb. destruct (is_kf e) eqn:Hk; [|reflexivity].
  pose proof (has_id_unique _ _ _ Hb Hk). discriminate.
Qed.

Lemma is_kf_not_container e :
  has_id BUTTON_CONTAINER_ID e = true -> is_kf e = false.
Proof.
  intros Hb. destruct (is_kf e) eqn:Hk; [|reflexivity].
  pose proof (has_id_unique _ _ _ Hb Hk). discriminate.
Qed.

Lemma removal_result_cons_list x l r :
  removal_result (x :: l) (removal_cons x r) = x :: removal_result l r.
Proof. destruct r; reflexivity. Qed.

Lemma remove_button_node_shape e kids repl :
  remove_button_node (Elem e kids) = Some repl ->
  (repl = [] /\ has_id BUTTON_CONTAINER_ID e = true)
  \/ exists kids', repl = [Elem e kids']
                   /\ forest_elems kids' `sublist_of` forest_elems kids.
Proof.
  rewrite remove_button_node_unfold.
  pose proof (remove_button_forest_sublist kids) as Hs.
  destruct (remove_button_forest kids) as [|rest|l']; simpl in Hs; [discriminate| |].
  - destruct (has_id BUTTON_CONTAINER_ID e) eqn:Hc; intros [= <-]; eauto.
  - intros [= <-]. eauto.
Qed.

Lemma kf_remove_button l :
  Forall kf_shallow l ->
  Forall kf_shallow (removal_result l (remove_button_forest l))
  /\ top_kf (removal_result l (remove_button_forest l)) = top_kf l.
Proof.
  induction 1 as [|x t Hx Ht IH]; simpl; [split; [constructor|reflexivity]|].
  destruct (is_button x) eqn:Hb.
  - simpl. split; [exact Ht|]. rewrite top_kf_cons.
    destruct x as [e kids|s]; [|discriminate]. simpl in *.
    rewrite (is_kf_not_button e Hb). reflexivity.
  - destruct (remove_button_node x) as [repl|] eqn:Hr.
    + simpl. destruct x as [e kids|s]; [|discriminate].
      rewrite top_kf_app, top_kf_cons. simpl.
      destruct (remove_button_node_shape _ _ _ Hr) as [[-> Hc]|(kids' & -> & Hs)].
      * split; [exact Ht|]. rewrite (is_kf_not_container e Hc). reflexivity.
      * split.
        -- constructor; [|exact Ht]. unfold kf_shallow in *. simpl in *.
           pose proof (kf_count_sublist _ _ Hs). lia.
        -- rewrite top_kf_cons. simpl. unfold top_kf at 1. simpl. lia.
    + rewrite removal_result_cons_list. destruct IH as [IH1 IH2]. split.
      * constructor; assumption.
      * rewrite !top_kf_cons, IH2. reflexivity.
Qed.

Lemma append_node_shape p c e kids x' :
  append_node p c (Elem e kids) = Some x' -> exists kids', x' = Elem e kids'.
Proof.
  rewrite append_node_unfold. destruct (p e); [intros [= <-]; eauto|].
  destruct (append_forest p c kids); simpl; [intros [= <-]; eauto|discriminate].
Qed.

Lemma kf_append_forest p c l l' :
  count is_kf (elems c) = 0 ->
  append_forest p c l = Some l' ->
  Forall kf_shallow l -> Forall kf_shallow l' /\ top_kf l' = top_kf l.
Proof.
  intros Hc. revert l'. induction l as [|x t IH]; intros l'; simpl; [discriminate|].
  destruct (append_node p c x) as [x'|] eqn:Hx.
  - intros [= <-] Hf. apply Forall_cons in Hf as [Hsx Hst].
    destruct x as [e kids|s]; [|discriminate].
    destruct (append_node_shape _ _ _ _ _ Hx) as (kids' & ->).
    apply append_node_perm in Hx. apply (count_perm is_kf) in Hx.
    rewrite count_app, !kf_count_elem, Hc in Hx. split.
    + constructor; [|exact Hst]. unfold kf_shallow in *. simpl in *. lia.
    + rewrite !top_kf_cons. reflexivity.
  - destruct (append_forest p c t) as [t'|]; simpl; [|discriminate].
    intros [= <-] Hf. apply Forall_cons in Hf as [Hsx Hst].
    destruct (IH _ eq_refl Hst) as [IH1 IH2]. split.
    + constructor; assumption.
    + rewrite !top_kf_cons, IH2. reflexivity.
Qed.

Lemma kf_count_below n : kf_count (below n) <= count is_kf (elems n).
Proof.
  destruct n as [e kids|s]; simpl; [|unfold kf_count, count; simpl; lia].
  rewrite count_cons. unfold kf_count, forest_elems. lia.
Qed.

Lemma top_kf_insert (l : list node) i x y :
  l !! i = Some x -> is_kf_node y = is_kf_node x ->
  top_kf (<[i := y]> l) = top_kf l.
Proof.
  intros Hi Hk. rewrite (insert_split _ _ _ _ Hi).
  rewrite (split_at _ _ _ Hi) at 3.
  rewrite !top_kf_app, !top_kf_cons, Hk. reflexivity.
Qed.

Lemma kf_insert_at path pos c l :
  count is_kf (elems c) = 0 ->
  Forall kf_shallow l ->
  Forall kf_shallow (insert_at path pos c l)
  /\ top_kf l <= top_kf (insert_at path pos c l).
Proof.
  intros Hc. revert l. induction path as [|i path IH]; intros l Hf; simpl.
  - split.
    + apply Forall_app. split; [apply Forall_take, Hf|].
      constructor; [|apply Forall_drop, Hf].
      unfold kf_shallow. pose proof (kf_count_below c). lia.
    + rewrite <- (take_drop pos l) at 1.
      rewrite !top_kf_app, top_kf_cons. lia.
  - destruct (l !! i) as [[e kids|s]|] eqn:Hi; try (split; [exact Hf|lia]).
    split.
    + apply Forall_insert; [exact Hf|].
      pose proof (Forall_lookup_1 _ _ _ _ Hf Hi) as Hx.
      unfold kf_shallow in *. simpl in *.
      pose proof (insert_at_elems path pos c kids) as Hs.
      apply (count_submseteq is_kf) in Hs. rewrite count_app in Hs.
      unfold kf_count in *. lia.
    + rewrite (top_kf_insert _ _ _ _ Hi); [lia|reflexivity].
Qed.

Lemma shallow_remove_at path pos l :
  Forall kf_shallow l -> Forall kf_shallow (remove_at path pos l).
Proof.
  revert l. induction path as [|i path IH]; intros l Hf; simpl.
  - apply Forall_delete, Hf.
  - destruct (l !! i) as [[e kids|s]|] eqn:Hi; try exact Hf.
    apply Forall_insert; [exact Hf|].
    pose proof (Forall_lookup_1 _ _ _ _ Hf Hi) as Hx.
    unfold kf_shallow in *. simpl in *.
    pose proof (kf_count_sublist _ _ (remove_at_sublist path pos kids)). lia.
Qed.

Lemma placed_count d : kf_placed d -> count_id KEYFRAME_ID d = top_kf (doc_head d).
Proof.
  intros [Hb Hh]. rewrite count_id_elems. unfold doc_elems.
  rewrite count_app. fold is_kf. fold (kf_count (doc_head d)).
  fold (kf_count (doc_body d)). rewrite Hb, (shallow_count _ Hh). lia.
Qed.

Lemma kf_safe_refl d : kf_placed d -> kf_safe d d.
Proof. intros H. split; [exact H|lia]. Qed.


Lemma kf_safe_map f d :
  (forall e kids, strip (f e kids) = strip e) ->
  kf_placed d -> kf_safe d (map_doc f d).
Proof.
  intros Hf [Hb Hh]. unfold kf_safe, kf_placed, map_doc. simpl.
  rewrite (kf_count_map f Hf), (top_kf_map f Hf).
  repeat split; [exact Hb|apply shallow_map; assumption|lia].
Qed.

Lemma kf_safe_update_ref r g d :
  (forall e, strip (g e) = strip e) -> kf_placed d -> kf_safe d (update_ref r g d).
Proof.
  intros Hg. apply kf_safe_map. intros e _.
  destruct (ref_eqb (e_ref e) r); auto.
Qed.

Lemma kf_placed_remove_ref r d : kf_placed d -> kf_placed (remove_ref r d).
Proof.
  intros [Hb Hh]. unfold kf_placed, remove_ref. simpl. split.
  - pose proof (kf_count_sublist _ _
      (prune_forest_sublist (fun e => ref_eqb (e_ref e) r) (doc_body d))). lia.
  - apply shallow_prune, Hh.
Qed.

Lemma kf_safe_remove_ref r d :
  (forall e, In e (doc_elems d) -> is_kf e = true -> e_ref e <> r) ->
  kf_placed d -> kf_safe d (remove_ref r d).
Proof.
  intros Hr Hp. split; [apply kf_placed_remove_ref, Hp|].
  unfold remove_ref. simpl. rewrite top_kf_prune; [lia|].
  intros e kids Hin Hk.
  destruct (ref_eqb (e_ref e) r) eqn:E; [|reflexivity].
  apply ref_eqb_eq in E. exfalso. apply (Hr e); [|exact Hk|exact E].
  unfold doc_elems. apply in_or_app. left. unfold forest_elems.
  apply in_flat_map. exists (Elem e kids). split; [exact Hin|left; reflexivity].
Qed.

Lemma kf_safe_remove_button d : kf_placed d -> kf_safe d (remove_button_doc d).
Proof.
  intros [Hb Hh]. unfold kf_safe, kf_placed, remove_button_doc.
  destruct (kf_remove_button _ Hh) as [Hs Ht].
  pose proof (kf_count_sublist _ _ (remove_button_forest_sublist (doc_body d))) as Hc.
  destruct (remove_button_forest (doc_head d)); simpl in *.
  - repeat split; [lia|exact Hh|lia].
  - repeat split; [exact Hb|exact Hs|lia].
  - repeat split; [exact Hb|exact Hs|lia].
Qed.

Lemma kf_safe_append_first p c d :
  count is_kf (elems c) = 0 -> kf_placed d -> kf_safe d (append_first p c d).
Proof.
  intros Hc [Hb Hh]. unfold kf_safe, kf_placed, append_first.
  destruct (append_forest p c (doc_head d)) as [h|] eqn:Eh; simpl.
  - destruct (kf_append_forest p c _ _ Hc Eh Hh) as [Hs Ht].
    repeat split; [exact Hb|exact Hs|lia].
  - destruct (append_forest p c (doc_body d)) as [b|] eqn:Eb; simpl.
    + apply append_forest_perm in Eb. apply (count_perm is_kf) in Eb.
      rewrite count_app, Hc in Eb. unfold kf_count in *.
      repeat split; [lia|exact Hh|lia].
    + repeat split; [exact Hb|exact Hh|lia].
Qed.

Lemma kf_safe_append_to_head c d :
  kf_shallow c -> kf_placed d -> kf_safe d (append_to_head c d).
Proof.
  intros Hc [Hb Hh]. unfold kf_safe, kf_placed, append_to_head. simpl.
  rewrite top_kf_app. repeat split; [exact Hb| |lia].
  apply Forall_app. split; [exact Hh|]. repeat constructor. exact Hc.
Qed.

Lemma kf_safe_append_to_body c d :
  count is_kf (elems c) = 0 -> kf_placed d -> kf_safe d (append_to_body c d).
Proof.
  intros Hc [Hb Hh]. unfold kf_safe, kf_placed, append_to_body. simpl.
  rewrite kf_count_app, kf_count_cons, Hc, Hb.
  split; [split; [reflexivity|exact Hh]|lia].
Qed.

Lemma host_owned_no_kf n : host_owned n = true -> count is_kf (elems n) = 0.
Proof.
  intros Hn. apply count_zero_iff. intros e He.
  unfold host_owned in Hn. rewrite forallb_forall in Hn.
  apply (host_elem_no_id e (Hn e He)).
Qed.

Lemma kf_placed_host m d : kf_placed d -> kf_placed (host_apply m d).
Proof.
  intros [Hb Hh]. destruct m as [w path pos n|w path pos]; simpl.
  - destruct (host_owned n) eqn:Hn; [|split; assumption].
    pose proof (host_owned_no_kf n Hn) as Hc.
    destruct w; simpl; split; simpl; try assumption.
    + apply (kf_insert_at path pos n _ Hc Hh).
    + pose proof (insert_at_elems path pos n (doc_body d)) as Hs.
      apply (count_submseteq is_kf) in Hs. rewrite count_app in Hs.
      unfold kf_count in *. lia.
  - destruct w; simpl; split; simpl; try assumption.
    + apply shallow_remove_at, Hh.
    + pose proof (kf_count_sublist _ _ (remove_at_sublist path pos (doc_body d))).
      lia.
Qed.

Lemma kf_safe_host m d :
  host_keeps m = true -> kf_placed d -> kf_safe d (host_apply m d).
Proof.
  intros Hm Hp. split; [apply kf_placed_host, Hp|].
  destruct m as [w path pos n|w path pos]; [|discriminate]. simpl.
  destruct (host_owned n) eqn:Hn; [|lia].
  destruct w; simpl; [|lia].
  apply (kf_insert_at path pos n _ (host_owned_no_kf n Hn) (proj2 Hp)).
Qed.

(** *** The placement invariant on states *)

Lemma KStep_refl st : KInv st -> KStep st st.
Proof. intros H. split; [exact H|lia]. Qed.

Lemma KStep_trans s1 s2 s3 : KStep s1 s2 -> KStep s2 s3 -> KStep s1 s3.
Proof. intros [_ H1] [K H2]. split; [exact K|lia]. Qed.

Lemma ref_below_mono n m r : n <= m -> ref_below n r -> ref_below m r.
Proof. destruct r; simpl; [auto|lia]. Qed.

Lemma owned_below_mono n m r : n <= m -> owned_below n r -> owned_below m r.
Proof. destruct r; simpl; [auto|lia]. Qed.

(** The general shape of a step: the document gains [added], fresh
    identities are above the old counter, and new roots are fresh. *)
Lemma KInv_grow st st' added :
  KInv st ->
  kf_placed (doc st') ->
  evolves added (doc st) (doc st') ->
  next_ref st <= next_ref st' ->
  (forall a, In a added -> ref_below (next_ref st') (e_ref a)) ->
  (forall a, In a added -> is_kf a = true -> ~ In (e_ref a) (roots st')) ->
  (forall r, In r (roots st') ->
             In r (roots st)
             \/ exists k, r = Own k /\ next_ref st <= k < next_ref st') ->
  KInv st'.
Proof.
  intros [Kp Kr Kf Krf] Hp Hev Hn Hfresh Hkf Hroots. split.
  - exact Hp.
  - intros s Hs Hr.
    destruct (evolves_In _ _ _ _ Hev Hs) as [Hold|Hnew].
    + destruct (Hroots _ Hr) as [Hin|(k & Hk & Hlt)]; [auto|].
      specialize (Kf s Hold). rewrite Hk in Kf. simpl in Kf. lia.
    + apply in_map_iff in Hnew as (a & <- & Ha).
      destruct (is_kf a) eqn:E; [|exact E].
      exfalso. apply (Hkf a Ha E). exact Hr.
  - intros s Hs.
    destruct (evolves_In _ _ _ _ Hev Hs) as [Hold|Hnew].
    + eapply ref_below_mono; [exact Hn|auto].
    + apply in_map_iff in Hnew as (a & <- & Ha). exact (Hfresh a Ha).
  - intros r Hr. destruct (Hroots _ Hr) as [Hin|(k & -> & Hlt)].
    + eapply owned_below_mono; [exact Hn|auto].
    + simpl. lia.
Qed.

(** A step that adds nothing and no root. *)
Lemma KInv_shrink st st' :
  KInv st -> kf_placed (doc st') -> evolves [] (doc st) (doc st') ->
  next_ref st = next_ref st' ->
  (forall r, In r (roots st') -> In r (roots st)) ->
  KInv st'.
Proof.
  intros HK Hp Hev Hn Hr.
  apply (KInv_grow st st' []); auto; try lia; intros a [].
Qed.

Lemma KInv_ext st st' :
  doc st' = doc st -> roots st' = roots st -> next_ref st' = next_ref st ->
  KInv st -> KInv st'.
Proof.
  intros Hd Hr Hn [Kp Kr Kf Krf].
  split; rewrite ?Hd, ?Hr, ?Hn; assumption.
Qed.

Lemma KStep_ext st st' :
  doc st' = doc st -> roots st' = roots st -> next_ref st' = next_ref st ->
  KInv st -> KStep st st'.
Proof.
  intros Hd Hr Hn HK. split; [eapply KInv_ext; eauto|]. rewrite Hd. lia.
Qed.

Lemma KStep_shrink st st' :
  KInv st -> kf_safe (doc st) (doc st') -> evolves [] (doc st) (doc st') ->
  next_ref st = next_ref st' ->
  (forall r, In r (roots st') -> In r (roots st)) ->
  KStep st st'.
Proof.
  intros HK [Hp Ht] Hev Hn Hr. split; [|exact Ht].
  eapply KInv_shrink; eauto.
Qed.

(** A step that appends a subtree of fresh nodes, none of them a keyframe
    definition, and adds no root. *)
Lemma KStep_add st st' c :
  KInv st -> kf_safe (doc st) (doc st') ->
  doc_elems (doc st') ⊆+ doc_elems (doc st) ++ elems c ->
  count is_kf (elems c) = 0 ->
  (forall a, In a (elems c) -> ref_below (next_ref st') (e_ref a)) ->
  next_ref st <= next_ref st' ->
  roots st' = roots st ->
  KStep st st'.
Proof.
  intros HK [Hp Ht] Hs Hc Hf Hn Hr. split; [|exact Ht].
  apply (KInv_grow st st' (elems c)); auto.
  - apply evolves_elems, Hs.
  - intros a Ha Hk. rewrite count_zero_iff in Hc. rewrite (Hc a Ha) in Hk.
    discriminate.
  - intros r Hin. left. rewrite <- Hr. exact Hin.
Qed.

Lemma K_hideNative st : KInv st -> KStep st (hideNativeHeaderButtons st).
Proof.
  intros HK. apply KStep_shrink; auto.
  - apply kf_safe_map; [apply hide_if_native_strip|apply HK].
  - apply evolves_skeleton, hideNative_skeleton.
Qed.

Lemma K_ensureKeyframe st : KInv st -> KStep st (ensureKeyframe st).
Proof.
  intros HK. unfold ensureKeyframe.
  destruct (getElementById KEYFRAME_ID (doc st)); [apply KStep_refl, HK|].
  assert (Hsafe : kf_safe (doc st)
                    (append_to_head (keyframe_node (next_ref st)) (doc st))).
  { apply kf_safe_append_to_head; [reflexivity|apply HK]. }
  split; [|apply Hsafe].
  apply (KInv_grow st _ (elems (keyframe_node (next_ref st)))); simpl; auto.
  - apply Hsafe.
  - apply grows_evolves, grows_elems, append_to_head_elems.
  - lia.
  - intros a [<-|[]]. simpl. lia.
  - intros a [<-|[]] _ Hin. apply (k_roots_fresh _ HK) in Hin. simpl in Hin. lia.
Qed.

Lemma return_button_fresh k cls n a :
  k < n -> In a (elems (return_button k cls)) -> ref_below n (e_ref a).
Proof. intros Hk [<-|[]]. exact Hk. Qed.

Lemma K_ensureReturnButton st : KInv st -> KStep st (ensureReturnButton st).
Proof.
  intros HK. unfold ensureReturnButton.
  pose proof (K_hideNative st HK) as H1.
  set (st1 := hideNativeHeaderButtons st) in *.
  destruct (getElementById BUTTON_ID (doc st1)); [exact H1|].
  eapply KStep_trans; [exact H1|]. destruct H1 as [K1 _].
  destruct (find_elem (has_class "cl-header") (doc st)).
  - eapply KStep_add; simpl; eauto; try lia.
    + apply kf_safe_append_first; [reflexivity|apply K1].
    + apply append_first_elems.
    + reflexivity.
    + intros a. apply return_button_fresh. lia.
  - destruct (getElementById BUTTON_CONTAINER_ID (doc st1)).
    + eapply KStep_add; simpl; eauto; try lia.
      * apply kf_safe_append_first; [reflexivity|apply K1].
      * apply append_first_elems.
      * reflexivity.
      * intros a. apply return_button_fresh. lia.
    + eapply KStep_add; simpl; eauto; try lia.
      * apply kf_safe_append_to_body; [reflexivity|apply K1].
      * rewrite append_to_body_elems. reflexivity.
      * reflexivity.
      * intros a [<-|[<-|[]]]; simpl; lia.
Qed.

Lemma K_removeReturnButton st : KInv st -> KStep st (removeReturnButton st).
Proof.
  intros HK. apply KStep_shrink; auto.
  - apply kf_safe_remove_button, HK.
  - apply removeReturnButton_evolves.
Qed.

Lemma roots_focus r st : roots (focus r st) = roots st.
Proof.
  unfold roots. destruct (focus_doc r st) as (_ & -> & -> & _). reflexivity.
Qed.

Lemma K_focus r st : KInv st -> KStep st (focus r st).
Proof.
  intros HK. apply KStep_ext; [apply focus_doc|apply roots_focus|apply focus_doc|exact HK].
Qed.

Lemma K_blur d st : KInv st -> KStep st (blur_removed d st).
Proof. intros HK. apply KStep_ext; [reflexivity..|exact HK]. Qed.

Lemma detach_refs_app l1 l2 :
  detach_refs (l1 ++ l2) = detach_refs l1 ++ detach_refs l2.
Proof. apply flat_map_app. Qed.

Lemma K_update_ref r g st :
  (forall e, strip (g e) = strip e) ->
  KInv st -> KStep st (with_doc (update_ref r g (doc st)) st).
Proof.
  intros Hg HK. apply KStep_shrink; auto.
  - apply kf_safe_update_ref; [exact Hg|apply HK].
  - apply evolves_skeleton, update_ref_skeleton, Hg.
Qed.

Lemma K_hideLanding b st : KInv st -> KStep st (hideLanding b st).
Proof.
  intros HK. destruct (landingRoot st) as [root|] eqn:Hr.
  - destruct (hideLanding_live b st root Hr) as (Hl & Hp & Hd).
    destruct (hideLanding_frame b st) as (_ & _ & Hn & _).
    apply KStep_shrink; auto.
    + rewrite Hd. apply kf_safe_update_ref; [reflexivity|apply HK].
    + apply evolves_skeleton, hideLanding_frame.
    + unfold roots. rewrite Hl, Hp, Hr, detach_refs_app. simpl.
      intros r [<-|Hin]; [left; reflexivity|].
      apply in_app_or in Hin as [Hin|[<-|[]]]; [right; exact Hin|left; reflexivity].
  - unfold hideLanding. rewrite Hr. apply KStep_refl, HK.
Qed.

Lemma no_kf_at_root st r :
  KInv st -> In r (roots st) ->
  forall e, In e (doc_elems (doc st)) -> is_kf e = true -> e_ref e <> r.
Proof.
  intros HK Hr e He Hk Heq.
  assert (Hs : In (strip e) (skeleton (doc st))) by (apply in_map; exact He).
  pose proof (k_roots _ HK (strip e) Hs) as H. simpl in H.
  rewrite Heq in H. specialize (H Hr). unfold is_kf in *.
  rewrite has_id_blind in H. congruence.
Qed.

(** Detaching a node that is not a keyframe definition. *)
Lemma K_remove_ref r st :
  KInv st ->
  (forall e, In e (doc_elems (doc st)) -> is_kf e = true -> e_ref e <> r) ->
  KStep st (with_doc (remove_ref r (doc st)) st).
Proof.
  intros HK Hr. apply KStep_shrink; auto.
  - apply kf_safe_remove_ref; [exact Hr|apply HK].
  - apply evolves_sublist, remove_ref_sublist.
Qed.

Lemma K_clear_root st : KInv st -> KStep st (with_landingRoot None st).
Proof.
  intros HK. apply KStep_shrink; auto.
  - apply kf_safe_refl, HK.
  - apply evolves_refl.
  - unfold roots. simpl. intros r Hin. apply in_or_app. right. exact Hin.
Qed.

Lemma landing_tree_fresh k a :
  In a (elems (landing_tree k)) -> ref_below (k + OVERLAY_SIZE) (e_ref a).
Proof.
  unfold OVERLAY_SIZE. simpl. unfold START_OFFSET. intros H.
  repeat (destruct H as [<-|H]; [simpl; lia|]). destruct H.
Qed.

Lemma K_buildLanding st : KInv st -> KStep st (fst (buildLanding st)).
Proof.
  intros HK.
  assert (Hsafe : kf_safe (doc st)
                    (append_to_body (landing_tree (next_ref st)) (doc st))).
  { apply kf_safe_append_to_body; [|apply HK].
    apply (landing_tree_counts (next_ref st)). }
  split; [|apply Hsafe].
  apply (KInv_grow st _ (elems (landing_tree (next_ref st)))); auto.
  - apply Hsafe.
  - apply evolves_elems. simpl doc. rewrite append_to_body_elems. reflexivity.
  - simpl. lia.
  - intros a Ha. apply landing_tree_fresh, Ha.
  - intros a Ha Hk.
    destruct (landing_tree_counts (next_ref st)) as (_ & _ & _ & Hz).
    rewrite count_zero_iff in Hz. unfold is_kf in Hk.
    rewrite (Hz a Ha) in Hk. discriminate.
  - unfold roots. simpl. rewrite detach_refs_app. simpl. rewrite app_nil_r.
    intros r [<-|Hin].
    + right. exists (next_ref st). unfold OVERLAY_SIZE. split; [reflexivity|lia].
    + left. apply in_or_app. right. exact Hin.
Qed.

Lemma K_schedule_reveal r st : KInv st -> KStep st (schedule (TReveal r) st).
Proof.
  intros HK. apply KStep_ext; auto.
  unfold roots. simpl. rewrite detach_refs_app. simpl. rewrite app_nil_r.
  reflexivity.
Qed.

Lemma K_storage m st : KInv st -> KStep st (with_storage m st).
Proof. intros HK. apply KStep_ext; auto. Qed.

Lemma K_showLanding b st : KInv st -> KStep st (showLanding b st).
Proof.
  intros HK. rewrite showLanding_unfold. cbv zeta.
  set (st1 := if b then _ else st).
  assert (H1 : KStep st st1)
    by (destruct b; [apply K_storage|apply KStep_refl]; exact HK).
  set (st2 := removeReturnButton st1).
  assert (H2 : KStep st st2).
  { eapply KStep_trans; [exact H1|apply K_removeReturnButton, H1]. }
  set (st3 := match landingRoot st2 with Some _ => _ | None => _ end).
  assert (H3 : KStep st st3).
  { eapply KStep_trans; [exact H2|]. destruct H2 as [K2 _]. subst st3.
    destruct (landingRoot st2) as [r|] eqn:Hr; [|apply KStep_refl, K2].
    assert (Hd : KStep st2 (with_doc (remove_ref r (doc st2)) st2)).
    { apply K_remove_ref; [exact K2|]. apply no_kf_at_root; [exact K2|].
      unfold roots. rewrite Hr. left. reflexivity. }
    eapply KStep_trans; [exact Hd|].
    eapply KStep_trans; [apply (K_blur (doc st2) _ (proj1 Hd))|].
    apply K_clear_root, K_blur, Hd. }
  assert (H4 : KStep st (ensureKeyframe st3)).
  { eapply KStep_trans; [exact H3|apply K_ensureKeyframe, H3]. }
  assert (H5 : KStep st (fst (buildLanding (ensureKeyframe st3)))).
  { eapply KStep_trans; [exact H4|apply K_buildLanding, H4]. }
  eapply KStep_trans; [exact H5|apply K_schedule_reveal, H5].
Qed.

Lemma K_fire t st :
  KInv st ->
  (forall r, t = TDetach r ->
             forall e, In e (doc_elems (doc st)) -> is_kf e = true -> e_ref e <> r) ->
  KStep st (fire t st).
Proof.
  intros HK Hside. destruct t as [b|root|root]; unfold fire; cbv zeta.
  - apply K_focus, HK.
  - pose proof (K_remove_ref root st HK (Hside root eq_refl)) as H0.
    assert (H1 : KStep st (blur_removed (doc st)
                             (with_doc (remove_ref root (doc st)) st))).
    { eapply KStep_trans; [exact H0|apply K_blur, H0]. }
    clear H0. eapply KStep_trans; [exact H1|]. destruct H1 as [K1 _].
    set (st1 := blur_removed (doc st) (with_doc (remove_ref root (doc st)) st))
      in *.
    assert (H2 : KStep st1
              match landingRoot st1 with
              | Some r => if ref_eqb r root then with_landingRoot None st1 else st1
              | None => st1
              end).
    { destruct (landingRoot st1) as [r|]; [|apply KStep_refl, K1].
      destruct (ref_eqb r root); [apply K_clear_root|apply KStep_refl]; exact K1. }
    eapply KStep_trans; [exact H2|]. apply K_ensureReturnButton, H2.
  - apply K_update_ref; [reflexivity|exact HK].
Qed.

Lemma K_run_handler h key shiftKey st :
  KInv st -> KStep st (run_handler h key shiftKey st).
Proof.
  intros HK. destruct h; simpl.
  - apply K_hideLanding, HK.
  - destruct (String.eqb key "Escape").
    + pose proof (K_hideLanding true st HK) as H1.
      destruct (String.eqb key "Enter" && negb shiftKey); [|exact H1].
      eapply KStep_trans; [exact H1|apply K_hideLanding, H1].
    + destruct (String.eqb key "Enter" && negb shiftKey);
        [apply K_hideLanding|apply KStep_refl]; exact HK.
  - destruct (String.eqb key "Tab"); [|apply KStep_refl, HK].
    destruct (trap_target _ _ _); [apply K_focus|apply KStep_refl]; exact HK.
  - apply K_update_ref; [reflexivity|exact HK].
  - apply K_update_ref; [reflexivity|exact HK].
  - apply K_showLanding, HK.
Qed.

Lemma K_dispatch ty target key shiftKey st :
  KInv st -> KStep st (dispatch ty target key shiftKey st).
Proof.
  unfold dispatch. generalize (flat_map (listeners_for ty)
    (if bubbles ty then event_path target (doc st)
     else firstn 1 (event_path target (doc st)))).
  intros hs. revert st. induction hs as [|h hs IH]; intros st HK; simpl.
  - apply KStep_refl, HK.
  - pose proof (K_run_handler h key shiftKey st HK) as H1.
    eapply KStep_trans; [exact H1|apply IH, H1].
Qed.

Lemma K_on_mutations st : KInv st -> KStep st (on_mutations st).
Proof.
  intros HK. pose proof (K_ensureReturnButton st HK) as H1.
  eapply KStep_trans; [exact H1|apply K_hideNative, H1].
Qed.

Lemma K_setupObservers st : KInv st -> KStep st (setupObservers st).
Proof.
  intros HK. unfold setupObservers.
  destruct (observer st); [apply KStep_refl, HK|].
  assert (H0 : KStep st (with_observer true st)) by (apply KStep_ext; auto).
  eapply KStep_trans; [exact H0|]. apply K_on_mutations, H0.
Qed.

Lemma K_init st : KInv st -> KStep st (init st).
Proof.
  intros HK. unfold init.
  assert (H1 : KStep st (hideNativeHeaderButtons (ensureKeyframe st))).
  { pose proof (K_ensureKeyframe st HK) as H.
    eapply KStep_trans; [exact H|apply K_hideNative, H]. }
  set (st1 := hideNativeHeaderButtons (ensureKeyframe st)) in *.
  assert (H2 : KStep st (if flag_unset st1 then showLanding false st1
                         else ensureReturnButton st1)).
  { eapply KStep_trans; [exact H1|].
    destruct (flag_unset st1);
      [apply K_showLanding|apply K_ensureReturnButton]; apply H1. }
  eapply KStep_trans; [exact H2|apply K_setupObservers, H2].
Qed.

Lemma K_run_debug c st : KInv st -> KStep st (run_debug c st).
Proof.
  intros HK. destruct c; simpl.
  - apply K_showLanding, HK.
  - apply K_hideLanding, HK.
  - pose proof (K_storage (delete STORAGE_KEY (sessionStorage st)) st HK) as H.
    eapply KStep_trans; [exact H|apply K_showLanding, H].
  - apply K_hideNative, HK.
Qed.

Lemma KInv_host m st : KInv st -> KInv (with_doc (host_apply m (doc st)) st).
Proof.
  intros HK. apply (KInv_grow st _ (host_added m)); auto.
  - apply kf_placed_host, HK.
  - apply evolves_elems, host_apply_elems.
  - intros a Ha. pose proof (host_added_owned m) as Ho.
    rewrite Forall_forall in Ho. apply list_elem_of_In in Ha.
    specialize (Ho a Ha). unfold host_elem in Ho.
    destruct (e_ref a); [exact I|discriminate].
  - intros a Ha Hk. pose proof (host_added_owned m) as Ho.
    rewrite Forall_forall in Ho. apply list_elem_of_In in Ha.
    destruct (host_elem_no_id a (Ho a Ha)) as (_ & _ & _ & Hz).
    unfold is_kf in Hk. congruence.
Qed.

Lemma detach_refs_delete i (l : list timer) r :
  In r (detach_refs (delete i l)) -> In r (detach_refs l).
Proof.
  revert i. induction l as [|t l IH]; intros i; [destruct i; auto|].
  destruct i as [|i]; simpl.
  - intros H. apply in_or_app. right. exact H.
  - intros H. apply in_app_or in H as [H|H]; apply in_or_app; [left; exact H|].
    right. eapply IH, H.
Qed.

Lemma detach_refs_lookup (l : list timer) i r :
  l !! i = Some (TDetach r) -> In r (detach_refs l).
Proof.
  revert i. induction l as [|t l IH]; intros i; [destruct i; discriminate|].
  destruct i as [|i]; simpl.
  - intros [= ->]. left. reflexivity.
  - intros H. apply in_or_app. right. eapply IH, H.
Qed.

Lemma K_step ev st :
  KInv st ->
  KInv (step ev st)
  /\ (keeps (Ext ev) = true ->
      top_kf (doc_head (doc st)) <= top_kf (doc_head (doc (step ev st)))).
Proof.
  intros HK.
  assert (Hgen : forall s', KStep st s' ->
            KInv s' /\ (keeps (Ext ev) = true ->
                        top_kf (doc_head (doc st)) <= top_kf (doc_head (doc s'))))
    by (intros s' [A B]; auto).
  destruct ev; simpl step.
  - split; [apply K_blur, KInv_host, HK|]. simpl. intros Hm.
    apply (kf_safe_host m (doc st) Hm (k_placed _ HK)).
  - apply Hgen. destruct (ready_listener st); [|apply KStep_refl, HK].
    assert (H0 : KStep st (with_ready false st)) by (apply KStep_ext; auto).
    eapply KStep_trans; [exact H0|apply K_init, H0].
  - apply Hgen. destruct (pending st !! i) as [t|] eqn:Hi; [|apply KStep_refl, HK].
    assert (H0 : KStep st (with_pending (delete i (pending st)) st)).
    { apply KStep_shrink; auto.
      - apply kf_safe_refl, HK.
      - apply evolves_refl.
      - unfold roots. simpl. intros r Hin.
        apply in_app_or in Hin as [Hin|Hin]; apply in_or_app; [left; exact Hin|].
        right. eapply detach_refs_delete, Hin. }
    eapply KStep_trans; [exact H0|]. apply K_fire; [apply H0|].
    intros r -> e He. simpl in He. apply (no_kf_at_root st r HK); [|exact He].
    unfold roots. apply in_or_app. right. eapply detach_refs_lookup, Hi.
  - apply Hgen. destruct (observer st); [apply K_on_mutations|apply KStep_refl]; exact HK.
  - apply Hgen, K_dispatch, HK.
  - apply Hgen, K_focus, HK.
  - apply Hgen. destruct (debug_hook st); [apply K_run_debug|apply KStep_refl]; exact HK.
Qed.

Lemma K_act a st :
  KInv st ->
  KInv (act a st)
  /\ (keeps a = true ->
      top_kf (doc_head (doc st)) <= top_kf (doc_head (doc (act a st)))).
Proof.
  intros HK. destruct a as [c|ev]; [|apply K_step, HK].
  assert (H : KStep st (run_call c st)).
  { destruct c; simpl.
    - apply K_ensureReturnButton, HK.
    - apply K_hideNative, HK.
    - apply K_showLanding, HK.
    - apply K_hideLanding, HK.
    - apply K_ensureKeyframe, HK.
    - apply K_removeReturnButton, HK.
    - apply K_setupObservers, HK.
    - apply K_init, HK. }
  destruct H as [A B]. simpl. auto.
Qed.

Lemma KInv_perform l st : KInv st -> KInv (perform l st).
Proof.
  revert st. induction l as [|a l IH]; intros st HK; simpl; [exact HK|].
  apply IH, K_act, HK.
Qed.

Lemma K_perform_keeps l st :
  KInv st -> forallb keeps l = true ->
  top_kf (doc_head (doc st)) <= top_kf (doc_head (doc (perform l st))).
Proof.
  revert st. induction l as [|a l IH]; intros st HK Hl; simpl; [lia|].
  simpl in Hl. apply andb_true_iff in Hl as [Ha Hl].
  destruct (K_act a st HK) as [K1 Hm].
  specialize (IH _ K1 Hl). specialize (Hm Ha). lia.
Qed.

Lemma KInv_fresh_page d store :
  host_document d = true -> KInv (fresh_page d store).
Proof.
  intros Hd.
  assert (Hz : forall e, In e (doc_elems d) -> is_kf e = false).
  { intros e He. unfold host_document in Hd. rewrite forallb_forall in Hd.
    apply (host_elem_no_id e (Hd e He)). }
  split; simpl.
  - split.
    + apply count_zero_iff. intros e He. apply Hz. unfold doc_elems.
      apply in_or_app. right. exact He.
    + apply Forall_forall. intros n Hn. apply list_elem_of_In in Hn.
      unfold kf_shallow. apply count_zero_iff. intros e He. apply Hz.
      unfold doc_elems. apply in_or_app. left. unfold forest_elems.
      apply in_flat_map. exists n. split; [exact Hn|].
      destruct n as [e0 kids|s]; [right; exact He|destruct He].
  - intros s _ [].
  - intros s Hs. apply in_skeleton in Hs as (e & -> & He).
    unfold host_document in Hd. rewrite forallb_forall in Hd.
    specialize (Hd e He). unfold host_elem in Hd. simpl.
    destruct (e_ref e); [exact I|discriminate].
  - intros r [].
Qed.

Lemma KInv_script pathname loading st :
  KInv st -> KInv (script pathname loading st).
Proof.
  intros HK. unfold script.
  destruct (Str.startsWith pathname "/share"); [exact HK|].
  destruct loading.
  - eapply KInv_ext; [| | |exact HK]; reflexivity.
  - eapply KInv_ext; [| | |apply K_init, HK]; reflexivity.
Qed.

Lemma ensureKeyframe_present s :
  count_id KEYFRAME_ID (doc s) <> 0 -> ensureKeyframe s = s.
Proof.
  intros Hc. unfold ensureKeyframe.
  destruct (getElementById KEYFRAME_ID (doc s)) eqn:Hg; [reflexivity|].
  apply getElementById_none in Hg. contradiction.
Qed.

Lemma ensureKeyframe_count s :
  count_id KEYFRAME_ID (doc (ensureKeyframe s))
  = Nat.max 1 (count_id KEYFRAME_ID (doc s)).
Proof.
  rewrite (grows_count _ _ _ _ (ensureKeyframe_grows s)).
  apply keyframe_added_counts.
Qed.

(** ** The rule the keyframe definition holds

    The script only ever adds children to, restyles or removes whole
    elements; it never takes a text child away.  So the [<style>] element
    it registers keeps its rule until the host removes something. *)

Lemma ruled_evolve e e' kids kids' :
  is_kf e' = is_kf e -> e_tag e' = e_tag e -> keeps_texts kids kids' ->
  ruled (Elem e kids) -> ruled (Elem e' kids').
Proof.
  unfold ruled. simpl. intros Hk Ht HT H Hkf. rewrite Hk in Hkf.
  destruct (H Hkf) as [A B]. split; [rewrite Ht; exact A|apply HT, B].
Qed.

Lemma ruled_text s : ruled (Text s).
Proof. intros H. discriminate. Qed.

Lemma ruled_not_kf n : is_kf_node n = false -> ruled n.
Proof. intros H H'. congruence. Qed.

Lemma texts_map f l : keeps_texts l (List.map (map_node f) l).
Proof.
  intros s H. apply in_map_iff. exists (Text s). split; [reflexivity|exact H].
Qed.

Lemma texts_prune p l : keeps_texts l (prune_forest p l).
Proof.
  intros s H. unfold prune_forest. apply in_flat_map. exists (Text s).
  split; [exact H|left; reflexivity].
Qed.

Lemma texts_remove_button l :
  keeps_texts l (removal_result l (remove_button_forest l)).
Proof.
  induction l as [|x t IH]; intros s H; simpl; [exact H|].
  destruct (is_button x) eqn:Hb.
  - simpl. destruct H as [->|H]; [simpl in Hb; discriminate Hb|exact H].
  - destruct (remove_button_node x) as [repl|] eqn:Hr.
    + simpl. apply in_or_app. right.
      destruct H as [->|H]; [simpl in Hr; discriminate Hr|exact H].
    + rewrite removal_result_cons_list.
      destruct H as [->|H]; [left; reflexivity|right; apply IH, H].
Qed.

Lemma texts_append_forest p c l l' :
  append_forest p c l = Some l' -> keeps_texts l l'.
Proof.
  revert l'. induction l as [|x t IH]; intros l'; simpl; [discriminate|].
  destruct (append_node p c x) as [x'|] eqn:Hx.
  - intros [= <-] s [->|H]; [simpl in Hx; discriminate Hx|right; exact H].
  - destruct (append_forest p c t) as [t'|] eqn:Ht; [|discriminate].
    simpl. intros [= <-] s [->|H]; [left; reflexivity|].
    right. apply (IH _ eq_refl), H.
Qed.

Lemma In_insert_other (l : list node) i x y z :
  l !! i = Some y -> x <> y -> In x l -> In x (<[i := z]> l).
Proof.
  revert i. induction l as [|a t IH]; intros i Hi Hne Hin; [destruct Hin|].
  destruct i as [|i]; simpl in *.
  - injection Hi as ->. destruct Hin as [->|Hin]; [congruence|right; exact Hin].
  - destruct Hin as [->|Hin]; [left; reflexivity|right; eapply IH; eauto].
Qed.

Lemma texts_insert_at path pos c l : keeps_texts l (insert_at path pos c l).
Proof.
  destruct path as [|i path]; simpl; intros s H.
  - rewrite <- (take_drop pos l) in H. apply in_app_or in H.
    apply in_or_app. destruct H as [H|H]; [left; exact H|right; right; exact H].
  - destruct (l !! i) as [[e kids|s']|] eqn:Hi; try exact H.
    eapply In_insert_other; [exact Hi|discriminate|exact H].
Qed.

Lemma ruled_map f l :
  (forall e kids, strip (f e kids) = strip e) ->
  Forall ruled l -> Forall ruled (List.map (map_node f) l).
Proof.
  intros Hf. induction 1 as [|x t Hx _ IH]; simpl; constructor; [|exact IH].
  destruct x as [e kids|s]; simpl; [|apply ruled_text].
  apply (ruled_evolve e _ kids); [| |apply texts_map|exact Hx].
  - rewrite <- (is_kf_blind (f e kids)), Hf. apply is_kf_blind.
  - change (e_tag (strip (f e kids)) = e_tag (strip e)). rewrite Hf. reflexivity.
Qed.

Lemma ruled_prune p l : Forall ruled l -> Forall ruled (prune_forest p l).
Proof.
  unfold prune_forest. induction 1 as [|x t Hx _ IH]; simpl; [constructor|].
  apply Forall_app. split; [|exact IH].
  destruct x as [e kids|s]; simpl; [|repeat constructor; apply ruled_text].
  destruct (p e); [constructor|]. constructor; [|constructor].
  apply (ruled_evolve e e kids); [reflexivity|reflexivity| |exact Hx].
  apply (texts_prune p kids).
Qed.

Lemma ruled_remove_button l :
  Forall ruled l -> Forall ruled (removal_result l (remove_button_forest l)).
Proof.
  induction 1 as [|x t Hx Ht IH]; simpl; [constructor|].
  destruct (is_button x); [exact Ht|].
  destruct (remove_button_node x) as [repl|] eqn:Hr.
  - simpl. destruct x as [e kids|s]; [|discriminate].
    rewrite remove_button_node_unfold in Hr.
    pose proof (texts_remove_button kids) as HT.
    apply Forall_app. split; [|exact Ht].
    destruct (remove_button_forest kids) as [|rest|l']; [discriminate| |].
    + destruct (has_id BUTTON_CONTAINER_ID e); injection Hr as <-;
        [constructor|]. constructor; [|constructor].
      apply (ruled_evolve e e kids); [reflexivity|reflexivity|exact HT|exact Hx].
    + injection Hr as <-. constructor; [|constructor].
      apply (ruled_evolve e e kids); [reflexivity|reflexivity|exact HT|exact Hx].
  - rewrite removal_result_cons_list. constructor; assumption.
Qed.

Lemma ruled_append_forest p c l l' :
  append_forest p c l = Some l' -> Forall ruled l -> Forall ruled l'.
Proof.
  intros H Hf. revert l' H.
  induction Hf as [|x t Hx Ht IH]; intros l'; simpl; [discriminate|].
  destruct (append_node p c x) as [x'|] eqn:Hx'.
  - intros [= <-]. constructor; [|exact Ht].
    destruct x as [e kids|s]; [|discriminate].
    rewrite append_node_unfold in Hx'. destruct (p e).
    + injection Hx' as <-.
      apply (ruled_evolve e e kids); [reflexivity|reflexivity| |exact Hx].
      intros s Hs. apply in_or_app. left. exact Hs.
    + destruct (append_forest p c kids) as [kids'|] eqn:Hk; [|discriminate].
      injection Hx' as <-.
      apply (ruled_evolve e e kids); [reflexivity|reflexivity| |exact Hx].
      apply (texts_append_forest _ _ _ _ Hk).
  - destruct (append_forest p c t) as [t'|] eqn:Ht'; [|discriminate].
    intros [= <-]. constructor; [exact Hx|apply IH; reflexivity].
Qed.

Lemma ruled_insert_at path pos c l :
  is_kf_node c = false ->
  Forall ruled l -> Forall ruled (insert_at path pos c l).
Proof.
  intros Hc Hf. destruct path as [|i path]; simpl.
  - apply Forall_app. split; [apply Forall_take, Hf|].
    constructor; [apply ruled_not_kf, Hc|apply Forall_drop, Hf].
  - destruct (l !! i) as [[e kids|s]|] eqn:Hi; try exact Hf.
    apply Forall_insert; [exact Hf|].
    apply (ruled_evolve e e kids); [reflexivity|reflexivity| |].
    + apply texts_insert_at.
    + apply (Forall_lookup_1 _ _ _ _ Hf Hi).
Qed.

Lemma host_owned_not_kf n : host_owned n = true -> is_kf_node n = false.
Proof.
  intros Hn. apply host_owned_no_kf in Hn.
  destruct n as [e kids|s]; [|reflexivity]. simpl in *.
  rewrite count_cons in Hn. destruct (is_kf e); [discriminate|reflexivity].
Qed.

Lemma ruled_map_doc f d :
  (forall e kids, strip (f e kids) = strip e) ->
  kf_ruled d -> kf_ruled (map_doc f d).
Proof. intros Hf. apply ruled_map, Hf. Qed.

Lemma ruled_update_ref r g d :
  (forall e, strip (g e) = strip e) ->
  kf_ruled d -> kf_ruled (update_ref r g d).
Proof.
  intros Hg. apply ruled_map_doc. intros e _.
  destruct (ref_eqb (e_ref e) r); [apply Hg|reflexivity].
Qed.

Lemma ruled_remove_ref r d : kf_ruled d -> kf_ruled (remove_ref r d).
Proof. apply ruled_prune. Qed.

Lemma ruled_remove_button_doc d : kf_ruled d -> kf_ruled (remove_button_doc d).
Proof.
  intros Hf. pose proof (ruled_remove_button _ Hf) as H.
  unfold kf_ruled, remove_button_doc.
  destruct (remove_button_forest (doc_head d)); simpl in *; assumption.
Qed.

Lemma ruled_append_first p c d : kf_ruled d -> kf_ruled (append_first p c d).
Proof.
  intros Hf. unfold kf_ruled, append_first.
  destruct (append_forest p c (doc_head d)) as [h|] eqn:Hh; simpl.
  - apply (ruled_append_forest _ _ _ _ Hh Hf).
  - destruct (append_forest p c (doc_body d)); exact Hf.
Qed.

Lemma ruled_host m d :
  host_keeps m = true -> kf_ruled d -> kf_ruled (host_apply m d).
Proof.
  intros Hm Hf. destruct m as [w path pos n|w path pos]; [|discriminate].
  simpl. destruct (host_owned n) eqn:Hn; [|exact Hf].
  destruct w; simpl; [|exact Hf].
  apply ruled_insert_at; [apply host_owned_not_kf, Hn|exact Hf].
Qed.

Lemma ruled_host_document d : host_document d = true -> kf_ruled d.
Proof.
  intros Hd. apply List.Forall_forall. intros n Hn. apply ruled_not_kf.
  destruct n as [e kids|s]; [|reflexivity]. simpl.
  unfold host_document in Hd. rewrite forallb_forall in Hd.
  assert (He : In e (doc_elems d)).
  { unfold doc_elems, forest_elems. apply in_or_app. left.
    apply in_flat_map. exists (Elem e kids). split; [exact Hn|left; reflexivity]. }
  apply (host_elem_no_id e (Hd e He)).
Qed.

(** The rule through the functions of the script. *)

Lemma R_hideNative st :
  kf_ruled (doc st) -> kf_ruled (doc (hideNativeHeaderButtons st)).
Proof. apply ruled_map_doc, hide_if_native_strip. Qed.

Lemma R_ensureKeyframe st :
  kf_ruled (doc st) -> kf_ruled (doc (ensureKeyframe st)).
Proof.
  intros Hf. unfold ensureKeyframe.
  destruct (getElementById KEYFRAME_ID (doc st)); [exact Hf|].
  unfold kf_ruled. simpl. apply Forall_app. split; [exact Hf|].
  constructor; [|constructor]. intros _. split; [reflexivity|].
  left. reflexivity.
Qed.

Lemma R_ensureReturnButton st :
  kf_ruled (doc st) -> kf_ruled (doc (ensureReturnButton st)).
Proof.
  intros Hf. apply R_hideNative in Hf. unfold ensureReturnButton. cbv zeta.
  destruct (getElementById BUTTON_ID _); [exact Hf|].
  destruct (find_elem (has_class "cl-header") (doc st)).
  - apply ruled_append_first, Hf.
  - destruct (getElementById BUTTON_CONTAINER_ID _).
    + apply ruled_append_first, Hf.
    + exact Hf.
Qed.

Lemma R_removeReturnButton st :
  kf_ruled (doc st) -> kf_ruled (doc (removeReturnButton st)).
Proof. apply ruled_remove_button_doc. Qed.

Lemma R_focus r st : kf_ruled (doc st) -> kf_ruled (doc (focus r st)).
Proof. destruct (focus_doc r st) as (-> & _). auto. Qed.

Lemma R_hideLanding b st :
  kf_ruled (doc st) -> kf_ruled (doc (hideLanding b st)).
Proof.
  intros Hf. destruct (landingRoot st) as [root|] eqn:Hr.
  - destruct (hideLanding_live b st root Hr) as (_ & _ & ->).
    apply ruled_update_ref; [reflexivity|exact Hf].
  - unfold hideLanding. rewrite Hr. exact Hf.
Qed.

Lemma R_showLanding b st :
  kf_ruled (doc st) -> kf_ruled (doc (showLanding b st)).
Proof.
  intros Hf. rewrite showLanding_unfold. cbv zeta.
  set (st1 := if b then _ else st).
  assert (H1 : kf_ruled (doc st1)) by (destruct b; exact Hf).
  set (st2 := removeReturnButton st1).
  assert (H2 : kf_ruled (doc st2)) by (apply R_removeReturnButton, H1).
  set (st3 := match landingRoot st2 with Some _ => _ | None => _ end).
  assert (H3 : kf_ruled (doc st3)).
  { subst st3. destruct (landingRoot st2) as [r|]; [|exact H2].
    apply (ruled_remove_ref r), H2. }
  apply R_ensureKeyframe in H3. exact H3.
Qed.

Lemma R_fire t st : kf_ruled (doc st) -> kf_ruled (doc (fire t st)).
Proof.
  intros Hf. destruct t as [b|root|root]; unfold fire; cbv zeta.
  - apply R_focus, Hf.
  - apply R_ensureReturnButton.
    assert (H1 : kf_ruled (remove_ref root (doc st)))
      by (apply ruled_remove_ref, Hf).
    destruct (landingRoot _) as [r|]; [|exact H1].
    destruct (ref_eqb r root); exact H1.
  - apply ruled_update_ref; [reflexivity|exact Hf].
Qed.

Lemma R_run_handler h key shiftKey st :
  kf_ruled (doc st) -> kf_ruled (doc (run_handler h key shiftKey st)).
Proof.
  intros Hf. destruct h; unfold run_handler; cbv zeta.
  - apply R_hideLanding, Hf.
  - destruct (String.eqb key "Escape"),
      (String.eqb key "Enter" && negb shiftKey);
      repeat apply R_hideLanding; exact Hf.
  - destruct (String.eqb key "Tab"); [|exact Hf].
    destruct (trap_target _ _ _); [apply R_focus|]; exact Hf.
  - apply ruled_update_ref; [reflexivity|exact Hf].
  - apply ruled_update_ref; [reflexivity|exact Hf].
  - apply R_showLanding, Hf.
Qed.

Lemma R_dispatch ty target key shiftKey st :
  kf_ruled (doc st) -> kf_ruled (doc (dispatch ty target key shiftKey st)).
Proof.
  unfold dispatch. generalize (flat_map (listeners_for ty)
    (if bubbles ty then event_path target (doc st)
     else firstn 1 (event_path target (doc st)))).
  intros hs. revert st. induction hs as [|h hs IH]; intros st Hf; simpl.
  - exact Hf.
  - apply IH, R_run_handler, Hf.
Qed.

Lemma R_on_mutations st :
  kf_ruled (doc st) -> kf_ruled (doc (on_mutations st)).
Proof. intros Hf. apply R_hideNative, R_ensureReturnButton, Hf. Qed.

Lemma R_setupObservers st :
  kf_ruled (doc st) -> kf_ruled (doc (setupObservers st)).
Proof.
  intros Hf. unfold setupObservers. destruct (observer st); [exact Hf|].
  apply R_hideNative, R_ensureReturnButton, Hf.
Qed.

Lemma R_init st : kf_ruled (doc st) -> kf_ruled (doc (init st)).
Proof.
  intros Hf. unfold init. cbv zeta. apply R_setupObservers.
  assert (H1 : kf_ruled (doc (hideNativeHeaderButtons (ensureKeyframe st))))
    by (apply R_hideNative, R_ensureKeyframe, Hf).
  destruct (flag_unset _); [apply R_showLanding|apply R_ensureReturnButton];
    exact H1.
Qed.

Lemma R_run_debug c st : kf_ruled (doc st) -> kf_ruled (doc (run_debug c st)).
Proof.
  intros Hf. destruct c; unfold run_debug.
  - apply R_showLanding, Hf.
  - apply R_hideLanding, Hf.
  - apply R_showLanding, Hf.
  - apply R_hideNative, Hf.
Qed.

Lemma R_act a st :
  keeps a = true -> kf_ruled (doc st) -> kf_ruled (doc (act a st)).
Proof.
  intros Hk Hf. destruct a as [c|ev]; unfold act.
  - destruct c; unfold run_call.
    + apply R_ensureReturnButton, Hf.
    + apply R_hideNative, Hf.
    + apply R_showLanding, Hf.
    + apply R_hideLanding, Hf.
    + apply R_ensureKeyframe, Hf.
    + apply R_removeReturnButton, Hf.
    + apply R_setupObservers, Hf.
    + apply R_init, Hf.
  - destruct ev; unfold step.
    + apply (ruled_host m (doc st) Hk Hf).
    + destruct (ready_listener st); [|exact Hf]. apply R_init, Hf.
    + destruct (pending st !! i); [|exact Hf]. apply R_fire, Hf.
    + destruct (observer st); [|exact Hf]. apply R_on_mutations, Hf.
    + apply R_dispatch, Hf.
    + apply R_focus, Hf.
    + destruct (debug_hook st); [|exact Hf]. apply R_run_debug, Hf.
Qed.

Lemma R_perform l st :
  forallb keeps l = true -> kf_ruled (doc st) -> kf_ruled (doc (perform l st)).
Proof.
  revert st. induction l as [|a l IH]; intros st Hl Hf; simpl; [exact Hf|].
  simpl in Hl. apply andb_true_iff in Hl as [Ha Hl].
  apply IH; [exact Hl|]. apply R_act; assumption.
Qed.

Lemma R_script pathname loading st :
  kf_ruled (doc st) -> kf_ruled (doc (script pathname loading st)).
Proof.
  intros Hf. unfold script.
  destruct (Str.startsWith pathname "/share"); [exact Hf|].
  destruct loading; [exact Hf|]. apply (R_init st Hf).
Qed.

Lemma registered_of_ruled d :
  kf_placed d -> count_id KEYFRAME_ID d = 1 -> kf_ruled d ->
  fadeIn_registered d.
Proof.
  intros Hp Hc Hf. rewrite (placed_count d Hp) in Hc. unfold top_kf in Hc.
  destruct (List.filter is_kf_node (doc_head d)) as [|n t] eqn:E;
    [discriminate Hc|].
  assert (Hn : In n (List.filter is_kf_node (doc_head d)))
    by (rewrite E; left; reflexivity).
  apply List.filter_In in Hn as [Hin Hkf].
  unfold kf_ruled in Hf. rewrite List.Forall_forall in Hf.
  specialize (Hf n Hin Hkf). destruct n as [e kids|s]; [|destruct Hf].
  destruct Hf as [Ht Hr]. exists e, kids. repeat split; assumption.
Qed.

Lemma ensureKeyframe_registers st :
  count_id KEYFRAME_ID (doc st) = 0 ->
  fadeIn_created (doc (ensureKeyframe st)).
Proof.
  intros Hz. apply getElementById_none in Hz. unfold ensureKeyframe.
  rewrite Hz. unfold fadeIn_created. simpl.
  eexists. split; [apply in_or_app; right; left; reflexivity|].
  split; reflexivity.
Qed.

(** C9.  On a page that starts with host content, after the script and
    any sequence of calls, timers, user events and host mutations, the
    document holds at most one keyframe definition, and exactly one after
    a call of [ensureKeyframe]; a second call changes nothing.  From then
    on the definition stays, and [ensureKeyframe] keeps changing nothing,
    through every sequence of calls, timers, user events and host
    insertions: nothing the script removes is or contains the definition.
    Only a removal by the host can take it away, and then the next call
    puts exactly one back.

    The definition is the animation [fadeIn]: when [ensureKeyframe] finds
    no element with the keyframe id, what it appends to [<head>] is a
    [<style>] element with that id whose content is exactly the rule
    [@keyframes fadeIn { ... }]; and as long as the host has removed
    nothing, the one element with the keyframe id is a [<style>] child of
    [<head>] that holds this rule, after [ensureKeyframe] and after every
    further sequence of calls, timers, user events and host insertions. *)
Theorem keyframe_registered_once
  (d : document) (store : gmap string string) (pathname : string)
  (loading : bool) (l l' : list action) :
  host_document d = true ->
  let st := perform l (script pathname loading (fresh_page d store)) in
  let st1 := ensureKeyframe st in
  count_id KEYFRAME_ID (doc st) <= 1
  /\ count_id KEYFRAME_ID (doc st1) = 1
  /\ ensureKeyframe st1 = st1
  /\ (forallb keeps l' = true ->
      count_id KEYFRAME_ID (doc (perform l' st1)) = 1
      /\ ensureKeyframe (perform l' st1) = perform l' st1)
  /\ count_id KEYFRAME_ID (doc (ensureKeyframe (perform l' st1))) = 1
  /\ (count_id KEYFRAME_ID (doc st) = 0 -> fadeIn_created (doc st1))
  /\ (forallb keeps l = true ->
      fadeIn_registered (doc st1)
      /\ (forallb keeps l' = true ->
          fadeIn_registered (doc (perform l' st1)))).
Proof.
  intros Hd st st1.
  assert (HI : Inv st) by (apply Inv_perform, Inv_script, Inv_fresh_page, Hd).
  assert (HK : KInv st) by (apply KInv_perform, KInv_script, KInv_fresh_page, Hd).
  assert (HI1 : Inv st1) by (apply Inv_ensureKeyframe, HI).
  assert (HK1 : KInv st1) by (apply K_ensureKeyframe, HK).
  assert (Hone : count_id KEYFRAME_ID (doc st1) = 1).
  { unfold st1. rewrite ensureKeyframe_count. pose proof (inv_keyframe _ HI). lia. }
  assert (HI2 : Inv (perform l' st1)) by (apply Inv_perform, HI1).
  assert (HK2 : KInv (perform l' st1)) by (apply KInv_perform, HK1).
  split; [apply (inv_keyframe _ HI)|].
  split; [exact Hone|].
  split; [apply ensureKeyframe_present; lia|].
  split.
  - intros Hl.
    assert (Hc : count_id KEYFRAME_ID (doc (perform l' st1)) = 1).
    { pose proof (K_perform_keeps l' st1 HK1 Hl) as Hm.
      rewrite <- !placed_count in Hm by (apply k_placed; assumption).
      pose proof (inv_keyframe _ HI2). lia. }
    split; [exact Hc|apply ensureKeyframe_present; lia].
  - split; [|split].
    + rewrite ensureKeyframe_count. pose proof (inv_keyframe _ HI2). lia.
    + apply ensureKeyframe_registers.
    + intros Hl.
      assert (HR1 : kf_ruled (doc st1)).
      { apply R_ensureKeyframe, R_perform; [exact Hl|].
        apply R_script, ruled_host_document, Hd. }
      split.
      * apply registered_of_ruled; [apply HK1|exact Hone|exact HR1].
      * intros Hl'. apply registered_of_ruled; [apply HK2| |].
        -- pose proof (K_perform_keeps l' st1 HK1 Hl') as Hm.
           rewrite <- !placed_count in Hm by (apply k_placed; assumption).
           pose proof (inv_keyframe _ HI2). lia.
        -- apply R_perform; assumption.
Qed.

Lemma keyframe_registered_once_witness :
  host_document demo_page = true
  /\ forallb keeps [ Call (CShowLanding true); Call (CHideLanding true);
                     Ext (EvTimer 0); Ext EvMutations ] = true
  /\ count_id KEYFRAME_ID
       (doc (perform [ Call (CShowLanding true); Call (CHideLanding true);
                       Ext (EvTimer 0); Ext EvMutations ]
               (ensureKeyframe
                  (perform [ Ext (EvHost (HRemove InHead [] 0)) ]
                     (script "/" false (fresh_page demo_page ∅)))))) = 1.
Proof.
  split; [reflexivity|]. split; [reflexivity|].
  exact (proj1 (proj1 (proj2 (proj2 (proj2
           (keyframe_registered_once demo_page ∅ "/" false
              [ Ext (EvHost (HRemove InHead [] 0)) ]
              [ Call (CShowLanding true); Call (CHideLanding true);
                Ext (EvTimer 0); Ext EvMutations ] eq_refl)))) eq_refl)).
Defined.

(** * Further properties of the script *)

(** ** A pass after a pass *)

(** A map that leaves every element of a tree as it is leaves the tree. *)
Lemma map_node_fixed f n :
  (forall e kids, In (Elem e kids) (subnodes n) -> f e kids = e) ->
  map_node f n = n.
Proof.
  induction n as [s|e kids IH] using node_induction; simpl; [reflexivity|].
  intros H. rewrite (H e kids (or_introl eq_refl)). f_equal.
  assert (Hk : forall x k, In (Elem x k) (flat_map subnodes kids) -> f x k = x)
    by (intros x k Hx; apply H; right; exact Hx).
  clear H. induction IH as [|y t Hy _ IHt]; simpl; [reflexivity|].
  rewrite Hy, IHt; [reflexivity| |];
    intros x k Hx; apply Hk; simpl; apply in_or_app; [right|left]; exact Hx.
Qed.

Lemma map_forest_fixed f l :
  (forall e kids, In (Elem e kids) (flat_map subnodes l) -> f e kids = e) ->
  List.map (map_node f) l = l.
Proof.
  induction l as [|x t IH]; simpl; [reflexivity|]. intros H.
  rewrite map_node_fixed, IH; [reflexivity| |];
    intros e k He; apply H; apply in_or_app; [right|left]; exact He.
Qed.

Lemma map_doc_fixed f d :
  (forall e kids, In (Elem e kids) (doc_nodes d) -> f e kids = e) ->
  map_doc f d = d.
Proof.
  intros H. destruct d as [h b]. unfold map_doc, doc_nodes in *. simpl in *.
  rewrite !map_forest_fixed; [reflexivity| |];
    intros e k He; apply H; apply in_or_app; [right|left]; exact He.
Qed.

Lemma set_style_same k v e :
  kv_get k (e_style e) = Some v -> set_style k v e = e.
Proof.
  intros H. destruct e as [r t a c s l]. unfold set_style. simpl in *.
  rewrite (kv_set_same _ _ _ H). reflexivity.
Qed.

(** On a document where every deny-listed candidate is hidden already,
    [hideNativeHeaderButtons] changes nothing. *)
Lemma hideNative_fixed st :
  all_hidden (doc st) -> hideNativeHeaderButtons st = st.
Proof.
  intros Hh. unfold hideNativeHeaderButtons.
  rewrite map_doc_fixed; [apply with_doc_same|].
  intros e kids Hin. unfold hide_if_native.
  destruct (candidate e) eqn:Hc; [|reflexivity].
  destruct (looks_like_readme e kids) eqn:Hr.
  - apply set_style_same, (Hh e kids Hin Hc). unfold denylisted.
    rewrite Hr. reflexivity.
  - destruct (looks_like_theme e) eqn:Ht; [|reflexivity].
    apply set_style_same, (Hh e kids Hin Hc). unfold denylisted.
    rewrite Hr, Ht. reflexivity.
Qed.

(** X1.  Reconciliation is idempotent: [hideNativeHeaderButtons],
    [ensureReturnButton] and the observer's callback each leave a state
    they have produced exactly as it is (same document, same counter). *)
Theorem reconcile_idempotent (st : state) :
  hideNativeHeaderButtons (hideNativeHeaderButtons st)
  = hideNativeHeaderButtons st
  /\ ensureReturnButton (ensureReturnButton st) = ensureReturnButton st
  /\ on_mutations (on_mutations st) = on_mutations st.
Proof.
  assert (Herb : forall s, all_hidden (doc s) ->
                           count_id BUTTON_ID (doc s) <> 0 ->
                           ensureReturnButton s = s).
  { intros s Hh Hc. unfold ensureReturnButton.
    rewrite (hideNative_fixed s Hh).
    destruct (getElementById BUTTON_ID (doc s)) eqn:Hg; [reflexivity|].
    apply getElementById_none in Hg. contradiction. }
  assert (Hcount : forall s, count_id BUTTON_ID (doc (ensureReturnButton s)) <> 0).
  { intros s. rewrite ensureReturnButton_count. lia. }
  split; [apply hideNative_fixed, hideNative_all_hidden|].
  split.
  - apply Herb; [apply ensureReturnButton_all_hidden|apply Hcount].
  - unfold on_mutations at 1.
    rewrite (Herb (on_mutations st)).
    + apply hideNative_fixed, hideNative_all_hidden.
    + apply hideNative_all_hidden.
    + unfold on_mutations. rewrite hideNative_count. apply Hcount.
Qed.

(** ** What a reconciliation pass leaves alone *)

Lemma return_added_length st : length (return_added st) <= 2.
Proof.
  unfold return_added.
  destruct (getElementById BUTTON_ID (doc st)); [simpl; lia|].
  destruct (find_elem (has_class "cl-header") (doc st)); [simpl; lia|].
  destruct (getElementById BUTTON_CONTAINER_ID (doc st)); simpl; lia.
Qed.

Lemma skeleton_length d : length (skeleton d) = length (doc_elems d).
Proof. unfold skeleton. apply length_map. Qed.

(** X2.  A reconciliation pass ([ensureReturnButton], or the observer's
    callback) never touches the overlay: [landingRoot], the pending
    callbacks, the focus and the observer flag are as before, the
    document holds as many overlay roots and keyframe definitions as
    before, every element it held is still there, and at most two
    elements (the button and its container) are new. *)
Theorem reconcile_leaves_overlay (st : state) :
  let s := on_mutations st in
  landingRoot s = landingRoot st
  /\ pending s = pending st
  /\ activeElement s = activeElement st
  /\ observer s = observer st
  /\ count_id LANDING_ID (doc s) = count_id LANDING_ID (doc st)
  /\ count_id KEYFRAME_ID (doc s) = count_id KEYFRAME_ID (doc st)
  /\ skeleton (doc st) ⊆+ skeleton (doc s)
  /\ length (doc_elems (doc s)) <= length (doc_elems (doc st)) + 2.
Proof.
  cbv zeta. unfold on_mutations.
  destruct (ensureReturnButton_frame st) as (Hl & Hp & _ & Ho & Ha & _).
  destruct (return_added_counts st) as (Cl & Ck & _ & _).
  pose proof (ensureReturnButton_grows st) as Hg.
  repeat split; simpl landingRoot; simpl pending; simpl activeElement;
    simpl observer; try assumption.
  - rewrite hideNative_count, (grows_count _ _ _ _ Hg). lia.
  - rewrite hideNative_count, (grows_count _ _ _ _ Hg). lia.
  - rewrite hideNative_skeleton. unfold grows in Hg. rewrite Hg.
    apply submseteq_inserts_r. reflexivity.
  - rewrite <- !skeleton_length, hideNative_skeleton.
    unfold grows in Hg. rewrite Hg, length_app, length_map.
    pose proof (return_added_length st). lia.
Qed.

(** ** The observer is installed once *)

Lemma showLanding_observer b st : observer (showLanding b st) = observer st.
Proof.
  rewrite showLanding_unfold. cbv zeta. unfold schedule. simpl observer.
  match goal with |- observer (ensureKeyframe ?s) = _ =>
    destruct (ensureKeyframe_frame s) as (_ & _ & _ & -> & _) end.
  match goal with |- context [match ?o with Some _ => _ | None => _ end] =>
    destruct o end; destruct b; reflexivity.
Qed.

Lemma ensureReturnButton_observer st :
  observer (ensureReturnButton st) = observer st.
Proof. apply ensureReturnButton_frame. Qed.

Lemma hideLanding_observer b st : observer (hideLanding b st) = observer st.
Proof. apply hideLanding_frame. Qed.

Lemma focus_observer r st : observer (focus r st) = observer st.
Proof. apply focus_doc. Qed.

Lemma fire_observer t st : observer (fire t st) = observer st.
Proof.
  destruct t; unfold fire.
  - apply focus_observer.
  - cbv zeta. rewrite ensureReturnButton_observer.
    simpl landingRoot. destruct (landingRoot st) as [r|]; [|reflexivity].
    destruct (ref_eqb r root); reflexivity.
  - reflexivity.
Qed.

Lemma run_handler_observer h key shiftKey st :
  observer (run_handler h key shiftKey st) = observer st.
Proof.
  destruct h; unfold run_handler.
  - apply hideLanding_observer.
  - cbv zeta. destruct (String.eqb key "Escape"),
             (String.eqb key "Enter" && negb shiftKey);
      rewrite ?hideLanding_observer; reflexivity.
  - destruct (String.eqb key "Tab"); [|reflexivity].
    destruct (trap_target _ _ _); [apply focus_observer|reflexivity].
  - reflexivity.
  - reflexivity.
  - apply showLanding_observer.
Qed.

Lemma dispatch_observer ty target key shiftKey st :
  observer (dispatch ty target key shiftKey st) = observer st.
Proof.
  unfold dispatch. generalize (flat_map (listeners_for ty)
    (if bubbles ty then event_path target (doc st)
     else firstn 1 (event_path target (doc st)))).
  intros hs. revert st. induction hs as [|h hs IH]; intros st; simpl.
  - reflexivity.
  - rewrite IH. apply run_handler_observer.
Qed.

Lemma setupObservers_installed st : observer (setupObservers st) = true.
Proof.
  unfold setupObservers. destruct (observer st) eqn:Ho; [exact Ho|].
  simpl. rewrite ensureReturnButton_observer. reflexivity.
Qed.

Lemma observer_stays a st : observer st = true -> observer (act a st) = true.
Proof.
  intros Ho. destruct a as [c|ev].
  - destruct c; unfold act, run_call.
    + rewrite ensureReturnButton_observer. exact Ho.
    + exact Ho.
    + rewrite showLanding_observer. exact Ho.
    + rewrite hideLanding_observer. exact Ho.
    + destruct (ensureKeyframe_frame st) as (_ & _ & _ & -> & _). exact Ho.
    + exact Ho.
    + apply setupObservers_installed.
    + unfold init. apply setupObservers_installed.
  - destruct ev; unfold act, step.
    + exact Ho.
    + destruct (ready_listener st); [|exact Ho]. unfold init.
      apply setupObservers_installed.
    + destruct (pending st !! i); [|exact Ho]. rewrite fire_observer. exact Ho.
    + rewrite Ho. unfold on_mutations. simpl observer.
      rewrite ensureReturnButton_observer. exact Ho.
    + rewrite dispatch_observer. exact Ho.
    + rewrite focus_observer. exact Ho.
    + destruct (debug_hook st); [|exact Ho]. destruct c; unfold run_debug.
      * rewrite showLanding_observer. exact Ho.
      * rewrite hideLanding_observer. exact Ho.
      * rewrite showLanding_observer. exact Ho.
      * exact Ho.
Qed.

(** X3.  [setupObservers] installs the observer and nothing ever
    uninstalls it: after a first call, and whatever calls, timers, user
    events and host mutations follow, the observer is installed and a
    further [setupObservers] changes nothing (it installs no second
    observer and runs no extra pass). *)
Theorem observer_installed_once (st : state) (l : list action) :
  let s := perform l (setupObservers st) in
  observer s = true /\ setupObservers s = s.
Proof.
  cbv zeta.
  assert (Ho : observer (perform l (setupObservers st)) = true).
  { generalize (setupObservers_installed st).
    generalize (setupObservers st). clear st.
    induction l as [|a l IH]; intros s Hs; simpl; [exact Hs|].
    apply IH, observer_stays, Hs. }
  split; [exact Ho|]. unfold setupObservers at 1. rewrite Ho. reflexivity.
Qed.

(** ** Start-up *)

Lemma reconcile_counts st :
  count_id LANDING_ID (doc (ensureReturnButton st)) = count_id LANDING_ID (doc st)
  /\ count_id KEYFRAME_ID (doc (ensureReturnButton st))
     = count_id KEYFRAME_ID (doc st).
Proof.
  destruct (return_added_counts st) as (Cl & Ck & _ & _).
  pose proof (ensureReturnButton_grows st) as Hg.
  rewrite !(grows_count _ _ _ _ Hg). lia.
Qed.

Lemma setupObservers_cases st :
  setupObservers st = (if observer st then st
                       else on_mutations (with_observer true st)).
Proof. reflexivity. Qed.

Lemma setupObservers_counts st :
  count_id LANDING_ID (doc (setupObservers st)) = count_id LANDING_ID (doc st)
  /\ count_id KEYFRAME_ID (doc (setupObservers st))
     = count_id KEYFRAME_ID (doc st)
  /\ count_id BUTTON_ID (doc (setupObservers st))
     = (if observer st then count_id BUTTON_ID (doc st)
        else Nat.max 1 (count_id BUTTON_ID (doc st))).
Proof.
  rewrite setupObservers_cases. destruct (observer st); [repeat split|].
  unfold on_mutations. rewrite !hideNative_count.
  destruct (reconcile_counts (with_observer true st)) as (-> & ->).
  rewrite ensureReturnButton_count. repeat split.
Qed.

Lemma setupObservers_frame st :
  landingRoot (setupObservers st) = landingRoot st
  /\ pending (setupObservers st) = pending st
  /\ sessionStorage (setupObservers st) = sessionStorage st
  /\ activeElement (setupObservers st) = activeElement st.
Proof.
  rewrite setupObservers_cases. destruct (observer st); [repeat split|].
  unfold on_mutations.
  destruct (ensureReturnButton_frame (with_observer true st))
    as (Hl & Hp & Hs & _ & Ha & _).
  repeat split; assumption.
Qed.

Lemma showLanding_schedules b st :
  exists k,
    next_ref st <= k
    /\ landingRoot (showLanding b st) = Some (Own k)
    /\ pending (showLanding b st)
       = pending st ++ [TFocus (Own (k + START_OFFSET)); TReveal (Own k)]
    /\ next_ref (showLanding b st) = k + OVERLAY_SIZE.
Proof.
  rewrite showLanding_unfold. cbv zeta.
  match goal with |- context [ensureKeyframe ?s] => set (st3 := s) end.
  assert (H3 : pending st3 = pending st /\ next_ref st3 = next_ref st).
  { subst st3. unfold removeReturnButton. simpl landingRoot.
    destruct b; simpl landingRoot; destruct (landingRoot st); repeat split. }
  destruct H3 as (Hp & Hn).
  destruct (ensureKeyframe_frame st3) as (_ & Hp4 & _ & _ & _ & Hn4).
  exists (next_ref (ensureKeyframe st3)).
  unfold buildLanding, schedule.
  cbn [fst snd pending landingRoot activeElement next_ref
       with_pending with_doc with_landingRoot with_next].
  rewrite Hp4, Hp, <- app_assoc.
  repeat split. lia.
Qed.




Lemma showLanding_keyframe b st :
  Inv st -> count_id KEYFRAME_ID (doc (showLanding b st)) = 1.
Proof.
  intros HI. destruct (Inv_showLanding b st HI) as (HI' & _).
  pose proof (inv_keyframe _ HI') as Hle.
  revert Hle. rewrite showLanding_unfold. cbv zeta.
  match goal with |- context [ensureKeyframe ?s] => set (st3 := s) end.
  unfold schedule. simpl doc.
  rewrite count_id_elems, append_to_body_elems, count_app, <- count_id_elems.
  rewrite ensureKeyframe_count.
  destruct (landing_tree_counts (next_ref (ensureKeyframe st3)))
    as (_ & _ & _ & ->).
  lia.
Qed.

Lemma flag_unset_storage st st' :
  sessionStorage st' = sessionStorage st -> flag_unset st' = flag_unset st.
Proof. unfold flag_unset. intros ->. reflexivity. Qed.

Lemma init_unfold st :
  init st =
  setupObservers
    (if flag_unset st
     then showLanding false (hideNativeHeaderButtons (ensureKeyframe st))
     else ensureReturnButton (hideNativeHeaderButtons (ensureKeyframe st))).
Proof.
  unfold init. cbv zeta. f_equal.
  rewrite (flag_unset_storage st (hideNativeHeaderButtons (ensureKeyframe st)));
    [reflexivity|].
  apply (ensureKeyframe_frame st).
Qed.

Lemma init_unset_counts st :
  Inv st -> observer st = false -> flag_unset st = true ->
  count_id LANDING_ID (doc (init st)) = 1
  /\ count_id BUTTON_ID (doc (init st)) = 1
  /\ count_id KEYFRAME_ID (doc (init st)) = 1.
Proof.
  intros HI Hobs Hflag. rewrite init_unfold, Hflag.
  set (st1 := hideNativeHeaderButtons (ensureKeyframe st)).
  assert (H1 : Inv st1) by (apply Inv_hideNative, Inv_ensureKeyframe, HI).
  destruct (ensureKeyframe_frame st) as (_ & _ & _ & Ho1 & _).
  destruct (setupObservers_counts (showLanding false st1)) as (Cl & Ck & Cb).
  rewrite showLanding_observer in Cb.
  change (observer st1) with (observer (ensureKeyframe st)) in Cb.
  rewrite Ho1, Hobs in Cb.
  repeat split.
  - rewrite Cl. apply Inv_showLanding, H1.
  - rewrite Cb, showLanding_button_count by exact H1. reflexivity.
  - rewrite Ck. apply showLanding_keyframe, H1.
Qed.

Lemma init_unset_frame st :
  flag_unset st = true ->
  (exists k, landingRoot (init st) = Some (Own k)
             /\ pending (init st)
                = pending st
                  ++ [TFocus (Own (k + START_OFFSET)); TReveal (Own k)])
  /\ sessionStorage (init st) = sessionStorage st.
Proof.
  intros Hflag. rewrite init_unfold, Hflag.
  set (st1 := hideNativeHeaderButtons (ensureKeyframe st)).
  destruct (ensureKeyframe_frame st) as (_ & Hp1 & Hs1 & _ & _ & _).
  destruct (setupObservers_frame (showLanding false st1)) as (Hl & Hp & Hs & _).
  destruct (showLanding_schedules false st1) as (k & _ & Hk & Hpk & _).
  split.
  - exists k. rewrite Hl, Hp, Hk, Hpk.
    change (pending st1) with (pending (ensureKeyframe st)). rewrite Hp1.
    split; reflexivity.
  - rewrite Hs, showLanding_storage. exact Hs1.
Qed.




Lemma init_set_counts st :
  Inv st -> flag_unset st = false ->
  count_id LANDING_ID (doc (init st)) = count_id LANDING_ID (doc st)
  /\ count_id BUTTON_ID (doc (init st)) = 1
  /\ count_id KEYFRAME_ID (doc (init st)) = 1.
Proof.
  intros HI Hflag. rewrite init_unfold, Hflag.
  set (st1 := hideNativeHeaderButtons (ensureKeyframe st)).
  assert (H1 : Inv st1) by (apply Inv_hideNative, Inv_ensureKeyframe, HI).
  destruct (setupObservers_counts (ensureReturnButton st1)) as (Cl & Ck & Cb).
  destruct (reconcile_counts st1) as (Rl & Rk).
  pose proof (ensureReturnButton_count st1) as Rb.
  pose proof (inv_button _ H1) as Bb.
  pose proof (inv_keyframe _ HI) as Bk.
  pose proof (ensureKeyframe_count st) as Kk.
  pose proof (ensureKeyframe_grows st) as Kg.
  destruct (keyframe_added_counts st) as (_ & _ & Kl & _).
  assert (E1 : forall i, count_id i (doc st1) = count_id i (doc (ensureKeyframe st)))
    by (intros i; apply hideNative_count).
  repeat split.
  - rewrite Cl, Rl, E1, (grows_count _ _ _ _ Kg). lia.
  - rewrite Cb, Rb. destruct (observer _); lia.
  - rewrite Ck, Rk, E1, Kk. lia.
Qed.

Lemma init_set_frame st :
  flag_unset st = false ->
  landingRoot (init st) = landingRoot st
  /\ pending (init st) = pending st
  /\ sessionStorage (init st) = sessionStorage st
  /\ activeElement (init st) = activeElement st.
Proof.
  intros Hflag. rewrite init_unfold, Hflag.
  set (st1 := hideNativeHeaderButtons (ensureKeyframe st)).
  destruct (ensureKeyframe_frame st) as (Hl1 & Hp1 & Hs1 & _ & Ha1 & _).
  destruct (ensureReturnButton_frame st1) as (Hl2 & Hp2 & Hs2 & _ & Ha2 & _).
  destruct (setupObservers_frame (ensureReturnButton st1)) as (Hl & Hp & Hs & Ha).
  repeat split.
  - rewrite Hl, Hl2. exact Hl1.
  - rewrite Hp, Hp2. exact Hp1.
  - rewrite Hs, Hs2. exact Hs1.
  - rewrite Ha, Ha2. exact Ha1.
Qed.

(** X5.  Start-up of a session that already dismissed the overlay (the
    flag holds a non-empty value): [init] builds no overlay and schedules
    nothing; it leaves exactly one return button and one keyframe
    definition, installs the observer, and leaves [landingRoot], the
    session storage and the focus as they were. *)
Theorem init_dismissed (st : state) :
  Inv st -> flag_unset st = false ->
  let s := init st in
  landingRoot s = landingRoot st
  /\ pending s = pending st
  /\ count_id LANDING_ID (doc s) = count_id LANDING_ID (doc st)
  /\ count_id BUTTON_ID (doc s) = 1
  /\ count_id KEYFRAME_ID (doc s) = 1
  /\ observer s = true
  /\ sessionStorage s = sessionStorage st
  /\ activeElement s = activeElement st.
Proof.
  intros HI Hflag. cbv zeta.
  destruct (init_set_counts st HI Hflag) as (Cl & Cb & Ck).
  destruct (init_set_frame st Hflag) as (Hl & Hp & Hs & Ha).
  assert (Ho : observer (init st) = true)
    by (unfold init; apply setupObservers_installed).
  repeat split; assumption.
Qed.

Lemma init_dismissed_witness :
  let s := init (fresh_page demo_page {[ STORAGE_KEY := "1" ]}) in
  landingRoot s = None /\ count_id BUTTON_ID (doc s) = 1.
Proof.
  assert (HI : Inv (fresh_page demo_page {[ STORAGE_KEY := "1" ]}))
    by (apply Inv_fresh_page; reflexivity).
  pose proof (init_dismissed (fresh_page demo_page {[ STORAGE_KEY := "1" ]})
                HI eq_refl) as H.
  cbv zeta in *.
  split; [exact (proj1 H)|exact (proj1 (proj2 (proj2 (proj2 H))))].
Defined.

(** ** The life of a detach callback *)

Lemma reachable_Inv st : reachable st -> Inv st.
Proof.
  intros (d & store & p & ld & l & Hd & ->).
  apply Inv_perform, Inv_script, Inv_fresh_page, Hd.
Qed.

Lemma reachable_KInv st : reachable st -> KInv st.
Proof.
  intros (d & store & p & ld & l & Hd & ->).
  apply KInv_perform, KInv_script, KInv_fresh_page, Hd.
Qed.

Lemma reachable_demo_open : reachable demo_open.
Proof. exists demo_page, ∅, "/", false, []. split; reflexivity. Qed.

Lemma landing_tree_own k a :
  In a (elems (landing_tree k)) -> exists j, e_ref a = Own j /\ k <= j.
Proof.
  simpl. unfold START_OFFSET. intros H.
  repeat (destruct H as [<-|H];
          [simpl; eexists; split; [reflexivity|lia]|]).
  destruct H.
Qed.

Lemma In_sublist (l1 l2 : list elem) e :
  l1 `sublist_of` l2 -> In e l1 -> In e l2.
Proof. intros H. apply In_submseteq, sublist_submseteq, H. Qed.

Lemma fire_detach_current st root :
  Inv st -> landingRoot st = Some root ->
  let s := fire (TDetach root) st in
  landingRoot s = None /\ pending s = pending st
  /\ count_id LANDING_ID (doc s) = 0
  /\ count_id BUTTON_ID (doc s) = 1
  /\ sessionStorage s = sessionStorage st.
Proof.
  intros HI Hl. cbv zeta. unfold fire. cbv zeta.
  change (landingRoot (blur_removed (doc st)
                         (with_doc (remove_ref root (doc st)) st)))
    with (landingRoot st).
  rewrite Hl, ref_eqb_refl.
  remember (with_landingRoot None
              (blur_removed (doc st) (with_doc (remove_ref root (doc st)) st)))
    as s2 eqn:E2.
  assert (Hd2 : doc s2 = remove_ref root (doc st)) by (subst s2; reflexivity).
  destruct (ensureReturnButton_frame s2) as (-> & -> & -> & _).
  destruct (reconcile_counts s2) as (-> & _).
  rewrite ensureReturnButton_count, Hd2.
  repeat split; try (subst s2; reflexivity).
  - apply (overlay_count_after_remove st root HI Hl).
  - pose proof (inv_button _ HI) as Hb.
    assert (count_id BUTTON_ID (remove_ref root (doc st))
            <= count_id BUTTON_ID (doc st)).
    { rewrite !count_id_elems. apply count_submseteq, sublist_submseteq,
        remove_ref_sublist. }
    lia.
Qed.

Lemma fire_detach_stale st root :
  in_document root (doc st) = false -> landingRoot st <> Some root ->
  fire (TDetach root) st = ensureReturnButton st.
Proof.
  intros Hn Hl. unfold fire. cbv zeta.
  rewrite (remove_ref_absent _ _ Hn), with_doc_same, blur_removed_same.
  destruct (landingRoot st) as [r|] eqn:E; [|reflexivity].
  destruct (ref_eqb r root) eqn:Er; [|reflexivity].
  apply ref_eqb_eq in Er. subst r. contradiction Hl. reflexivity.
Qed.

Lemma showLanding_doc b st :
  exists st3,
    doc (showLanding b st)
    = append_to_body (landing_tree (next_ref (ensureKeyframe st3)))
                     (doc (ensureKeyframe st3))
    /\ next_ref st3 = next_ref st
    /\ doc_elems (doc st3) `sublist_of` doc_elems (doc st)
    /\ (forall r, landingRoot st = Some r ->
                  Forall (fun e => ref_eqb (e_ref e) r = false)
                         (doc_elems (doc st3))).
Proof.
  rewrite showLanding_unfold. cbv zeta. eexists. split; [reflexivity|].
  unfold removeReturnButton. simpl landingRoot.
  assert (Hl : landingRoot (if b
                 then with_storage (delete STORAGE_KEY (sessionStorage st)) st
                 else st) = landingRoot st) by (destruct b; reflexivity).
  assert (Hd : doc (if b
                 then with_storage (delete STORAGE_KEY (sessionStorage st)) st
                 else st) = doc st) by (destruct b; reflexivity).
  assert (Hn : next_ref (if b
                 then with_storage (delete STORAGE_KEY (sessionStorage st)) st
                 else st) = next_ref st) by (destruct b; reflexivity).
  rewrite Hl. destruct (landingRoot st) as [r|]; simpl next_ref; simpl doc;
    rewrite Hd, Hn.
  - split; [reflexivity|]. split.
    + etransitivity; [apply remove_ref_sublist|apply remove_button_doc_sublist].
    + intros r' [= <-]. apply remove_ref_clears.
  - split; [reflexivity|]. split; [apply remove_button_doc_sublist|].
    intros r' [=].
Qed.

Lemma showLanding_elems b st e :
  In e (doc_elems (doc (showLanding b st))) ->
  (In (strip e) (skeleton (doc st))
   /\ forall r, landingRoot st = Some r -> e_ref e <> r)
  \/ exists j, e_ref e = Own j /\ next_ref st <= j.
Proof.
  destruct (showLanding_doc b st) as (st3 & -> & Hn & Hsub & Hclr).
  destruct (ensureKeyframe_frame st3) as (_ & _ & _ & _ & _ & Hle).
  rewrite append_to_body_elems, in_app_iff. intros [Hin|Hin].
  - assert (Hs : In (strip e) (skeleton (doc (ensureKeyframe st3))))
      by (apply in_skeleton; eauto).
    destruct (evolves_In _ _ _ _ (grows_evolves _ _ _ (ensureKeyframe_grows st3)) Hs)
      as [H3|Hk].
    + left. apply in_skeleton in H3. destruct H3 as (e0 & He0 & Hin0).
      assert (Hr : e_ref e = e_ref e0)
        by (apply (f_equal e_ref) in He0; exact He0).
      split.
      * rewrite He0. apply in_skeleton. exists e0. split; [reflexivity|].
        apply (In_sublist _ _ _ Hsub Hin0).
      * intros r Hlr. specialize (Hclr r Hlr).
        rewrite List.Forall_forall in Hclr. specialize (Hclr e0 Hin0).
        rewrite Hr. intros E. rewrite E, ref_eqb_refl in Hclr. discriminate.
    + right. unfold keyframe_added in Hk.
      destruct (getElementById KEYFRAME_ID (doc st3)); [destruct Hk|].
      simpl in Hk. destruct Hk as [Hk|[]].
      apply (f_equal e_ref) in Hk. simpl in Hk.
      exists (next_ref st3). split; [symmetry; exact Hk|lia].
  - right. destruct (landing_tree_own _ _ Hin) as (j & Hj & Hkj).
    exists j. split; [exact Hj|lia].
Qed.

(** X6.  A dismissal completes when its detach callback runs: once the
    callback scheduled by [hideLanding] has fired, the overlay is out of
    the document, [landingRoot] is cleared, the callback has left the
    queue, exactly one return button is attached, and the session
    storage is what [hideLanding] made it. *)
Theorem dismiss_completes (b : bool) (st : state) (root : ref) :
  reachable st -> landingRoot st = Some root ->
  let s := step (EvTimer (length (pending st))) (hideLanding b st) in
  landingRoot s = None
  /\ pending s = pending st
  /\ count_id LANDING_ID (doc s) = 0
  /\ count_id BUTTON_ID (doc s) = 1
  /\ sessionStorage s = (if b then <[STORAGE_KEY := "1"]> (sessionStorage st)
                         else sessionStorage st).
Proof.
  intros Hr Hl. cbv zeta. apply reachable_Inv in Hr.
  destruct (hideLanding_live b st root Hl) as (Hl' & Hp' & _).
  unfold step. rewrite Hp', (list_lookup_middle _ _ _ _ eq_refl).
  rewrite delete_middle, app_nil_r.
  assert (HI : Inv (with_pending (pending st) (hideLanding b st)))
    by (apply Inv_pending, Inv_hideLanding, Hr).
  destruct (fire_detach_current _ root HI Hl') as (H1 & H2 & H3 & H4 & H5).
  repeat split; try assumption.
  rewrite H5. simpl sessionStorage. rewrite hideLanding_storage, Hl.
  reflexivity.
Qed.

Lemma dismiss_completes_witness :
  let s := step (EvTimer (length (pending demo_open))) (hideLanding true demo_open) in
  landingRoot s = None /\ count_id BUTTON_ID (doc s) = 1.
Proof.
  pose proof (dismiss_completes true demo_open (Own 1) reachable_demo_open eq_refl)
    as H.
  cbv zeta in *. split; [exact (proj1 H)|exact (proj1 (proj2 (proj2 (proj2 H))))].
Defined.

(** X7.  A detach callback that outlived its overlay is harmless: when
    the overlay is dismissed and presented again before the callback of
    the dismissal has run, that callback finds its root detached and no
    longer current, so it only runs [ensureReturnButton]; the reopened
    overlay stays attached and stays the current root. *)
Theorem stale_detach_spares_reopened (b b' : bool) (st : state) (root : ref) :
  reachable st -> landingRoot st = Some root ->
  let s1 := showLanding b' (hideLanding b st) in
  let s := fire (TDetach root) s1 in
  s = ensureReturnButton s1
  /\ landingRoot s = landingRoot s1
  /\ landingRoot s <> Some root
  /\ landingRoot s <> None
  /\ count_id LANDING_ID (doc s) = 1.
Proof.
  intros Hr Hl. cbv zeta.
  pose proof (reachable_Inv _ Hr) as HI. pose proof (reachable_KInv _ Hr) as HK.
  destruct (hideLanding_live b st root Hl) as (Hl0 & _ & _).
  destruct (hideLanding_frame b st) as (_ & _ & Hn0 & _).
  assert (Hroot : owned_below (next_ref st) root).
  { apply (k_roots_fresh _ HK). unfold roots. rewrite Hl. left. reflexivity. }
  destruct (showLanding_schedules b' (hideLanding b st))
    as (k & Hk & Hlk & _).
  rewrite Hn0 in Hk.
  assert (Hne : landingRoot (showLanding b' (hideLanding b st)) <> Some root).
  { rewrite Hlk. intros [= <-]. simpl in Hroot. lia. }
  assert (Habs : in_document root (doc (showLanding b' (hideLanding b st))) = false).
  { apply in_document_false. intros e He.
    destruct (ref_eqb (e_ref e) root) eqn:E; [|reflexivity].
    apply ref_eqb_eq in E.
    destruct (showLanding_elems _ _ _ He) as [(_ & Hx)|(j & Hj & Hle)].
    - contradiction (Hx root Hl0).
    - rewrite Hn0 in Hle. rewrite <- E, Hj in Hroot. simpl in Hroot. lia. }
  rewrite (fire_detach_stale _ _ Habs Hne).
  destruct (ensureReturnButton_frame (showLanding b' (hideLanding b st)))
    as (Hlr & _).
  destruct (reconcile_counts (showLanding b' (hideLanding b st))) as (Cl & _).
  split; [reflexivity|]. split; [exact Hlr|]. rewrite Hlr, Cl.
  split; [exact Hne|]. split; [rewrite Hlk; discriminate|].
  apply Inv_showLanding, Inv_hideLanding, HI.
Qed.

Lemma stale_detach_spares_reopened_witness :
  let s1 := showLanding true (hideLanding true demo_open) in
  fire (TDetach (Own 1)) s1 = ensureReturnButton s1.
Proof.
  exact (proj1 (stale_detach_spares_reopened true true demo_open (Own 1)
                  reachable_demo_open eq_refl)).
Defined.

(** ** The focus after a dismissal *)

Section ComposerStyle.
Variable f : elem -> list node -> elem.
Hypothesis f_strip : forall e kids, strip (f e kids) = strip e.







End ComposerStyle.









(** ** Where the return button is put *)

Lemma no_button_forest_aux l :
  Forall (fun n => count is_btn (elems n) = 0 ->
                   is_button n = false /\ button_parent_node n = None) l ->
  count is_btn (forest_elems l) = 0 -> button_place_forest l = Absent.
Proof.
  induction 1 as [|x t Hx _ IH]; simpl; [reflexivity|].
  change (flat_map elems t) with (forest_elems t). rewrite count_app.
  intros Hc. destruct Hx as [-> ->]; [lia|]. apply IH. lia.
Qed.

Lemma no_button_node n :
  count is_btn (elems n) = 0 ->
  is_button n = false /\ button_parent_node n = None.
Proof.
  induction n as [s|e kids IH] using node_induction; [split; reflexivity|].
  change (elems (Elem e kids)) with (e :: forest_elems kids).
  rewrite count_cons. intros Hc. split.
  - change (is_btn e = false). destruct (is_btn e); [discriminate|reflexivity].
  - rewrite button_parent_node_unfold, (no_button_forest_aux kids IH);
      [reflexivity|]. destruct (is_btn e); [discriminate|exact Hc].
Qed.

Lemma no_button_forest l :
  count is_btn (forest_elems l) = 0 -> button_place_forest l = Absent.
Proof.
  apply no_button_forest_aux, List.Forall_forall. intros n _. apply no_button_node.
Qed.

Lemma place_append_last l c :
  count is_btn (forest_elems l) = 0 -> is_button c = true ->
  button_place_forest (l ++ [c]) = TopLevel.
Proof.
  intros Hc Hb. induction l as [|x t IH]; simpl.
  - rewrite Hb. reflexivity.
  - simpl in Hc. change (flat_map elems t) with (forest_elems t) in Hc.
    rewrite count_app in Hc.
    destruct (no_button_node x) as [-> ->]; [lia|]. apply IH. lia.
Qed.

Section PlaceAppend.
Variable p : elem -> bool.
Variable c : node.
Hypothesis c_button : is_button c = true.

Lemma place_append_forest_aux l :
  Forall (fun n => forall n', count is_btn (elems n) = 0 ->
                   append_node p c n = Some n' ->
                   exists e, button_parent_node n' = Some e /\ p e = true) l ->
  forall l', count is_btn (forest_elems l) = 0 ->
  append_forest p c l = Some l' ->
  exists e, button_place_forest l' = Under e /\ p e = true.
Proof.
  induction 1 as [|x t Hx _ IH]; intros l'; simpl; [discriminate|].
  change (flat_map elems t) with (forest_elems t). rewrite count_app.
  intros Hc. destruct (append_node p c x) as [x'|] eqn:Hx'.
  - intros [= <-]. destruct (Hx x') as (e & He & Hp); [lia|reflexivity|].
    exists e. split; [|exact Hp]. simpl. rewrite He.
    destruct x as [e0 kids0|s]; [|discriminate].
    destruct (append_node_shape _ _ _ _ _ Hx') as (kids' & ->).
    assert (Hb : is_button (Elem e0 kids0) = false)
      by (apply no_button_node; lia).
    change (is_button (Elem e0 kids')) with (is_button (Elem e0 kids0)).
    rewrite Hb. reflexivity.
  - destruct (append_forest p c t) as [t'|] eqn:Ht; [|discriminate].
    intros [= <-]. destruct (IH t') as (e & He & Hp); [lia|reflexivity|].
    exists e. split; [|exact Hp]. simpl.
    destruct (no_button_node x) as [-> ->]; [lia|]. exact He.
Qed.

Lemma place_append_node n :
  forall n', count is_btn (elems n) = 0 ->
  append_node p c n = Some n' ->
  exists e, button_parent_node n' = Some e /\ p e = true.
Proof.
  induction n as [s|e kids IH] using node_induction; intros n'; [discriminate|].
  change (elems (Elem e kids)) with (e :: forest_elems kids).
  rewrite count_cons, append_node_unfold. intros Hc.
  assert (Hk : count is_btn (forest_elems kids) = 0) by lia.
  destruct (p e) eqn:Hp.
  - intros [= <-]. exists e. split; [|exact Hp].
    rewrite button_parent_node_unfold, (place_append_last _ _ Hk c_button).
    reflexivity.
  - destruct (append_forest p c kids) as [kids'|] eqn:Hf; [|discriminate].
    intros [= <-].
    destruct (place_append_forest_aux kids IH kids' Hk Hf) as (e' & He' & Hp').
    exists e'. split; [|exact Hp'].
    rewrite button_parent_node_unfold, He'. reflexivity.
Qed.

Lemma place_append_forest l l' :
  count is_btn (forest_elems l) = 0 ->
  append_forest p c l = Some l' ->
  exists e, button_place_forest l' = Under e /\ p e = true.
Proof.
  apply place_append_forest_aux, List.Forall_forall.
  intros n _. apply place_append_node.
Qed.

Lemma place_append_first d :
  count_id BUTTON_ID d = 0 -> count p (doc_elems d) <> 0 ->
  exists e, button_place (append_first p c d) = Under e /\ p e = true.
Proof.
  rewrite count_id_elems. unfold doc_elems. rewrite !count_app.
  change (has_id BUTTON_ID) with is_btn. intros Hb Hp.
  assert (Hb1 : count is_btn (forest_elems (doc_head d)) = 0) by lia.
  assert (Hb2 : count is_btn (forest_elems (doc_body d)) = 0) by lia.
  unfold append_first, button_place.
  destruct (append_forest p c (doc_head d)) as [h|] eqn:Hh.
  - destruct (place_append_forest _ _ Hb1 Hh) as (e & He & Hpe).
    exists e. simpl. rewrite He. split; [reflexivity|exact Hpe].
  - apply append_forest_none in Hh.
    destruct (append_forest p c (doc_body d)) as [bd|] eqn:Hbd.
    + destruct (place_append_forest _ _ Hb2 Hbd) as (e & He & Hpe).
      exists e. simpl. rewrite (no_button_forest (doc_head d)) by lia.
      split; [exact He|exact Hpe].
    + apply append_forest_none in Hbd. lia.
Qed.

End PlaceAppend.

Lemma place_append_container k btn d :
  is_button btn = true -> count_id BUTTON_ID d = 0 ->
  exists e, button_place (append_to_body (container_node k [btn]) d) = Under e
            /\ has_id BUTTON_CONTAINER_ID e = true.
Proof.
  rewrite count_id_elems. unfold doc_elems. rewrite count_app.
  change (has_id BUTTON_ID) with is_btn. intros Hb Hc.
  exists (mkElem (Own k) "div" [ ("id", BUTTON_CONTAINER_ID) ] [] [] []).
  split; [|reflexivity].
  unfold button_place, append_to_body. simpl doc_head. simpl doc_body.
  rewrite (no_button_forest (doc_head d)) by lia.
  assert (Hbody : count is_btn (forest_elems (doc_body d)) = 0) by lia.
  clear Hc. induction (doc_body d) as [|x t IH]; simpl.
  - rewrite Hb. reflexivity.
  - simpl in Hbody. change (flat_map elems t) with (forest_elems t) in Hbody.
    rewrite count_app in Hbody.
    destruct (no_button_node x) as [-> ->]; [lia|]. apply IH. lia.
Qed.

(** X9.  Where [ensureReturnButton] puts a new button: when no return
    button is attached, the button it creates becomes a child of an
    element of class [cl-header] if the document has one, and no
    container is created; otherwise it becomes a child of the floating
    container, which is reused when one is attached and created (once)
    when none is. *)
Theorem return_button_placement (st : state) :
  count_id BUTTON_ID (doc st) = 0 ->
  exists p,
    button_place (doc (ensureReturnButton st)) = Under p
    /\ match find_elem (has_class "cl-header") (doc st) with
       | Some _ =>
           has_class "cl-header" p = true
           /\ count_id BUTTON_CONTAINER_ID (doc (ensureReturnButton st))
              = count_id BUTTON_CONTAINER_ID (doc st)
       | None =>
           has_id BUTTON_CONTAINER_ID p = true
           /\ count_id BUTTON_CONTAINER_ID (doc (ensureReturnButton st))
              = Nat.max 1 (count_id BUTTON_CONTAINER_ID (doc st))
       end.
Proof.
  intros Hz.
  pose proof (ensureReturnButton_grows st) as Hg.
  rewrite (grows_count BUTTON_CONTAINER_ID _ _ _ Hg). clear Hg.
  unfold ensureReturnButton, return_added.
  pose proof (getElementById_hidden BUTTON_ID st) as Hb.
  pose proof (getElementById_hidden BUTTON_CONTAINER_ID st) as Hc.
  pose proof (hideNative_skeleton st) as Hs.
  pose proof (hideNative_count BUTTON_ID st) as Hz1. rewrite Hz in Hz1.
  set (st1 := hideNativeHeaderButtons st) in *.
  assert (Hn : next_ref st1 = next_ref st) by reflexivity.
  apply getElementById_none in Hz. rewrite Hz.
  rewrite (proj2 Hb Hz). cbv zeta.
  destruct (find_elem (has_class "cl-header") (doc st)) eqn:Hh.
  - simpl doc.
    destruct (place_append_first (has_class "cl-header")
                (return_button (next_ref st1) ["cl-button-ghost"; "cu-landing-return"])
                eq_refl (doc st1) Hz1) as (p & Hp & Hcl).
    + intros Hk. apply find_none_count in Hk.
      apply (find_elem_skeleton _ _ _ (has_class_blind "cl-header") Hs) in Hk.
      congruence.
    + exists p. split; [exact Hp|]. split; [exact Hcl|].
      change (count (has_id BUTTON_CONTAINER_ID) (elems (return_button _ _)))
        with 0. lia.
  - destruct (getElementById BUTTON_CONTAINER_ID (doc st1)) eqn:Hc1.
    + destruct (getElementById BUTTON_CONTAINER_ID (doc st)) eqn:Hc0.
      2:{ destruct Hc as [_ Hc]. discriminate (Hc eq_refl). }
      simpl doc.
      destruct (place_append_first (has_id BUTTON_CONTAINER_ID)
                  (return_button (next_ref st1) ["cu-landing-return-floating"])
                  eq_refl (doc st1) Hz1) as (p & Hp & Hcl).
      * intros Hk. apply find_none_count in Hk.
        unfold getElementById, find_elem in Hc1. congruence.
      * exists p. split; [exact Hp|]. split; [exact Hcl|].
        change (count (has_id BUTTON_CONTAINER_ID) (elems (return_button _ _)))
          with 0.
        assert (count_id BUTTON_CONTAINER_ID (doc st) <> 0).
        { intros Hk. apply getElementById_none in Hk. congruence. }
        lia.
    + destruct (getElementById BUTTON_CONTAINER_ID (doc st)) eqn:Hc0.
      { destruct Hc as [Hc _]. discriminate (Hc eq_refl). }
      simpl doc.
      destruct (place_append_container (next_ref st1 + 1)
                  (return_button (next_ref st1) ["cu-landing-return-floating"])
                  (doc st1) eq_refl Hz1) as (p & Hp & Hcl).
      exists p. split; [exact Hp|]. split; [exact Hcl|].
      apply getElementById_none in Hc0. rewrite Hc0. reflexivity.
Qed.

Lemma return_button_placement_witness :
  exists p, button_place (doc (ensureReturnButton (fresh_page demo_page ∅)))
            = Under p /\ has_class "cl-header" p = true.
Proof.
  destruct (return_button_placement (fresh_page demo_page ∅) eq_refl)
    as (p & Hp & Hc & _).
  exists p. split; assumption.
Defined.

(** ** Creating the return button and removing it again *)

Lemma no_button_remove_aux l :
  Forall (fun n => count is_btn (elems n) = 0 -> remove_button_node n = None) l ->
  count is_btn (forest_elems l) = 0 -> remove_button_forest l = NoButton.
Proof.
  induction 1 as [|x t Hx _ IH]; simpl; [reflexivity|].
  change (flat_map elems t) with (forest_elems t). rewrite count_app.
  intros Hc. destruct (no_button_node x) as [-> _]; [lia|].
  rewrite Hx, IH by lia. reflexivity.
Qed.

Lemma no_button_remove_node n :
  count is_btn (elems n) = 0 -> remove_button_node n = None.
Proof.
  induction n as [s|e kids IH] using node_induction; [reflexivity|].
  change (elems (Elem e kids)) with (e :: forest_elems kids).
  rewrite count_cons. intros Hc.
  rewrite remove_button_node_unfold, (no_button_remove_aux kids IH);
    [reflexivity|lia].
Qed.

Lemma no_button_remove_forest l :
  count is_btn (forest_elems l) = 0 -> remove_button_forest l = NoButton.
Proof.
  apply no_button_remove_aux, List.Forall_forall.
  intros n _. apply no_button_remove_node.
Qed.

Lemma remove_appended_last l c :
  count is_btn (forest_elems l) = 0 -> is_button c = true ->
  remove_button_forest (l ++ [c]) = ChildGone l.
Proof.
  intros Hc Hb. induction l as [|x t IH]; simpl.
  - rewrite Hb. reflexivity.
  - simpl in Hc. change (flat_map elems t) with (forest_elems t) in Hc.
    rewrite count_app in Hc.
    destruct (no_button_node x) as [-> _]; [lia|].
    rewrite (no_button_remove_node x), IH by lia. reflexivity.
Qed.

Section RemoveAppended.
Variable p : elem -> bool.
Variable c : node.
Hypothesis c_button : is_button c = true.

Lemma remove_appended_forest_aux l :
  Forall (fun n => forall n', count is_btn (elems n) = 0 ->
                   count is_cont (elems n) = 0 ->
                   append_node p c n = Some n' ->
                   remove_button_node n' = Some [n]) l ->
  forall l', count is_btn (forest_elems l) = 0 ->
  count is_cont (forest_elems l) = 0 ->
  append_forest p c l = Some l' ->
  remove_button_forest l' = Deeper l.
Proof.
  induction 1 as [|x t Hx _ IH]; intros l'; simpl; [discriminate|].
  change (flat_map elems t) with (forest_elems t). rewrite !count_app.
  intros Hb Hc. destruct (append_node p c x) as [x'|] eqn:Hx'.
  - intros [= <-]. simpl. rewrite (Hx x') by (lia || reflexivity).
    destruct x as [e0 kids0|s]; [|discriminate].
    destruct (append_node_shape _ _ _ _ _ Hx') as (kids' & ->).
    assert (H0 : is_button (Elem e0 kids0) = false)
      by (apply no_button_node; lia).
    change (is_button (Elem e0 kids')) with (is_button (Elem e0 kids0)).
    rewrite H0. reflexivity.
  - destruct (append_forest p c t) as [t'|] eqn:Ht; [|discriminate].
    intros [= <-]. simpl.
    destruct (no_button_node x) as [-> _]; [lia|].
    rewrite (no_button_remove_node x), (IH t') by (lia || reflexivity).
    reflexivity.
Qed.

Lemma remove_appended_node n :
  forall n', count is_btn (elems n) = 0 ->
  count is_cont (elems n) = 0 ->
  append_node p c n = Some n' ->
  remove_button_node n' = Some [n].
Proof.
  induction n as [s|e kids IH] using node_induction; intros n'; [discriminate|].
  change (elems (Elem e kids)) with (e :: forest_elems kids).
  rewrite !count_cons, append_node_unfold. intros Hb Hc.
  assert (Hkb : count is_btn (forest_elems kids) = 0) by lia.
  assert (Hkc : count is_cont (forest_elems kids) = 0) by lia.
  assert (He : has_id BUTTON_CONTAINER_ID e = false).
  { change (is_cont e = false). destruct (is_cont e); [discriminate|reflexivity]. }
  destruct (p e).
  - intros [= <-].
    rewrite remove_button_node_unfold, (remove_appended_last _ _ Hkb c_button), He.
    reflexivity.
  - destruct (append_forest p c kids) as [kids'|] eqn:Hf; [|discriminate].
    intros [= <-].
    rewrite remove_button_node_unfold,
      (remove_appended_forest_aux kids IH kids' Hkb Hkc Hf).
    reflexivity.
Qed.

Lemma remove_appended_forest l l' :
  count is_btn (forest_elems l) = 0 ->
  count is_cont (forest_elems l) = 0 ->
  append_forest p c l = Some l' ->
  remove_button_forest l' = Deeper l.
Proof.
  apply remove_appended_forest_aux, List.Forall_forall.
  intros n _. apply remove_appended_node.
Qed.

Lemma remove_appended_first d :
  count_id BUTTON_ID d = 0 -> count_id BUTTON_CONTAINER_ID d = 0 ->
  count p (doc_elems d) <> 0 ->
  remove_button_doc (append_first p c d) = d.
Proof.
  rewrite !count_id_elems. unfold doc_elems. rewrite !count_app.
  change (has_id BUTTON_ID) with is_btn.
  change (has_id BUTTON_CONTAINER_ID) with is_cont. intros Hb Hc Hp.
  assert (Hb1 : count is_btn (forest_elems (doc_head d)) = 0) by lia.
  assert (Hb2 : count is_btn (forest_elems (doc_body d)) = 0) by lia.
  assert (Hc1 : count is_cont (forest_elems (doc_head d)) = 0) by lia.
  assert (Hc2 : count is_cont (forest_elems (doc_body d)) = 0) by lia.
  unfold append_first, remove_button_doc.
  destruct (append_forest p c (doc_head d)) as [h|] eqn:Hh.
  - simpl. rewrite (remove_appended_forest _ _ Hb1 Hc1 Hh).
    destruct d; reflexivity.
  - apply append_forest_none in Hh.
    destruct (append_forest p c (doc_body d)) as [bd|] eqn:Hbd.
    + simpl. rewrite (no_button_remove_forest _ Hb1),
        (remove_appended_forest _ _ Hb2 Hc2 Hbd).
      destruct d; reflexivity.
    + apply append_forest_none in Hbd. lia.
Qed.

End RemoveAppended.

Lemma remove_appended_container k btn d :
  is_button btn = true -> count_id BUTTON_ID d = 0 ->
  remove_button_doc (append_to_body (container_node k [btn]) d) = d.
Proof.
  rewrite count_id_elems. unfold doc_elems. rewrite count_app.
  change (has_id BUTTON_ID) with is_btn. intros Hb Hc.
  assert (Hb1 : count is_btn (forest_elems (doc_head d)) = 0) by lia.
  assert (Hb2 : count is_btn (forest_elems (doc_body d)) = 0) by lia.
  unfold remove_button_doc, append_to_body. simpl doc_head. simpl doc_body.
  rewrite (no_button_remove_forest _ Hb1).
  assert (Hr : remove_button_forest (doc_body d ++ [container_node k [btn]])
               = Deeper (doc_body d)).
  { clear Hc. induction (doc_body d) as [|x t IH]; simpl.
    - rewrite Hb. reflexivity.
    - simpl in Hb2. change (flat_map elems t) with (forest_elems t) in Hb2.
      rewrite count_app in Hb2.
      destruct (no_button_node x) as [-> _]; [lia|].
      rewrite (no_button_remove_node x), IH by lia. reflexivity. }
  rewrite Hr. destruct d; reflexivity.
Qed.

(** X10.  Creating the return button and removing it again is a round
    trip: on a document with no return button and no floating container,
    [removeReturnButton] after [ensureReturnButton] gives back the
    document as the hiding pass left it, whether the button went into the
    header or into a new floating container (which is removed with it). *)
Theorem ensure_then_remove_restores (st : state) :
  count_id BUTTON_ID (doc st) = 0 ->
  count_id BUTTON_CONTAINER_ID (doc st) = 0 ->
  doc (removeReturnButton (ensureReturnButton st))
  = doc (hideNativeHeaderButtons st).
Proof.
  intros Hz Hcz. unfold removeReturnButton. simpl doc.
  unfold ensureReturnButton.
  pose proof (getElementById_hidden BUTTON_ID st) as Hb.
  pose proof (getElementById_hidden BUTTON_CONTAINER_ID st) as Hc.
  pose proof (hideNative_skeleton st) as Hs.
  pose proof (hideNative_count BUTTON_ID st) as Hz1. rewrite Hz in Hz1.
  pose proof (hideNative_count BUTTON_CONTAINER_ID st) as Hc1.
  rewrite Hcz in Hc1.
  set (st1 := hideNativeHeaderButtons st) in *.
  apply getElementById_none in Hz. apply getElementById_none in Hcz.
  rewrite (proj2 Hb Hz), (proj2 Hc Hcz). cbv zeta.
  destruct (find_elem (has_class "cl-header") (doc st)) eqn:Hh; simpl doc.
  - apply remove_appended_first; [reflexivity|exact Hz1|exact Hc1|].
    intros Hk. apply find_none_count in Hk.
    apply (find_elem_skeleton _ _ _ (has_class_blind "cl-header") Hs) in Hk.
    congruence.
  - apply remove_appended_container; [reflexivity|exact Hz1].
Qed.

Lemma ensure_then_remove_restores_witness :
  doc (removeReturnButton (ensureReturnButton (fresh_page demo_page ∅)))
  = doc (hideNativeHeaderButtons (fresh_page demo_page ∅)).
Proof.
  exact (ensure_then_remove_restores (fresh_page demo_page ∅) eq_refl eq_refl).
Defined.

(** ** The focus trap away from the two ends *)

Lemma indexOf_absent (l : list ref) a : ~ In a l -> indexOf l a = (-1)%Z.
Proof.
  induction l as [|x t IH]; simpl; [reflexivity|]. intros Hn.
  destruct (ref_eqb x a) eqn:E.
  - apply ref_eqb_eq in E. contradiction Hn. left. exact E.
  - rewrite IH by (intros H; apply Hn; right; exact H). reflexivity.
Qed.

Lemma trap_target_in items a shiftKey r :
  trap_target items a shiftKey = Some r -> In r items.
Proof.
  unfold trap_target. destruct items as [|first rest]; [discriminate|].
  destruct shiftKey.
  - destruct (_ <=? 0)%Z; [|discriminate]. apply nth_error_In.
  - destruct (_ =? _)%Z; [|discriminate]. intros [= <-]. left. reflexivity.
Qed.

Lemma tab_unfold root shiftKey st :
  run_handler (OnRootKeyTrap root) "Tab" shiftKey st
  = match trap_target (focusable root (doc st)) (activeElement st) shiftKey with
    | Some r => focus r st
    | None => st
    end.
Proof. reflexivity. Qed.

(** X11.  The Tab handler of the overlay acts only at the two ends of
    the list of focusable elements.  It never touches anything but the
    focus, and the element it focuses belongs to the overlay; keys other
    than Tab are ignored; with the focus outside the list (or nowhere),
    Tab is left to the browser while Shift+Tab jumps to the last
    element; with the focus strictly between the first and the last
    element, both are left to the browser. *)
Theorem focus_trap_only_at_ends (st : state) (root : ref) (shiftKey : bool) :
  let items := focusable root (doc st) in
  (run_handler (OnRootKeyTrap root) "Tab" shiftKey st = st
   \/ exists r, In r items
                /\ run_handler (OnRootKeyTrap root) "Tab" shiftKey st
                   = with_active (Some r) st)
  /\ (forall key, String.eqb key "Tab" = false ->
                  run_handler (OnRootKeyTrap root) key shiftKey st = st)
  /\ (items <> [] ->
      match activeElement st with Some a => ~ In a items | None => True end ->
      run_handler (OnRootKeyTrap root) "Tab" false st = st
      /\ activeElement (run_handler (OnRootKeyTrap root) "Tab" true st)
         = Some (List.last items root))
  /\ (forall i a, List.NoDup items -> nth_error items i = Some a ->
                  activeElement st = Some a -> 0 < i < length items - 1 ->
                  run_handler (OnRootKeyTrap root) "Tab" shiftKey st = st).
Proof.
  cbv zeta. split; [|split; [|split]].
  - rewrite tab_unfold.
    destruct (trap_target _ _ _) as [r|] eqn:Ht; [right|left; reflexivity].
    apply trap_target_in in Ht. exists r. split; [exact Ht|].
    unfold focus. rewrite (focusable_in_document root _ _ Ht). reflexivity.
  - intros key Hk. unfold run_handler. rewrite Hk. reflexivity.
  - intros Hne Hout.
    assert (Hidx : active_index (focusable root (doc st)) (activeElement st)
                   = (-1)%Z).
    { unfold active_index. destruct (activeElement st) as [a|];
        [apply indexOf_absent, Hout|reflexivity]. }
    pose proof (nth_error_last (focusable root (doc st)) root Hne) as Hlast.
    rewrite !tab_unfold. unfold trap_target. rewrite Hidx.
    destruct (focusable root (doc st)) as [|first rest] eqn:Hf;
      [contradiction Hne; reflexivity|].
    split.
    + replace (-1 =? Z.of_nat (length (first :: rest)) - 1)%Z with false;
        [reflexivity|].
      symmetry. apply Z.eqb_neq. simpl length. lia.
    + change (-1 <=? 0)%Z with true. cbv iota. rewrite Hlast.
      apply focus_sets_active, (focusable_in_document root).
      rewrite Hf. eapply nth_error_In. exact Hlast.
  - intros i a Hnd Hi Ha Hrange.
    rewrite tab_unfold. unfold trap_target, active_index. rewrite Ha.
    rewrite (indexOf_nth _ _ _ Hnd Hi).
    destruct (focusable root (doc st)) as [|first rest]; [reflexivity|].
    destruct shiftKey.
    + replace (Z.of_nat i <=? 0)%Z with false; [reflexivity|].
      symmetry. apply Z.leb_gt. lia.
    + replace (Z.of_nat i =? Z.of_nat (length (first :: rest)) - 1)%Z
        with false; [reflexivity|].
      symmetry. apply Z.eqb_neq. lia.
Qed.

Lemma focus_trap_only_at_ends_witness :
  run_handler (OnRootKeyTrap (Own 1)) "Tab" false demo_open = demo_open
  /\ activeElement (run_handler (OnRootKeyTrap (Own 1)) "Tab" true demo_open)
     = Some (List.last (focusable (Own 1) (doc demo_open)) (Own 1)).
Proof.
  assert (Hne : focusable (Own 1) (doc demo_open) <> [])
    by (vm_compute; discriminate).
  assert (Hout : match activeElement demo_open with
                 | Some a => ~ In a (focusable (Own 1) (doc demo_open))
                 | None => True
                 end) by (vm_compute; exact I).
  exact (proj1 (proj2 (proj2 (focus_trap_only_at_ends demo_open (Own 1) false)))
           Hne Hout).
Defined.

(** ** Events inside the overlay *)

Lemma path_to_unfold r e kids :
  path_to r (Elem e kids) =
  if ref_eqb (e_ref e) r then Some [e]
  else option_map (fun p => p ++ [e]) (path_in_forest r kids).
Proof. reflexivity. Qed.

Lemma rebase_ref_eqb k a r :
  ref_eqb (rebase_ref k a) (rebase_ref k r) = ref_eqb a r.
Proof.
  destruct a as [x|x], r as [y|y]; simpl; try reflexivity.
  destruct (Nat.eqb_spec x y) as [->|Hn].
  - apply Nat.eqb_refl.
  - apply Nat.eqb_neq. lia.
Qed.

Lemma path_in_forest_rebase_aux k r l :
  Forall (fun n => path_to (rebase_ref k r)
                     (map_node (fun e _ => rebase_elem k e) n)
                   = option_map (List.map (rebase_elem k)) (path_to r n)) l ->
  path_in_forest (rebase_ref k r)
    (List.map (map_node (fun e _ => rebase_elem k e)) l)
  = option_map (List.map (rebase_elem k)) (path_in_forest r l).
Proof.
  induction 1 as [|x t Hx _ IH]; simpl; [reflexivity|].
  rewrite Hx, IH. destruct (path_to r x); reflexivity.
Qed.

Lemma path_to_rebase k r n :
  path_to (rebase_ref k r) (map_node (fun e _ => rebase_elem k e) n)
  = option_map (List.map (rebase_elem k)) (path_to r n).
Proof.
  induction n as [s|e kids IH] using node_induction; [reflexivity|].
  change (map_node (fun e _ => rebase_elem k e) (Elem e kids))
    with (Elem (rebase_elem k e)
               (List.map (map_node (fun e _ => rebase_elem k e)) kids)).
  rewrite !path_to_unfold.
  change (e_ref (rebase_elem k e)) with (rebase_ref k (e_ref e)).
  rewrite rebase_ref_eqb, (path_in_forest_rebase_aux k r kids IH).
  destruct (ref_eqb (e_ref e) r); [reflexivity|].
  destruct (path_in_forest r kids); simpl; [|reflexivity].
  rewrite List.map_app. reflexivity.
Qed.

Lemma listeners_for_rebase ty k e :
  listeners_for ty (rebase_elem k e)
  = List.map (rebase_handler k) (listeners_for ty e).
Proof.
  unfold listeners_for, rebase_elem. simpl.
  induction (e_listeners e) as [|[t h] l IH]; simpl; [reflexivity|].
  destruct (evtype_eqb t ty); simpl; rewrite IH; reflexivity.
Qed.

Lemma flat_listeners_rebase ty k p :
  flat_map (listeners_for ty) (List.map (rebase_elem k) p)
  = List.map (rebase_handler k) (flat_map (listeners_for ty) p).
Proof.
  induction p as [|e t IH]; simpl; [reflexivity|].
  rewrite listeners_for_rebase, IH, List.map_app. reflexivity.
Qed.

Lemma path_in_forest_none_aux r l :
  Forall (fun n => (forall e, In e (elems n) -> ref_eqb (e_ref e) r = false) ->
                   path_to r n = None) l ->
  (forall e, In e (forest_elems l) -> ref_eqb (e_ref e) r = false) ->
  path_in_forest r l = None.
Proof.
  induction 1 as [|x t Hx _ IH]; simpl; intros Hn; [reflexivity|].
  rewrite Hx, IH; [reflexivity| |];
    intros e He; apply Hn, in_or_app; [right|left]; exact He.
Qed.

Lemma path_to_none r n :
  (forall e, In e (elems n) -> ref_eqb (e_ref e) r = false) ->
  path_to r n = None.
Proof.
  induction n as [s|e kids IH] using node_induction; [reflexivity|].
  intros Hn. rewrite path_to_unfold, (Hn e (or_introl eq_refl)).
  rewrite (path_in_forest_none_aux r kids IH); [reflexivity|].
  intros a Ha. apply Hn. right. exact Ha.
Qed.

Lemma path_in_forest_none r l :
  (forall e, In e (forest_elems l) -> ref_eqb (e_ref e) r = false) ->
  path_in_forest r l = None.
Proof.
  apply path_in_forest_none_aux, List.Forall_forall.
  intros n _. apply path_to_none.
Qed.

Lemma event_path_appended r c d :
  in_document r d = false ->
  event_path r (append_to_body c d)
  = match path_to r c with Some p => p | None => [] end.
Proof.
  intros Hn. rewrite in_document_false in Hn. unfold doc_elems in Hn.
  unfold event_path, append_to_body. simpl doc_head. simpl doc_body.
  rewrite (path_in_forest_none r (doc_head d))
    by (intros e He; apply Hn, in_or_app; left; exact He).
  assert (Hb : path_in_forest r (doc_body d) = None)
    by (apply path_in_forest_none; intros e He; apply Hn, in_or_app; right;
        exact He).
  clear Hn. induction (doc_body d) as [|x t IH]; simpl in *.
  - destruct (path_to r c); reflexivity.
  - destruct (path_to r x); [discriminate|]. apply IH, Hb.
Qed.

Lemma overlay_path_rebase k j :
  match path_to (Own (k + j)) (landing_tree k) with
  | Some p => p
  | None => []
  end = List.map (rebase_elem k) (overlay_path j).
Proof.
  rewrite landing_tree_rebase.
  change (Own (k + j)) with (rebase_ref k (Own j)).
  rewrite path_to_rebase. unfold overlay_path.
  destruct (path_to (Own j) (landing_tree 0)); reflexivity.
Qed.

Lemma overlay_listeners_table j :
  j < OVERLAY_SIZE ->
  overlay_listeners Keydown j = [OnRootKeyClose; OnRootKeyTrap (Own 0)]
  /\ overlay_listeners Click j
     = (if Nat.eqb j START_OFFSET then [OnStartClick] else []).
Proof.
  unfold OVERLAY_SIZE. intros Hj.
  do 24 (destruct j as [|j]; [split; vm_compute; reflexivity|]). lia.
Qed.

Lemma showLanding_build b st :
  KInv st ->
  exists st4,
    KInv st4
    /\ showLanding b st
       = schedule (TReveal (Own (next_ref st4))) (fst (buildLanding st4)).
Proof.
  intros HK. rewrite showLanding_unfold. cbv zeta.
  set (st1 := if b then _ else st).
  assert (H1 : KStep st st1)
    by (destruct b; [apply K_storage|apply KStep_refl]; exact HK).
  set (st2 := removeReturnButton st1).
  assert (H2 : KStep st st2).
  { eapply KStep_trans; [exact H1|apply K_removeReturnButton, H1]. }
  set (st3 := match landingRoot st2 with Some _ => _ | None => _ end).
  assert (H3 : KStep st st3).
  { eapply KStep_trans; [exact H2|]. destruct H2 as [K2 _]. subst st3.
    destruct (landingRoot st2) as [r|] eqn:Hr; [|apply KStep_refl, K2].
    assert (Hd : KStep st2 (with_doc (remove_ref r (doc st2)) st2)).
    { apply K_remove_ref; [exact K2|]. apply no_kf_at_root; [exact K2|].
      unfold roots. rewrite Hr. left. reflexivity. }
    eapply KStep_trans; [exact Hd|].
    eapply KStep_trans; [apply (K_blur (doc st2) _ (proj1 Hd))|].
    apply K_clear_root, K_blur, Hd. }
  exists (ensureKeyframe st3). split; [|reflexivity].
  apply K_ensureKeyframe, H3.
Qed.

Lemma fresh_not_in_document st j :
  KInv st -> in_document (Own (next_ref st + j)) (doc st) = false.
Proof.
  intros HK. apply in_document_false. intros e He.
  assert (Hs : In (strip e) (skeleton (doc st))) by (apply in_skeleton; eauto).
  pose proof (k_fresh _ HK _ Hs) as Hf. simpl in Hf.
  destruct (e_ref e) as [x|x]; simpl in *; [reflexivity|].
  apply Nat.eqb_neq. lia.
Qed.

Lemma overlay_handlers ty st4 j :
  KInv st4 ->
  flat_map (listeners_for ty)
    (if bubbles ty
     then event_path (Own (next_ref st4 + j))
            (append_to_body (landing_tree (next_ref st4)) (doc st4))
     else firstn 1
            (event_path (Own (next_ref st4 + j))
               (append_to_body (landing_tree (next_ref st4)) (doc st4))))
  = List.map (rebase_handler (next_ref st4)) (overlay_listeners ty j).
Proof.
  intros K4.
  rewrite (event_path_appended _ _ _ (fresh_not_in_document st4 j K4)).
  rewrite overlay_path_rebase. unfold overlay_listeners.
  destruct (bubbles ty).
  - apply flat_listeners_rebase.
  - rewrite <- flat_listeners_rebase, firstn_map. reflexivity.
Qed.

Lemma dispatch_in_overlay ty b st j key shiftKey :
  KInv st ->
  exists k,
    landingRoot (showLanding b st) = Some (Own k)
    /\ dispatch ty (Own (k + j)) key shiftKey (showLanding b st)
       = fold_left (fun s h => run_handler h key shiftKey s)
           (List.map (rebase_handler k) (overlay_listeners ty j))
           (showLanding b st).
Proof.
  intros HK. destruct (showLanding_build b st HK) as (st4 & K4 & ->).
  exists (next_ref st4). split; [reflexivity|].
  unfold dispatch. cbv zeta. f_equal.
  change (doc (schedule (TReveal (Own (next_ref st4))) (fst (buildLanding st4))))
    with (append_to_body (landing_tree (next_ref st4)) (doc st4)).
  apply (overlay_handlers ty st4 j K4).
Qed.

(** X12.  Keys and clicks inside the overlay.  After [showLanding], for
    a key event targeted at any node of the overlay: Escape, and Enter
    without Shift, dismiss it with [hideLanding(true)] (once); any other
    key only reaches the Tab handler, so a key other than Tab does
    nothing.  A click dismisses the overlay exactly when its target is
    the start button; a click anywhere else in the overlay does
    nothing. *)
Theorem overlay_keys_and_clicks (b : bool) (st : state) :
  reachable st ->
  let s := showLanding b st in
  exists k,
    landingRoot s = Some (Own k)
    /\ forall j key shiftKey,
         j < OVERLAY_SIZE ->
         dispatch Keydown (Own (k + j)) key shiftKey s
         = (if String.eqb key "Escape"
               || (String.eqb key "Enter" && negb shiftKey)
            then hideLanding true s
            else run_handler (OnRootKeyTrap (Own k)) key shiftKey s)
         /\ (String.eqb key "Escape" || String.eqb key "Enter"
             || String.eqb key "Tab" = false ->
             dispatch Keydown (Own (k + j)) key shiftKey s = s)
         /\ dispatch Click (Own (k + j)) key shiftKey s
            = (if Nat.eqb j START_OFFSET then hideLanding true s else s).
Proof.
  intros Hr. cbv zeta. apply reachable_KInv in Hr.
  destruct (dispatch_in_overlay Keydown b st 0 "" false Hr) as (k & Hk & _).
  exists k. split; [exact Hk|]. intros j key shiftKey Hj.
  destruct (overlay_listeners_table j Hj) as (Tk & Tc).
  destruct (dispatch_in_overlay Keydown b st j key shiftKey Hr)
    as (k1 & Hk1 & Dk).
  destruct (dispatch_in_overlay Click b st j key shiftKey Hr)
    as (k2 & Hk2 & Dc).
  assert (k1 = k) by congruence. assert (k2 = k) by congruence.
  subst k1 k2. rewrite Dk, Dc, Tk, Tc. clear Dk Dc Tk Tc Hk1 Hk2 Hk.
  generalize (showLanding b st). intros s.
  assert (Hkey : fold_left (fun s0 h => run_handler h key shiftKey s0)
                   (List.map (rebase_handler k)
                      [OnRootKeyClose; OnRootKeyTrap (Own 0)]) s
                 = (if String.eqb key "Escape"
                       || (String.eqb key "Enter" && negb shiftKey)
                    then hideLanding true s
                    else run_handler (OnRootKeyTrap (Own k)) key shiftKey s)).
  { simpl List.map. rewrite Nat.add_0_r. simpl fold_left.
    unfold run_handler.
    destruct (String.eqb_spec key "Escape") as [->|_]; [reflexivity|].
    destruct (String.eqb_spec key "Enter") as [->|_]; [|reflexivity].
    destruct shiftKey; reflexivity. }
  split; [exact Hkey|]. split.
  - rewrite Hkey. intros Hno.
    destruct (String.eqb key "Escape"); [discriminate|].
    destruct (String.eqb key "Enter"); [discriminate|].
    simpl in Hno. simpl. unfold run_handler. rewrite Hno. reflexivity.
  - destruct (Nat.eqb j START_OFFSET); reflexivity.
Qed.

Lemma overlay_keys_and_clicks_witness :
  exists k,
    landingRoot (showLanding false demo_open) = Some (Own k)
    /\ dispatch Keydown (Own (k + 5)) "a" false (showLanding false demo_open)
       = showLanding false demo_open.
Proof.
  assert (Hj : 5 < OVERLAY_SIZE) by (unfold OVERLAY_SIZE; lia).
  destruct (overlay_keys_and_clicks false demo_open reachable_demo_open)
    as (k & Hk & H).
  exists k. split; [exact Hk|].
  exact (proj1 (proj2 (H 5 "a" false Hj)) eq_refl).
Defined.

(** ** The session across page loads *)

Lemma page_load_init pathname loading d store :
  Str.startsWith pathname "/share" = false ->
  host_document d = true ->
  exists st0,
    Inv st0 /\ observer st0 = false /\ sessionStorage st0 = store
    /\ landingRoot st0 = None /\ pending st0 = []
    /\ count_id LANDING_ID (doc st0) = 0
    /\ doc (page_load pathname loading d store) = doc (init st0)
    /\ landingRoot (page_load pathname loading d store) = landingRoot (init st0)
    /\ pending (page_load pathname loading d store) = pending (init st0).
Proof.
  intros Hp Hd. unfold page_load, script. rewrite Hp. cbv zeta.
  assert (Hz : count_id LANDING_ID d = 0)
    by (apply host_document_count; [exact Hd|left; reflexivity]).
  pose proof (Inv_fresh_page d store Hd) as HI.
  destruct loading.
  - exists (with_ready false (with_hook true (with_ready true (fresh_page d store)))).
    split; [eapply Inv_same; [exact HI|reflexivity|reflexivity]|].
    repeat split. exact Hz.
  - exists (fresh_page d store). split; [exact HI|]. repeat split. exact Hz.
Qed.

(** X13.  The dismissal is remembered for the session.  When the page
    is loaded again (on a route other than [/share], whether [init] runs
    at once or at [DOMContentLoaded]) with the session storage left by
    [hideLanding(true)] on a live overlay, no overlay is built and
    nothing is scheduled, and the return button is there; with the
    storage left by [showLanding(true)], the overlay is presented
    again. *)
Theorem session_remembers_dismissal (st : state) (root : ref) (d : document)
  (pathname : string) (loading : bool) :
  landingRoot st = Some root ->
  host_document d = true ->
  Str.startsWith pathname "/share" = false ->
  let dismissed :=
    page_load pathname loading d (sessionStorage (hideLanding true st)) in
  let reopened :=
    page_load pathname loading d (sessionStorage (showLanding true st)) in
  (count_id LANDING_ID (doc dismissed) = 0
   /\ landingRoot dismissed = None
   /\ pending dismissed = []
   /\ count_id BUTTON_ID (doc dismissed) = 1)
  /\ (count_id LANDING_ID (doc reopened) = 1
      /\ landingRoot reopened <> None
      /\ count_id BUTTON_ID (doc reopened) = 1).
Proof.
  intros Hl Hd Hp. cbv zeta. split.
  - destruct (page_load_init pathname loading d
                (sessionStorage (hideLanding true st)) Hp Hd)
      as (st0 & HI & _ & Hs & Hl0 & Hp0 & Hz & -> & -> & ->).
    assert (Hflag : flag_unset st0 = false).
    { unfold flag_unset. rewrite Hs, hideLanding_storage, Hl, lookup_insert_eq.
      reflexivity. }
    destruct (init_set_counts st0 HI Hflag) as (E3 & E4 & _).
    destruct (init_set_frame st0 Hflag) as (E1 & E2 & _).
    rewrite E1, E2, E3, E4. auto.
  - destruct (page_load_init pathname loading d
                (sessionStorage (showLanding true st)) Hp Hd)
      as (st0 & HI & Ho & Hs & Hl0 & Hp0 & Hz & -> & -> & _).
    assert (Hflag : flag_unset st0 = true).
    { unfold flag_unset. rewrite Hs, showLanding_storage, lookup_delete_eq.
      reflexivity. }
    destruct (init_unset_counts st0 HI Ho Hflag) as (E3 & E4 & _).
    destruct (init_unset_frame st0 Hflag) as ((k & E1 & _) & _).
    rewrite E1, E3, E4. repeat split. discriminate.
Qed.

Lemma session_remembers_dismissal_witness :
  count_id LANDING_ID
    (doc (page_load "/" true demo_page
            (sessionStorage (hideLanding true demo_open)))) = 0.
Proof.
  exact (proj1 (proj1 (session_remembers_dismissal demo_open (Own 1) demo_page
                         "/" true eq_refl eq_refl eq_refl))).
Defined.

(** ** The script's own controls and the hiding pass *)

Lemma overlay_not_denylisted k :
  map_node hide_if_native (landing_tree k) = landing_tree k.
Proof. rewrite landing_tree_rebase. vm_compute. reflexivity. Qed.

Lemma map_doc_append_to_body f c d :
  map_doc f (append_to_body c d) = append_to_body (map_node f c) (map_doc f d).
Proof.
  unfold map_doc, append_to_body. cbn [doc_head doc_body].
  rewrite List.map_app. reflexivity.
Qed.

Lemma showLanding_shape b st :
  exists st4,
    showLanding b st
    = schedule (TReveal (Own (next_ref st4))) (fst (buildLanding st4)).
Proof. rewrite showLanding_unfold. cbv zeta. eexists. reflexivity. Qed.

(** X14.  The hiding pass spares the script's own elements: none of the
    nodes of the overlay (among them the start button and the two
    links), the return button and its floating container matches the
    denylist, so [hideNativeHeaderButtons] leaves these subtrees exactly
    as they were built, whatever their identities and the classes of the
    button.  In particular a pass run while the overlay is presented
    leaves the overlay, the last child of the body, as [showLanding]
    built it. *)
Theorem own_controls_stay_visible (k k' : nat) (cls : list string)
  (b : bool) (st : state) :
  map_node hide_if_native (landing_tree k) = landing_tree k
  /\ map_node hide_if_native (return_button k cls) = return_button k cls
  /\ map_node hide_if_native (container_node k' [ return_button k cls ])
     = container_node k' [ return_button k cls ]
  /\ exists r d0,
       doc (showLanding b st) = append_to_body (landing_tree r) d0
       /\ landingRoot (showLanding b st) = Some (Own r)
       /\ doc (hideNativeHeaderButtons (showLanding b st))
          = append_to_body (landing_tree r) (map_doc hide_if_native d0).
Proof.
  split; [apply overlay_not_denylisted|].
  split; [vm_compute; reflexivity|].
  split; [vm_compute; reflexivity|].
  destruct (showLanding_shape b st) as (st4 & ->).
  exists (next_ref st4), (doc st4).
  split; [reflexivity|]. split; [reflexivity|].
  unfold hideNativeHeaderButtons.
  change (doc (schedule (TReveal (Own (next_ref st4))) (fst (buildLanding st4))))
    with (append_to_body (landing_tree (next_ref st4)) (doc st4)).
  change (doc (with_doc ?d _)) with d.
  rewrite map_doc_append_to_body, overlay_not_denylisted. reflexivity.
Qed.

(** ** The focus order of the overlay *)

Lemma subnodes_head n e kids :
  In (Elem e kids) (subnodes n) -> In e (elems n).
Proof.
  induction n as [s|e0 kids0 IH] using node_induction; simpl; [tauto|].
  intros [H|H].
  - injection H as -> _. left. reflexivity.
  - right. apply in_flat_map in H as (x & Hx & Hin).
    rewrite List.Forall_forall in IH.
    apply in_flat_map. exists x. split; [exact Hx|]. apply (IH x Hx), Hin.
Qed.

Lemma doc_nodes_head d e kids :
  In (Elem e kids) (doc_nodes d) -> In e (doc_elems d).
Proof.
  unfold doc_nodes, doc_elems, forest_elems. intros H.
  apply in_app_or in H as [H|H]; apply in_flat_map in H as (x & Hx & Hin);
    apply in_or_app; [left|right]; apply in_flat_map; exists x;
    (split; [exact Hx|]); eapply subnodes_head; exact Hin.
Qed.

Lemma find_skip {A} (p : A -> bool) l1 l2 :
  (forall x, In x l1 -> p x = false) ->
  List.find p (l1 ++ l2) = List.find p l2.
Proof.
  induction l1 as [|x t IH]; simpl; intros H; [reflexivity|].
  rewrite (H x (or_introl eq_refl)). apply IH. intros y Hy. apply H. right.
  exact Hy.
Qed.

Lemma find_node_appended r e kids d :
  in_document r d = false -> e_ref e = r ->
  find_node r (append_to_body (Elem e kids) d) = Some (Elem e kids).
Proof.
  intros Hn He. rewrite in_document_false in Hn.
  unfold find_node, doc_nodes, append_to_body. simpl doc_head. simpl doc_body.
  rewrite flat_map_app, app_assoc.
  change (flat_map subnodes (doc_head d) ++ flat_map subnodes (doc_body d))
    with (doc_nodes d).
  rewrite find_skip.
  - simpl. rewrite He, ref_eqb_refl. reflexivity.
  - intros [e' kids'|s] Hx; [|reflexivity]. apply Hn.
    eapply doc_nodes_head. exact Hx.
Qed.

(** X15.  The focus order of the overlay.  After [showLanding] the
    elements the Tab handler cycles through are, in order, the start
    button and the two links; the overlay is the subtree the handler
    looks them up in; and the focus callback that [showLanding]
    schedules puts the focus on the start button. *)
Theorem overlay_focus_order (b : bool) (st : state) :
  reachable st ->
  let s := showLanding b st in
  exists k,
    landingRoot s = Some (Own k)
    /\ find_node (Own k) (doc s) = Some (landing_tree k)
    /\ focusable (Own k) (doc s)
       = [Own (k + START_OFFSET); Own (k + 21); Own (k + 22)]
    /\ In (TFocus (Own (k + START_OFFSET))) (pending s)
    /\ activeElement (fire (TFocus (Own (k + START_OFFSET))) s)
       = Some (Own (k + START_OFFSET)).
Proof.
  intros Hr. cbv zeta. apply reachable_KInv in Hr.
  destruct (showLanding_build b st Hr) as (st4 & K4 & ->).
  exists (next_ref st4). split; [reflexivity|].
  change (doc (schedule (TReveal (Own (next_ref st4))) (fst (buildLanding st4))))
    with (append_to_body (landing_tree (next_ref st4)) (doc st4)).
  assert (Hfind : find_node (Own (next_ref st4))
                    (append_to_body (landing_tree (next_ref st4)) (doc st4))
                  = Some (landing_tree (next_ref st4))).
  { pose proof (fresh_not_in_document st4 0 K4) as Hn.
    rewrite Nat.add_0_r in Hn. apply find_node_appended; [exact Hn|reflexivity]. }
  assert (Hfoc : focusable (Own (next_ref st4))
                   (append_to_body (landing_tree (next_ref st4)) (doc st4))
                 = [Own (next_ref st4 + START_OFFSET); Own (next_ref st4 + 21);
                    Own (next_ref st4 + 22)]).
  { unfold focusable. rewrite Hfind. vm_compute. reflexivity. }
  split; [exact Hfind|]. split; [exact Hfoc|]. split.
  - unfold schedule, buildLanding. simpl pending.
    apply in_or_app. left. apply in_or_app. right. left. reflexivity.
  - unfold fire. apply focus_sets_active.
    change (doc (schedule (TReveal (Own (next_ref st4))) (fst (buildLanding st4))))
      with (append_to_body (landing_tree (next_ref st4)) (doc st4)).
    apply (focusable_in_document (Own (next_ref st4))). rewrite Hfoc.
    left. reflexivity.
Qed.

Lemma overlay_focus_order_witness :
  exists k,
    landingRoot (showLanding false demo_open) = Some (Own k)
    /\ focusable (Own k) (doc (showLanding false demo_open))
       = [Own (k + START_OFFSET); Own (k + 21); Own (k + 22)].
Proof.
  destruct (overlay_focus_order false demo_open reachable_demo_open)
    as (k & Hk & _ & Hf & _).
  exists k. split; assumption.
Defined.

(** ** Immediate and deferred start-up *)

Lemma ensureKeyframe_hook h st :
  ensureKeyframe (with_hook h st) = with_hook h (ensureKeyframe st).
Proof.
  unfold ensureKeyframe. change (doc (with_hook h st)) with (doc st).
  destruct (getElementById KEYFRAME_ID (doc st)); reflexivity.
Qed.

Lemma ensureReturnButton_hook h st :
  ensureReturnButton (with_hook h st) = with_hook h (ensureReturnButton st).
Proof.
  unfold ensureReturnButton. cbv zeta.
  change (doc (with_hook h st)) with (doc st).
  change (doc (hideNativeHeaderButtons (with_hook h st)))
    with (doc (hideNativeHeaderButtons st)).
  destruct (getElementById BUTTON_ID (doc (hideNativeHeaderButtons st)));
    [reflexivity|].
  destruct (find_elem (has_class "cl-header") (doc st)); [reflexivity|].
  destruct (getElementById BUTTON_CONTAINER_ID
              (doc (hideNativeHeaderButtons st))); reflexivity.
Qed.

Lemma showLanding_hook h b st :
  showLanding b (with_hook h st) = with_hook h (showLanding b st).
Proof.
  rewrite !showLanding_unfold. cbv zeta.
  assert (E1 : (if b then with_storage
                     (delete STORAGE_KEY (sessionStorage (with_hook h st)))
                     (with_hook h st)
                else with_hook h st)
               = with_hook h (if b then with_storage
                                (delete STORAGE_KEY (sessionStorage st)) st
                              else st)) by (destruct b; reflexivity).
  rewrite E1. clear E1.
  generalize (if b then with_storage (delete STORAGE_KEY (sessionStorage st)) st
              else st). clear st. intros st.
  change (removeReturnButton (with_hook h st))
    with (with_hook h (removeReturnButton st)).
  generalize (removeReturnButton st). clear st. intros st.
  change (landingRoot (with_hook h st)) with (landingRoot st).
  assert (E3 : match landingRoot st with
               | Some r => with_landingRoot None
                   (blur_removed (doc (with_hook h st))
                      (with_doc (remove_ref r (doc (with_hook h st)))
                         (with_hook h st)))
               | None => with_hook h st
               end
               = with_hook h match landingRoot st with
                  | Some r => with_landingRoot None
                                (blur_removed (doc st)
                                   (with_doc (remove_ref r (doc st)) st))
                  | None => st
                  end) by (destruct (landingRoot st); reflexivity).
  rewrite E3, ensureKeyframe_hook. reflexivity.
Qed.

Lemma setupObservers_hook h st :
  setupObservers (with_hook h st) = with_hook h (setupObservers st).
Proof.
  unfold setupObservers. change (observer (with_hook h st)) with (observer st).
  destruct (observer st); [reflexivity|].
  change (with_observer true (with_hook h st))
    with (with_hook h (with_observer true st)).
  rewrite ensureReturnButton_hook. reflexivity.
Qed.

Lemma init_hook h st : init (with_hook h st) = with_hook h (init st).
Proof.
  unfold init. cbv zeta. rewrite ensureKeyframe_hook.
  change (hideNativeHeaderButtons (with_hook h (ensureKeyframe st)))
    with (with_hook h (hideNativeHeaderButtons (ensureKeyframe st))).
  change (flag_unset (with_hook h (hideNativeHeaderButtons (ensureKeyframe st))))
    with (flag_unset (hideNativeHeaderButtons (ensureKeyframe st))).
  destruct (flag_unset _).
  - rewrite showLanding_hook. apply setupObservers_hook.
  - rewrite ensureReturnButton_hook. apply setupObservers_hook.
Qed.

(** X16.  Deferred start-up changes nothing: when the script is
    evaluated while the document is still loading and [init] runs at
    [DOMContentLoaded], the page ends in exactly the state it reaches
    when [init] runs at once, on every route and with any stored
    session. *)
Theorem deferred_start_same (pathname : string) (d : document)
  (store : gmap string string) :
  page_load pathname true d store = page_load pathname false d store.
Proof.
  unfold page_load, script. cbv zeta.
  destruct (Str.startsWith pathname "/share"); [reflexivity|].
  change (step EvDomReady (with_hook true (with_ready true (fresh_page d store))))
    with (init (with_hook true (fresh_page d store))).
  apply init_hook.
Qed.

(** ** Hovering over a link of the overlay *)

Section ElemMap.
Variable g : elem -> elem.
Variables r r' : ref.
Hypothesis g_ref : forall e, ref_eqb (e_ref (g e)) r' = ref_eqb (e_ref e) r.

Lemma path_in_forest_map_aux l :
  Forall (fun n => path_to r' (map_node (fun e _ => g e) n)
                   = option_map (List.map g) (path_to r n)) l ->
  path_in_forest r' (List.map (map_node (fun e _ => g e)) l)
  = option_map (List.map g) (path_in_forest r l).
Proof.
  induction 1 as [|x t Hx _ IH]; simpl; [reflexivity|].
  rewrite Hx, IH. destruct (path_to r x); reflexivity.
Qed.

Lemma path_to_map n :
  path_to r' (map_node (fun e _ => g e) n)
  = option_map (List.map g) (path_to r n).
Proof.
  induction n as [s|e kids IH] using node_induction; [reflexivity|].
  change (map_node (fun e _ => g e) (Elem e kids))
    with (Elem (g e) (List.map (map_node (fun e _ => g e)) kids)).
  rewrite !path_to_unfold, g_ref, (path_in_forest_map_aux kids IH).
  destruct (ref_eqb (e_ref e) r); [reflexivity|].
  destruct (path_in_forest r kids); simpl; [|reflexivity].
  rewrite List.map_app. reflexivity.
Qed.

Lemma path_in_forest_map l :
  path_in_forest r' (List.map (map_node (fun e _ => g e)) l)
  = option_map (List.map g) (path_in_forest r l).
Proof.
  apply path_in_forest_map_aux, List.Forall_forall.
  intros n _. apply path_to_map.
Qed.

Lemma event_path_map d :
  event_path r' (map_doc (fun e _ => g e) d) = List.map g (event_path r d).
Proof.
  unfold event_path, map_doc. cbn [doc_head doc_body].
  rewrite !path_in_forest_map.
  destruct (path_in_forest r (doc_head d)); [reflexivity|].
  destruct (path_in_forest r (doc_body d)); reflexivity.
Qed.

End ElemMap.

Lemma map_node_comp (f h w : elem -> elem) n :
  (forall e, f (h e) = w e) ->
  map_node (fun e _ => f e) (map_node (fun e _ => h e) n)
  = map_node (fun e _ => w e) n.
Proof.
  intros Hw. induction n as [s|e kids IH] using node_induction; simpl;
    [reflexivity|].
  rewrite Hw. f_equal.
  induction IH as [|x t Hx _ IHt]; simpl; [reflexivity|].
  rewrite Hx, IHt. reflexivity.
Qed.

Lemma map_doc_comp (f h w : elem -> elem) d :
  (forall e, f (h e) = w e) ->
  map_doc (fun e _ => f e) (map_doc (fun e _ => h e) d)
  = map_doc (fun e _ => w e) d.
Proof.
  intros Hw. unfold map_doc. cbn [doc_head doc_body].
  f_equal; rewrite List.map_map; apply List.map_ext; intros n;
    apply map_node_comp, Hw.
Qed.

Lemma update_ref_absorb a g1 g2 d :
  (forall e, e_ref (g1 e) = e_ref e) ->
  (forall e, g2 (g1 e) = g2 e) ->
  update_ref a g2 (update_ref a g1 d) = update_ref a g2 d.
Proof.
  intros Hr Hg. unfold update_ref. apply map_doc_comp. intros e.
  destruct (ref_eqb (e_ref e) a) eqn:E.
  - rewrite Hr, E. apply Hg.
  - rewrite E. reflexivity.
Qed.

Lemma kv_set_twice k v v' l : kv_set k v (kv_set k v' l) = kv_set k v l.
Proof.
  induction l as [|[k0 v0] t IH]; simpl.
  - rewrite String.eqb_refl. reflexivity.
  - destruct (String.eqb k k0) eqn:E; simpl; rewrite ?E, ?String.eqb_refl;
      [reflexivity|]. rewrite IH. reflexivity.
Qed.

Lemma dispatch_restyled ty target key shiftKey a g st :
  (forall e, e_ref (g e) = e_ref e) ->
  (forall e, e_listeners (g e) = e_listeners e) ->
  dispatch ty target key shiftKey (with_doc (update_ref a g (doc st)) st)
  = fold_left (fun s h => run_handler h key shiftKey s)
      (flat_map (listeners_for ty)
         (if bubbles ty then event_path target (doc st)
          else firstn 1 (event_path target (doc st))))
      (with_doc (update_ref a g (doc st)) st).
Proof.
  intros Hr Hl. unfold dispatch. cbv zeta. f_equal.
  change (doc (with_doc (update_ref a g (doc st)) st))
    with (update_ref a g (doc st)).
  unfold update_ref.
  set (h := fun e => if ref_eqb (e_ref e) a then g e else e).
  assert (Hh : forall e, ref_eqb (e_ref (h e)) target = ref_eqb (e_ref e) target).
  { intros e. unfold h. destruct (ref_eqb (e_ref e) a); [rewrite Hr|]; reflexivity. }
  rewrite (event_path_map h target target Hh).
  assert (Hf : forall p, flat_map (listeners_for ty) (List.map h p)
                         = flat_map (listeners_for ty) p).
  { induction p as [|e t IH]; simpl; [reflexivity|]. rewrite IH. f_equal.
    unfold listeners_for, h. destruct (ref_eqb (e_ref e) a); [rewrite Hl|];
      reflexivity. }
  destruct (bubbles ty); [apply Hf|]. rewrite firstn_map. apply Hf.
Qed.

Lemma hover_listeners_table j :
  j < OVERLAY_SIZE ->
  overlay_listeners MouseEnter j
  = (if Nat.eqb j 21 || Nat.eqb j 22 then [OnLinkEnter (Own j)] else [])
  /\ overlay_listeners MouseLeave j
     = (if Nat.eqb j 21 || Nat.eqb j 22 then [OnLinkLeave (Own j)] else []).
Proof.
  unfold OVERLAY_SIZE. intros Hj.
  do 24 (destruct j as [|j]; [split; vm_compute; reflexivity|]). lia.
Qed.

Lemma link_at_rest k j :
  Nat.eqb j 21 || Nat.eqb j 22 = true ->
  map_node (fun e _ => if ref_eqb (e_ref e) (Own (k + j))
                       then set_style "background" "var(--surface)" e
                       else e) (landing_tree k)
  = landing_tree k.
Proof.
  intros Hj. rewrite landing_tree_rebase.
  rewrite (map_node_comp _ (rebase_elem k)
             (fun e => rebase_elem k
                         (if ref_eqb (e_ref e) (Own j)
                          then set_style "background" "var(--surface)" e
                          else e))).
  - rewrite <- (map_node_comp (rebase_elem k)
                  (fun e => if ref_eqb (e_ref e) (Own j)
                            then set_style "background" "var(--surface)" e
                            else e) _ _ (fun e => eq_refl)).
    f_equal.
    destruct j as [|j]; [discriminate|].
    do 20 (destruct j as [|j]; [discriminate|]).
    destruct j as [|j]; [vm_compute; reflexivity|].
    destruct j as [|j]; [vm_compute; reflexivity|].
    simpl in Hj. discriminate.
  - intros e.
    change (e_ref (rebase_elem k e)) with (rebase_ref k (e_ref e)).
    change (Own (k + j)) with (rebase_ref k (Own j)).
    rewrite rebase_ref_eqb. destruct (ref_eqb (e_ref e) (Own j)); reflexivity.
Qed.

Lemma hover_at_rest st4 j :
  KInv st4 -> Nat.eqb j 21 || Nat.eqb j 22 = true ->
  update_ref (Own (next_ref st4 + j)) (set_style "background" "var(--surface)")
    (append_to_body (landing_tree (next_ref st4)) (doc st4))
  = append_to_body (landing_tree (next_ref st4)) (doc st4).
Proof.
  intros K4 Hj. unfold update_ref.
  rewrite map_doc_append_to_body, (link_at_rest _ _ Hj). f_equal.
  apply map_doc_fixed. intros e kids Hin.
  pose proof (fresh_not_in_document st4 j K4) as Hn.
  rewrite in_document_false in Hn.
  rewrite (Hn e (doc_nodes_head _ _ _ Hin)). reflexivity.
Qed.

(** X17.  Hovering over the overlay.  After [showLanding], a
    [mouseenter] on one of the two links gives that link (and nothing
    else) the highlighted background, a [mouseenter] on any other node
    of the overlay does nothing, and the [mouseleave] that follows puts
    the page back exactly as it was. *)
Theorem link_hover_round_trip (b : bool) (st : state) :
  reachable st ->
  let s := showLanding b st in
  exists k,
    landingRoot s = Some (Own k)
    /\ forall j key shiftKey,
         j < OVERLAY_SIZE ->
         let entered := dispatch MouseEnter (Own (k + j)) key shiftKey s in
         entered
         = (if Nat.eqb j 21 || Nat.eqb j 22
            then with_doc
                   (update_ref (Own (k + j))
                      (set_style "background"
                         "color-mix(in oklab, var(--cu-blue-50) 55%, transparent)")
                      (doc s)) s
            else s)
         /\ dispatch MouseLeave (Own (k + j)) key shiftKey entered = s.
Proof.
  intros Hr. cbv zeta. apply reachable_KInv in Hr.
  destruct (showLanding_build b st Hr) as (st4 & K4 & ->).
  exists (next_ref st4). split; [reflexivity|]. intros j key shiftKey Hj.
  destruct (hover_listeners_table j Hj) as (Te & Tl).
  set (s := schedule (TReveal (Own (next_ref st4))) (fst (buildLanding st4))).
  assert (Hd : doc s = append_to_body (landing_tree (next_ref st4)) (doc st4))
    by reflexivity.
  assert (He : dispatch MouseEnter (Own (next_ref st4 + j)) key shiftKey s
               = fold_left (fun s0 h => run_handler h key shiftKey s0)
                   (List.map (rebase_handler (next_ref st4))
                      (overlay_listeners MouseEnter j)) s).
  { unfold dispatch. cbv zeta. f_equal. rewrite Hd.
    apply (overlay_handlers MouseEnter st4 j K4). }
  assert (Hl : dispatch MouseLeave (Own (next_ref st4 + j)) key shiftKey s
               = fold_left (fun s0 h => run_handler h key shiftKey s0)
                   (List.map (rebase_handler (next_ref st4))
                      (overlay_listeners MouseLeave j)) s).
  { unfold dispatch. cbv zeta. f_equal. rewrite Hd.
    apply (overlay_handlers MouseLeave st4 j K4). }
  rewrite He, Te. rewrite Tl in Hl.
  destruct (Nat.eqb j 21 || Nat.eqb j 22) eqn:Hlink.
  - split; [reflexivity|].
    change (fold_left (fun s0 h => run_handler h key shiftKey s0)
              (List.map (rebase_handler (next_ref st4)) [OnLinkEnter (Own j)]) s)
      with (with_doc
              (update_ref (Own (next_ref st4 + j))
                 (set_style "background"
                    "color-mix(in oklab, var(--cu-blue-50) 55%, transparent)")
                 (doc s)) s).
    rewrite dispatch_restyled by reflexivity.
    rewrite !Hd.
    rewrite (overlay_handlers MouseLeave st4 j K4), Tl.
    change (fold_left (fun s0 h => run_handler h key shiftKey s0)
              (List.map (rebase_handler (next_ref st4)) [OnLinkLeave (Own j)])
              ?x)
      with (run_handler (OnLinkLeave (Own (next_ref st4 + j))) key shiftKey x).
    unfold run_handler.
    change (doc (with_doc ?d _)) with d.
    rewrite update_ref_absorb;
      [|reflexivity|intros e; unfold set_style; simpl; rewrite kv_set_twice;
                    reflexivity].
    rewrite (hover_at_rest st4 j K4 Hlink), <- Hd.
    transitivity (with_doc (doc s) s); [reflexivity|apply with_doc_same].
  - split; [reflexivity|]. exact Hl.
Qed.

Lemma link_hover_round_trip_witness :
  exists k,
    landingRoot (showLanding false demo_open) = Some (Own k)
    /\ dispatch MouseLeave (Own (k + 21)) "" false
         (dispatch MouseEnter (Own (k + 21)) "" false
            (showLanding false demo_open))
       = showLanding false demo_open.
Proof.
  assert (Hj : 21 < OVERLAY_SIZE) by (unfold OVERLAY_SIZE; lia).
  destruct (link_hover_round_trip false demo_open reachable_demo_open)
    as (k & Hk & H).
  exists k. split; [exact Hk|]. exact (proj2 (H 21 "" false Hj)).
Defined.
